(** * voicetyped: a shallow embedding of the core and its checked properties

    The development follows the Go sources of the repository:
    - [pkg/webhook]: the per-endpoint circuit breaker and the failure handling
      of the deliverer;
    - [pkg/dialog] and the dialog RPC handler: sessions, transition
      evaluation, [StartDialog];
    - [internal/media/sfu]: rooms, publisher tracks, the SVC forwarder and the
      PLI debouncer;
    - [pkg/urlvalidation]: the SSRF check of webhook and hook URLs.

    Conventions.  A Go [int] is a [Z] whose arithmetic is wrapped to 64 bits
    where the source computes with it.  A [time.Time] is a [Z] counting
    nanoseconds on one clock, a [time.Duration] a [Z] of nanoseconds.  Go maps
    are [gmap]s.  Calls into libraries outside the repository (the template
    engine, the resolver, the RTP parsers, the media transport) are parameters
    of the definitions that use them.  Locks are not modelled: every method
    body below runs under the lock its source takes, so it is one atomic step
    on the protected fields. *)

From Stdlib Require Import ZArith Lia Ascii String DecimalString.
From stdpp Require Import base option list gmap strings.

Local Open Scope string_scope.
Local Open Scope list_scope.
Local Open Scope Z_scope.

(** ** Go integers, time and errors *)

Module Go.

Definition minInt64 : Z := - 2 ^ 63.
Definition maxInt64 : Z := 2 ^ 63 - 1.

(** Two's-complement wrap-around of a 64-bit signed result. *)
Definition wrap64 (z : Z) : Z := (z + 2 ^ 63) mod 2 ^ 64 - 2 ^ 63.

(** [x << s] on [int]: a negative count panics ([None]); a count of 64 or
    more shifts every bit out. *)
Definition shl (x s : Z) : option Z :=
  if s <? 0 then None
  else Some (if 64 <=? s then 0 else wrap64 (Z.shiftl x s)).

(** [len] of a slice or a map, as an [int]. *)
Definition len {A} (l : list A) : Z := Z.of_nat (length l).

Definition Time := Z.
Definition Duration := Z.

Definition Millisecond : Duration := 1000000.
Definition Second : Duration := 1000000000.

(** The zero [time.Time] (January 1, year 1), in nanoseconds before the
    Unix epoch. *)
Definition zeroTime : Time := - 62135596800 * Second.

(** [t.Sub(u)]: the difference, saturated to the range of [Duration]. *)
Definition Sub (t u : Time) : Duration :=
  let d := t - u in
  if d <? minInt64 then minInt64
  else if maxInt64 <? d then maxInt64
  else d.

(** [time.Since(t)] read at the instant [now]. *)
Definition Since (now t : Time) : Duration := Sub now t.

(** Arguments of a format string. *)
Inductive arg := ArgS (s : string) | ArgI (i : Z).

(** connect RPC status codes used by the handlers. *)
Inductive Code :=
| CodeNotFound | CodeAlreadyExists | CodeInvalidArgument
| CodeResourceExhausted | CodeDeadlineExceeded | CodeInternal.

(** Go [error] values: [fmt.Errorf] with its format and its arguments,
    [ErrorfW] when the format wraps an error with [%w];
    [connect.NewError]; the SFU's own error type; an error returned by a
    library. *)
Inductive error :=
| Errorf (format : string) (args : list arg)
| ErrorfW (format : string) (args : list arg) (wrapped : error)
| ConnectError (code : Code) (cause : error)
| SFUError (msg : string)
| LibError (msg : string).

Inductive Result (A : Type) :=
| Ok (a : A)
| Err (e : error).
Arguments Ok {A} a.
Arguments Err {A} e.

Definition isOk {A} (r : Result A) : bool :=
  match r with Ok _ => true | Err _ => false end.

Definition isErr {A} (r : Result A) : bool := negb (isOk r).

(** [string(r)] for a rune [r]: its UTF-8 encoding, and the encoding of
    U+FFFD for a value that is no valid code point. *)
Definition runeBytes (r : Z) : list Z :=
  if (r <? 0) || (1114111 <? r) || ((55296 <=? r) && (r <=? 57343))
  then [239; 191; 189]
  else if r <? 128 then [r]
  else if r <? 2048 then
    [Z.lor 192 (Z.shiftr r 6); Z.lor 128 (Z.land r 63)]
  else if r <? 65536 then
    [Z.lor 224 (Z.shiftr r 12); Z.lor 128 (Z.land (Z.shiftr r 6) 63);
     Z.lor 128 (Z.land r 63)]
  else
    [Z.lor 240 (Z.shiftr r 18); Z.lor 128 (Z.land (Z.shiftr r 12) 63);
     Z.lor 128 (Z.land (Z.shiftr r 6) 63); Z.lor 128 (Z.land r 63)].

Definition string_of_rune (r : Z) : string :=
  string_of_list_ascii (map (fun b => Ascii.ascii_of_N (Z.to_N b)) (runeBytes r)).

(** An [int] printed with [%d]. *)
Definition Itoa (z : Z) : string := NilZero.string_of_int (Z.to_int z).

End Go.

Import Go.

(** ** pkg/webhook *)

Module Webhook.

(** *** circuit_breaker.go *)

Definition StateClosed : string := "closed".
Definition StateOpen : string := "open".
Definition StateHalfOpen : string := "half_open".

Record CircuitBreakerConfig := mkCircuitBreakerConfig {
  FailureThreshold : Z;
  ResetTimeout : Duration;
  HalfOpenMaxAttempts : Z
}.

Record CircuitBreaker := mkCircuitBreaker {
  state : string;
  failures : Z;
  successes : Z;
  lastFailureTime : Time;
  config : CircuitBreakerConfig
}.

Definition NewCircuitBreaker (cfg : CircuitBreakerConfig) : CircuitBreaker :=
  let cfg :=
    if HalfOpenMaxAttempts cfg <=? 0
    then mkCircuitBreakerConfig (FailureThreshold cfg) (ResetTimeout cfg) 1
    else cfg in
  mkCircuitBreaker StateClosed 0 0 zeroTime cfg.

(** [AllowRequest], called at the instant [now]: the answer and the breaker
    afterwards. *)
Definition AllowRequest (now : Time) (cb : CircuitBreaker) : bool * CircuitBreaker :=
  if String.eqb (state cb) StateClosed then (true, cb)
  else if String.eqb (state cb) StateOpen then
    if ResetTimeout (config cb) <? Since now (lastFailureTime cb)
    then (true, mkCircuitBreaker StateHalfOpen (failures cb) 0
                  (lastFailureTime cb) (config cb))
    else (false, cb)
  else if String.eqb (state cb) StateHalfOpen then (true, cb)
  else (true, cb).

Definition RecordSuccess (cb : CircuitBreaker) : CircuitBreaker :=
  if String.eqb (state cb) StateHalfOpen then
    let s := wrap64 (successes cb + 1) in
    mkCircuitBreaker
      (if HalfOpenMaxAttempts (config cb) <=? s then StateClosed else StateHalfOpen)
      0 s (lastFailureTime cb) (config cb)
  else
    mkCircuitBreaker StateClosed 0 (successes cb) (lastFailureTime cb) (config cb).

(** [RecordFailure], called at the instant [now]. *)
Definition RecordFailure (now : Time) (cb : CircuitBreaker) : CircuitBreaker :=
  let f := wrap64 (failures cb + 1) in
  if String.eqb (state cb) StateHalfOpen then
    mkCircuitBreaker StateOpen f (successes cb) now (config cb)
  else
    mkCircuitBreaker
      (if FailureThreshold (config cb) <=? f then StateOpen else state cb)
      f (successes cb) now (config cb).

(** A run of consecutive [RecordFailure] calls, one per instant of [ts]. *)
Definition RecordFailures (ts : list Time) (cb : CircuitBreaker) : CircuitBreaker :=
  foldl (fun cb now => RecordFailure now cb) cb ts.

(** *** models.go, events.Envelope *)

Record Envelope := mkEnvelope {
  Envelope_ID : string;
  Envelope_Type : string;
  Envelope_Source : string;
  Envelope_SessionID : string;
  Envelope_Timestamp : Time;
  Envelope_Data : string;
  Envelope_Metadata : gmap string string
}.

Record WebhookEndpoint := mkWebhookEndpoint {
  WebhookEndpoint_ID : string;
  Name : string;
  URL : string;
  Secret : string;
  EventTypes : list string;
  IsActive : bool
}.

Record DeadLetter := mkDeadLetter {
  WebhookID : string;
  EventID : string;
  EventType : string;
  Payload : string;
  LastError : string;
  Attempts : Z;
  Replayable : bool
}.

(** *** deliverer.go *)

Record DelivererConfig := mkDelivererConfig {
  MaxRetries : Z;
  TimeoutSec : Z;
  BackoffInitialSec : Z;
  BackoffMaxSec : Z;
  CBFailThreshold : Z;
  CBResetTimeoutSec : Z
}.

(** The worker pool of the deliverer, as far as [handleFailure] sees it:
    whether [Submit] takes the task or answers with an error. *)
Record WorkerPool := mkWorkerPool { Submit_accepts : bool }.

(** What one call of [handleFailure] leaves behind:
    - [DeadLetterCreated dl]: [d.repo.CreateDeadLetter] was called with [dl]
      (an error of the repository is logged and nothing else);
    - [RetrySubmitted delay attempt]: the pool took [retryFunc]; after
      [delay], unless the context is done first, [deliverWithRetry] runs
      with [attempt];
    - [RetryDropped]: the pool refused [retryFunc]; a warning, nothing else;
    - [RetryTimer delay attempt]: there is no pool; [time.AfterFunc] runs
      [deliverWithRetry] with [attempt] after [delay]. *)
Inductive FailureOutcome :=
| DeadLetterCreated (dl : DeadLetter)
| RetrySubmitted (delay : Duration) (attempt : Z)
| RetryDropped
| RetryTimer (delay : Duration) (attempt : Z).

Section HandleFailure.

(** [json.Marshal] on an envelope. *)
Variable json_Marshal : Envelope -> Result string.

(** [handleFailure]; [None] is the run-time panic of a negative shift
    count. *)
Definition handleFailure (cfg : DelivererConfig) (pool : option WorkerPool)
    (wh : WebhookEndpoint) (env : Envelope) (attempt : Z) (errMsg : string)
    : option FailureOutcome :=
  if MaxRetries cfg <=? attempt then
    let payload := match json_Marshal env with Ok b => b | Err _ => "" end in
    Some (DeadLetterCreated
            (mkDeadLetter (WebhookEndpoint_ID wh) (Envelope_ID env)
               (Envelope_Type env) payload errMsg attempt true))
  else
    match shl 1 (wrap64 (attempt - 1)) with
    | None => None
    | Some p =>
      let backoff := wrap64 (BackoffInitialSec cfg * p) in
      let backoff :=
        if BackoffMaxSec cfg <? backoff then BackoffMaxSec cfg else backoff in
      let delay := wrap64 (backoff * Second) in
      match pool with
      | Some pl =>
        if Submit_accepts pl
        then Some (RetrySubmitted delay (wrap64 (attempt + 1)))
        else Some RetryDropped
      | None => Some (RetryTimer delay (wrap64 (attempt + 1)))
      end
    end.

End HandleFailure.

(** Whether an outcome schedules a retry, and with what. *)
Definition scheduledRetry (o : FailureOutcome) : option (Duration * Z) :=
  match o with
  | RetrySubmitted d a | RetryTimer d a => Some (d, a)
  | DeadLetterCreated _ | RetryDropped => None
  end.

Definition createdDeadLetter (o : FailureOutcome) : option DeadLetter :=
  match o with
  | DeadLetterCreated dl => Some dl
  | _ => None
  end.

End Webhook.

(** ** pkg/dialog and the dialog RPC handler *)

Module Dialog.

(** *** types.go *)

Record Action := mkAction {
  Type' : string;
  Params : gmap string string
}.

Record Transition := mkTransition {
  Event : string;
  Condition : string;
  Target : string;
  Actions : list Action
}.

Record State := mkState {
  OnEnter : list Action;
  Transitions : list Transition;
  Timeout : string;
  TimeoutNext : string;
  Terminal : bool
}.

Record Dialog := mkDialog {
  Dialog_Name : string;
  Dialog_Version : string;
  Dialog_Description : string;
  Dialog_Variables : gmap string string;
  Dialog_InitialState : string;
  Dialog_States : gmap string State
}.

(** *** session.go *)

Definition DefaultMaxHistory : Z := 1000.

Record StateRecord := mkStateRecord {
  FromState : string;
  ToState : string;
  Trigger : string;
  Timestamp : Time
}.

(** The values stored in [LastEvent] and [LastResult] (Go [any]): nothing,
    a speech text, a DTMF rune. *)
Inductive any := anyNil | anyString (s : string) | anyRune (r : Z).

Record Session := mkSession {
  maxHistory : Z;
  ID : string;
  DialogName : string;
  CurrentState : string;
  Variables : gmap string string;
  History : list StateRecord;
  StartTime : Time;
  LastEvent : any;
  LastResult : gmap string any
}.

(** [NewSession], created at the instant [now]. *)
Definition NewSession (now : Time) (id dialogName initialState : string) : Session :=
  mkSession DefaultMaxHistory id dialogName initialState ∅ [] now anyNil ∅.

(** [RecordTransition] at the instant [now].  [s.History[evict:]] panics
    ([None]) when [evict] exceeds the length of the history. *)
Definition RecordTransition (now : Time) (from to trigger : string) (s : Session)
    : option Session :=
  let kept :=
    if maxHistory s <=? len (History s) then
      let evict := Z.quot (maxHistory s) 10 in
      let evict := if evict <? 1 then 1 else evict in
      if len (History s) <? evict then None
      else Some (drop (Z.to_nat evict) (History s))
    else Some (History s) in
  match kept with
  | None => None
  | Some h =>
    Some (mkSession (maxHistory s) (ID s) (DialogName s) to (Variables s)
            (h ++ [mkStateRecord from to trigger now])
            (StartTime s) (LastEvent s) (LastResult s))
  end.

Definition SetVariable (key value : string) (s : Session) : Session :=
  mkSession (maxHistory s) (ID s) (DialogName s) (CurrentState s)
    (<[key := value]> (Variables s)) (History s) (StartTime s)
    (LastEvent s) (LastResult s).

Definition GetCurrentState (s : Session) : string := CurrentState s.

Definition SetLastEvent (e : any) (s : Session) : Session :=
  mkSession (maxHistory s) (ID s) (DialogName s) (CurrentState s)
    (Variables s) (History s) (StartTime s) e (LastResult s).

Definition GetVariable (key : string) (s : Session) : string :=
  default "" (Variables s !! key).

Definition SetCurrentState (st : string) (s : Session) : Session :=
  mkSession (maxHistory s) (ID s) (DialogName s) st (Variables s) (History s)
    (StartTime s) (LastEvent s) (LastResult s).

Definition GetLastEvent (s : Session) : any := LastEvent s.

Definition SetLastResult (r : gmap string any) (s : Session) : Session :=
  mkSession (maxHistory s) (ID s) (DialogName s) (CurrentState s) (Variables s)
    (History s) (StartTime s) (LastEvent s) r.

(** The snapshots [CopyVariables] and [CopyHistory] return: values, which
    later changes of the session do not reach. *)
Definition CopyVariables (s : Session) : gmap string string := Variables s.

Definition CopyHistory (s : Session) : list StateRecord := History s.

(** *** template.go *)

Definition maxTemplateOutput : Z := 64 * 1024.

Definition byte (c : ascii) : Z := Z.of_N (Ascii.N_of_ascii c).

(** The ASCII white space of [strings.TrimSpace]: tab, line feed, vertical
    tab, form feed, carriage return, space. *)
Definition asciiSpace (c : ascii) : bool :=
  let n := byte c in
  (n =? 9) || (n =? 10) || (n =? 11) || (n =? 12) || (n =? 13) || (n =? 32).

(** The UTF-8 encodings of the other runes of [unicode.IsSpace]:
    U+0085 and U+00A0 on two bytes; U+1680, U+2000 to U+200A, U+2028,
    U+2029, U+202F, U+205F and U+3000 on three. *)
Definition space2 (c1 c2 : ascii) : bool :=
  (byte c1 =? 194) && ((byte c2 =? 133) || (byte c2 =? 160)).

Definition space3 (c1 c2 c3 : ascii) : bool :=
  ((byte c1 =? 225) && (byte c2 =? 154) && (byte c3 =? 128))
  || ((byte c1 =? 226) && (byte c2 =? 128)
      && (((128 <=? byte c3) && (byte c3 <=? 138))
          || (byte c3 =? 168) || (byte c3 =? 169) || (byte c3 =? 175)))
  || ((byte c1 =? 226) && (byte c2 =? 129) && (byte c3 =? 159))
  || ((byte c1 =? 227) && (byte c2 =? 128) && (byte c3 =? 128)).

(** Leading white space removed.  With [back] the bytes come last byte
    first, as when the string is read from its end. *)
Fixpoint trimLeft (back : bool) (s : list ascii) : list ascii :=
  match s with
  | [] => []
  | c1 :: r1 =>
    if asciiSpace c1 then trimLeft back r1 else
    match r1 with
    | [] => s
    | c2 :: r2 =>
      if (if back then space2 c2 c1 else space2 c1 c2) then trimLeft back r2 else
      match r2 with
      | [] => s
      | c3 :: r3 =>
        if (if back then space3 c3 c2 c1 else space3 c1 c2 c3)
        then trimLeft back r3 else s
      end
    end
  end.

(** [strings.TrimSpace]: all leading and trailing white space, as defined
    by Unicode, removed. *)
Definition TrimSpace (s : string) : string :=
  string_of_list_ascii
    (rev (trimLeft true (rev (trimLeft false (list_ascii_of_string s))))).

(** [limitWriter] over the [bytes.Buffer] that [renderTemplate] gives
    it: [lw_w] is the content of the buffer.  A [bytes.Buffer] takes every
    byte it is given and returns no error. *)
Record limitWriter := mkLimitWriter {
  lw_w : list Z;
  lw_n : Z;
  lw_written : Z
}.

(** [limitWriter.Write]: the count and the error it returns, and the
    writer afterwards.  [None]: [allowed] lies beyond the length of [p]
    and [p[:allowed]] is out of range. *)
Definition limitWriter_Write (p : list Z) (lw : limitWriter)
    : option ((Z * option error) * limitWriter) :=
  if lw_n lw <? wrap64 (lw_written lw + len p) then
    let allowed := wrap64 (lw_n lw - lw_written lw) in
    let over := Errorf "template output exceeds %d bytes" [ArgI (lw_n lw)] in
    if 0 <? allowed then
      if len p <? allowed then None
      else
        let q := take (Z.to_nat allowed) p in
        Some ((0, Some over),
              mkLimitWriter (lw_w lw ++ q) (lw_n lw) (wrap64 (lw_written lw + len q)))
    else Some ((0, Some over), lw)
  else
    Some ((len p, None),
          mkLimitWriter (lw_w lw ++ p) (lw_n lw) (wrap64 (lw_written lw + len p))).

Section Templates.

(** [text/template]: parsing the source and executing it on the context
    of a session, with no bound on the output. *)
Variable template_Execute : string -> Session -> Result string.

(** [renderTemplate]: the execution writes through a [limitWriter] that
    fails once more than [maxTemplateOutput] bytes have been written. *)
Definition renderTemplate (tmplStr : string) (session : Session) : Result string :=
  match template_Execute tmplStr session with
  | Err e => Err e
  | Ok out =>
    if maxTemplateOutput <? Z.of_nat (String.length out)
    then Err (Errorf "template output exceeds %d bytes" [ArgI maxTemplateOutput])
    else Ok out
  end.

Definition EvalCondition (condition : string) (session : Session) : Result bool :=
  if String.eqb condition "" then Ok true
  else
    match renderTemplate condition session with
    | Err e => Err e
    | Ok result =>
      let result := TrimSpace result in
      Ok (negb (String.eqb result "") && negb (String.eqb result "false")
          && negb (String.eqb result "<no value>"))
    end.

(** *** fsm.go *)

(** The loop of [EvaluateTransitions] over [state.Transitions]. *)
Fixpoint evaluateLoop (ts : list Transition) (event : string) (session : Session)
    : Result (string * list Action) :=
  match ts with
  | [] => Ok ("", [])
  | t :: rest =>
    if negb (String.eqb (Event t) event) then evaluateLoop rest event session
    else
      match EvalCondition (Condition t) session with
      | Err e => Err (ErrorfW "eval condition %q: %w" [ArgS (Condition t)] e)
      | Ok true => Ok (Target t, Actions t)
      | Ok false => evaluateLoop rest event session
      end
  end.

Definition EvaluateTransitions (state : State) (event : string) (session : Session)
    : Result (string * list Action) :=
  evaluateLoop (Transitions state) event session.

End Templates.

Record StateMachine := mkStateMachine { dialog : Dialog }.

Definition NewStateMachine (d : Dialog) : StateMachine := mkStateMachine d.

Definition GetState (sm : StateMachine) (name : string) : option State :=
  Dialog_States (dialog sm) !! name.

Definition InitialState (sm : StateMachine) : string :=
  Dialog_InitialState (dialog sm).

(** [Validate]: the loop over the transitions of the state [name], from
    the index [i]; [None] is the nil error. *)
Fixpoint validateTransitions (d : Dialog) (name : string) (i : Z)
    (ts : list Transition) : option error :=
  match ts with
  | [] => None
  | t :: rest =>
    if String.eqb (Target t) "" then
      Some (Errorf "dialog %q state %q transition %d: target is required"
              [ArgS (Dialog_Name d); ArgS name; ArgI i])
    else
      match Dialog_States d !! Target t with
      | None =>
        Some (Errorf "dialog %q state %q transition %d: target %q not found"
                [ArgS (Dialog_Name d); ArgS name; ArgI i; ArgS (Target t)])
      | Some _ => validateTransitions d name (i + 1) rest
      end
  end.

(** The body of the loop over the states. *)
Definition validateState (d : Dialog) (name : string) (state : State) : option error :=
  match validateTransitions d name 0 (Transitions state) with
  | Some e => Some e
  | None =>
    if negb (String.eqb (TimeoutNext state) "") then
      match Dialog_States d !! TimeoutNext state with
      | None =>
        Some (Errorf "dialog %q state %q: timeout_next %q not found"
                [ArgS (Dialog_Name d); ArgS name; ArgS (TimeoutNext state)])
      | Some _ => None
      end
    else None
  end.

Fixpoint validateStates (d : Dialog) (l : list (string * State)) : option error :=
  match l with
  | [] => None
  | kv :: rest =>
    match validateState d kv.1 kv.2 with
    | Some e => Some e
    | None => validateStates d rest
    end
  end.

(** [Validate].  The states are visited in the order of [map_to_list]; Go
    leaves the order open, and with it which error is returned when several
    states are at fault. *)
Definition Validate (sm : StateMachine) : option error :=
  let d := dialog sm in
  if String.eqb (Dialog_InitialState d) "" then
    Some (Errorf "dialog %q: initial_state is required" [ArgS (Dialog_Name d)])
  else
    match Dialog_States d !! Dialog_InitialState d with
    | None =>
      Some (Errorf "dialog %q: initial_state %q not found in states"
              [ArgS (Dialog_Name d); ArgS (Dialog_InitialState d)])
    | Some _ => validateStates d (map_to_list (Dialog_States d))
    end.

End Dialog.

(** ** internal/dialog/handler *)

Module Handler.
Import Dialog.

Record ASRResult := mkASRResult { Text : string; IsFinal : bool }.

Record actionResult := mkActionResult {
  actions : list Action;
  newState : string;
  terminal : bool;
  err : option error
}.

(** An active session: the session, its state machine, the contents of
    its three buffered channels and whether its context is cancelled.  The
    store maps a session id to the value of the session it points to; the
    loop of a session replaced in the store keeps running on an object the
    store no longer reaches. *)
Record activeSession := mkActiveSession {
  session : Session;
  sm : StateMachine;
  speechCh : list ASRResult;
  dtmfCh : list Z;
  resultCh : list actionResult;
  cancelled : bool
}.

Record StartDialogRequest := mkStartDialogRequest {
  Req_SessionId : string;
  Req_DialogName : string;
  Req_InitialState : string;
  Req_Variables : gmap string string
}.

Record ActionDirective := mkActionDirective {
  Directive_Type : string;
  Directive_Params : gmap string string
}.

Record StartDialogResponse := mkStartDialogResponse {
  Resp_SessionId : string;
  Resp_CurrentState : string;
  Resp_Actions : list ActionDirective
}.

Definition actionsToDirectives (acts : list Action) : list ActionDirective :=
  map (fun a => mkActionDirective (Type' a) (Params a)) acts.

(** The session [StartDialog] builds: [NewSession], then one [SetVariable]
    per variable of the request. *)
Definition startSession (now : Time) (req : StartDialogRequest) (initialState : string)
    : Session :=
  map_fold (fun k v s => SetVariable k v s)
    (NewSession now (Req_SessionId req) (Req_DialogName req) initialState)
    (Req_Variables req).

(** [StartDialog] at the instant [now], on the dialogs of the loader and the
    session store: the answer and the store afterwards. *)
Definition StartDialog (now : Time) (loader : gmap string StateMachine)
    (req : StartDialogRequest) (store : gmap string activeSession)
    : Result StartDialogResponse * gmap string activeSession :=
  let dialogName := Req_DialogName req in
  match loader !! dialogName with
  | None =>
    (Err (ConnectError CodeNotFound
            (Errorf "dialog %q not found" [ArgS dialogName])), store)
  | Some sm =>
    let initialState :=
      if String.eqb (Req_InitialState req) "" then InitialState sm
      else Req_InitialState req in
    let session := startSession now req initialState in
    match GetState sm initialState with
    | None =>
      (Err (ConnectError CodeNotFound
              (Errorf "state %q not found in dialog %q"
                 [ArgS initialState; ArgS dialogName])), store)
    | Some state =>
      let as' := mkActiveSession session sm [] [] [] false in
      (Ok (mkStartDialogResponse (ID session) initialState
             (actionsToDirectives (OnEnter state))),
       <[ID session := as']> store)
    end
  end.

(** [EndDialog] on the store: the session is removed and cancelled. *)
Definition EndDialog (id : string) (store : gmap string activeSession)
    : Result unit * gmap string activeSession :=
  match store !! id with
  | None =>
    (Err (ConnectError CodeNotFound (Errorf "session %q not found" [ArgS id])), store)
  | Some _ => (Ok tt, delete id store)
  end.

Definition sessionTTL : Duration := 30 * 60 * Second.

(** [reapStaleSessions] at the instant [now]. *)
Definition reapStaleSessions (now : Time) (store : gmap string activeSession)
    : gmap string activeSession :=
  filter (fun kv => ¬ (sessionTTL < Sub now (StartTime (session kv.2)))) store.

(** The records of the history, as the response of [GetSession] carries
    them. *)
Record StateRecordMsg := mkStateRecordMsg {
  Msg_FromState : string;
  Msg_ToState : string;
  Msg_Trigger : string;
  Msg_Timestamp : string
}.

Record GetSessionResponse := mkGetSessionResponse {
  Got_SessionId : string;
  Got_DialogName : string;
  Got_CurrentState : string;
  Got_Variables : gmap string string;
  Got_History : list StateRecordMsg
}.

Section GetSession.

(** [t.Format(time.RFC3339)]. *)
Variable Format_RFC3339 : Time -> string.

Definition GetSession (id : string) (store : gmap string activeSession)
    : Result GetSessionResponse :=
  match store !! id with
  | None => Err (ConnectError CodeNotFound (Errorf "session %q not found" [ArgS id]))
  | Some as' =>
    let history := CopyHistory (session as') in
    Ok (mkGetSessionResponse (ID (session as')) (DialogName (session as'))
          (GetCurrentState (session as')) (CopyVariables (session as'))
          (map (fun r => mkStateRecordMsg (FromState r) (ToState r) (Trigger r)
                           (Format_RFC3339 (Timestamp r))) history))
  end.

End GetSession.

(** *** runDialogLoop *)

(** The case the [select] of one turn of [runDialogLoop] takes: the
    context is done; a receive on [speechCh] or on [dtmfCh], with [None]
    for a closed channel; the timer of the state fires. *)
Inductive selected :=
| ctxIsDone
| speechReceived (r : option ASRResult)
| dtmfReceived (d : option Z)
| timedOut.

Section DialogLoop.

Variable template_Execute : string -> Session -> Result string.

(** [as.resultCh <- r]: the result joins the queue of the channel.  A send
    that finds the buffer full waits for a receiver; a run that waits for
    ever is a prefix of the run taken here. *)
Definition send (r : actionResult) (as' : activeSession) : activeSession :=
  mkActiveSession (session as') (sm as') (speechCh as') (dtmfCh as')
    (resultCh as' ++ [r]) (cancelled as').

Definition withSession (s : Session) (as' : activeSession) : activeSession :=
  mkActiveSession s (sm as') (speechCh as') (dtmfCh as') (resultCh as')
    (cancelled as').

(** The branches of a speech and of a DTMF event, which differ by the name
    of the event, by the value stored as last event and by the trigger
    recorded: the active session afterwards and whether the loop goes on.
    [None] is the panic of [RecordTransition]. *)
Definition onEvent (now : Time) (state : State) (event : string) (value : any)
    (trigger : string) (as' : activeSession) : option (activeSession * bool) :=
  let as1 := withSession (SetLastEvent value (session as')) as' in
  match EvaluateTransitions template_Execute state event (session as1) with
  | Err e => Some (send (mkActionResult [] "" false (Some e)) as1, false)
  | Ok (nextState, actions) =>
    if negb (String.eqb nextState "") then
      match RecordTransition now (GetCurrentState (session as1)) nextState trigger
              (session as1) with
      | None => None
      | Some s2 =>
        let as2 := withSession s2 as1 in
        match GetState (sm as2) nextState with
        | None =>
          Some (send (mkActionResult [] "" false
                        (Some (Errorf "state %q not found" [ArgS nextState]))) as2,
                false)
        | Some newState =>
          Some (send (mkActionResult (actions ++ OnEnter newState) nextState
                        (Terminal newState) None) as2,
                true)
        end
      end
    else
      Some (send (mkActionResult [] (GetCurrentState (session as1)) false None) as1,
            true)
  end.

(** One turn of the loop of [runDialogLoop], when its [select] takes the
    case [sel] at the instant [now]. *)
Definition loopTurn (now : Time) (sel : selected) (as' : activeSession)
    : option (activeSession * bool) :=
  let currentState := GetCurrentState (session as') in
  match GetState (sm as') currentState with
  | None => Some (send (mkActionResult [] currentState true None) as', false)
  | Some state =>
    if Terminal state
    then Some (send (mkActionResult [] currentState true None) as', false)
    else
      match sel with
      | ctxIsDone => Some (as', false)
      | speechReceived None => Some (as', false)
      | speechReceived (Some result) =>
        onEvent now state "speech" (anyString (Text result)) (Text result) as'
      | dtmfReceived None => Some (as', false)
      | dtmfReceived (Some digit) =>
        onEvent now state "dtmf" (anyRune digit) (string_of_rune digit) as'
      | timedOut =>
        if negb (String.eqb (TimeoutNext state) "") then
          match RecordTransition now (GetCurrentState (session as'))
                  (TimeoutNext state) "timeout" (session as') with
          | None => None
          | Some s2 =>
            let as2 := withSession s2 as' in
            match GetState (sm as2) (TimeoutNext state) with
            | None => Some (as2, true)
            | Some newState =>
              Some (send (mkActionResult (OnEnter newState) (TimeoutNext state)
                            (Terminal newState) None) as2,
                    true)
            end
          end
        else Some (as', true)
      end
  end.

(** [runDialogLoop] over the cases its [select] takes, one per turn, each
    with the instant it is taken at: the active session afterwards and
    whether the loop is still running. *)
Fixpoint runDialogLoop (turns : list (Time * selected)) (as' : activeSession)
    : option (activeSession * bool) :=
  match turns with
  | [] => Some (as', true)
  | (now, sel) :: rest =>
    match loopTurn now sel as' with
    | None => None
    | Some (as1, true) => runDialogLoop rest as1
    | Some (as1, false) => Some (as1, false)
    end
  end.

End DialogLoop.

End Handler.

(** ** internal/media/sfu *)

Module Sfu.

(** *** encryption.go *)

Record EncryptionInfo := mkEncryptionInfo {
  Algorithm : string;
  KeyID : Z;
  SenderKey : list Z
}.

(** [ValidateE2EERoom]; [None] is the nil error. *)
Definition ValidateE2EERoom (roomRequired : bool) (peerEnc : option EncryptionInfo)
    : option error :=
  match peerEnc with
  | None =>
    if roomRequired
    then Some (Errorf "room requires E2EE but peer has no encryption info" [])
    else None
  | Some enc =>
    if roomRequired && String.eqb (Algorithm enc) ""
    then Some (Errorf "room requires E2EE but peer has no encryption algorithm" [])
    else None
  end.

(** *** forwarder.go: quality levels *)

Definition VideoQualityLevel := Z.
Definition QualityLow : VideoQualityLevel := 1.
Definition QualityMedium : VideoQualityLevel := 2.
Definition QualityHigh : VideoQualityLevel := 3.

Definition qualityToRID (q : VideoQualityLevel) : string :=
  if q =? QualityLow then "q"
  else if q =? QualityMedium then "h"
  else if q =? QualityHigh then "f"
  else "".

(** *** track.go, peer.go, subscription.go, publisher_track.go: the data *)

Inductive RTPCodecType :=
| RTPCodecTypeUnknown | RTPCodecTypeAudio | RTPCodecTypeVideo.

#[global] Instance RTPCodecType_eq_dec : EqDecision RTPCodecType.
Proof. solve_decision. Defined.

(** A remote track of the media transport, by what the SFU reads of it. *)
Record TrackRemote := mkTrackRemote {
  Remote_ID : string;
  Remote_StreamID : string;
  Remote_RID : string;
  Remote_Kind : RTPCodecType;
  Remote_MimeType : string
}.

Record DownTrack := mkDownTrack {
  sourceID : string;
  trackID : string;
  DownTrack_rid : string;
  muted : bool
}.

Record PeerConfig := mkPeerConfig {
  PublishAudio : bool;
  PublishVideo : bool;
  Simulcast : bool;
  Encryption : option EncryptionInfo;
  AutoSubscribeAudio : bool
}.

Definition DefaultPeerConfig : PeerConfig :=
  mkPeerConfig true false false None true.

(** A peer.  The peer connection and the contexts belong to the transport
    and are left out. *)
Record Peer := mkPeer {
  Peer_id : string;
  Peer_metadata : gmap string string;
  downTracks : gmap string DownTrack;
  Peer_state : string;
  peerConfig : PeerConfig;
  encryption : option EncryptionInfo
}.

(** The peer [NewPeer] returns when the transport creates its connection. *)
Definition NewPeer (id : string) (metadata : gmap string string) (pcfg : PeerConfig) : Peer :=
  mkPeer id metadata ∅ "connecting" pcfg (Encryption pcfg).

(** A subscription; it names its publisher track and its subscriber by
    their ids.  The random subscription id and the context are left out. *)
Record Subscription := mkSubscription {
  Sub_trackID : string;
  Sub_subscriber : string;
  downTrack : option DownTrack;
  currentQuality : VideoQualityLevel;
  maxTemporalLayer : Z;
  maxSpatialLayer : Z;
  paused : bool
}.

Record trackLayer := mkTrackLayer {
  rid : string;
  remote : option TrackRemote
}.

(** A publisher track; [publisher] is the id of the owning peer. *)
Record PublisherTrack := mkPublisherTrack {
  Track_id : string;
  publisher : string;
  kind : RTPCodecType;
  mimeType : string;
  simulcast : bool;
  svc : bool;
  layers : gmap string trackLayer;
  subscribers : gmap string Subscription
}.

(** The media transport under the SFU: which layer a [range] over the
    layers of a track meets first, and the errors of creating a local
    track and of adding it to the connection of a peer ([None]: no
    error).  The answers depend on the track and on the peer, not on the
    order in which the SFU asks. *)
Record Transport := mkTransport {
  firstLayer : gmap string trackLayer -> option trackLayer;
  NewTrackLocalStaticRTP : TrackRemote -> string -> option error;
  pc_AddTrack : string -> DownTrack -> option error
}.

Definition NewDownTrack (tr : Transport) (src : TrackRemote) (publisherPeerID : string)
    : Result DownTrack :=
  match NewTrackLocalStaticRTP tr src "" with
  | Some e => Err e
  | None => Ok (mkDownTrack publisherPeerID (Remote_ID src) "" false)
  end.

Definition NewSimulcastDownTrack (tr : Transport) (src : TrackRemote)
    (publisherPeerID rid : string) : Result DownTrack :=
  match NewTrackLocalStaticRTP tr src rid with
  | Some e => Err e
  | None => Ok (mkDownTrack publisherPeerID (Remote_ID src) rid false)
  end.

Definition AddDownTrack (tr : Transport) (dt : DownTrack) (p : Peer) : Result Peer :=
  match pc_AddTrack tr (Peer_id p) dt with
  | Some e => Err (ErrorfW "add track to peer: %w" [] e)
  | None =>
    Ok (mkPeer (Peer_id p) (Peer_metadata p) (<[trackID dt := dt]> (downTracks p))
          (Peer_state p) (peerConfig p) (encryption p))
  end.

Definition NewSubscription (pt : PublisherTrack) (subscriber : Peer) (dt : DownTrack)
    (quality : VideoQualityLevel) (maxTemporal maxSpatial : Z) : Subscription :=
  let quality := if quality =? 0 then QualityHigh else quality in
  mkSubscription (Track_id pt) (Peer_id subscriber) (Some dt) quality
    maxTemporal maxSpatial false.

Definition ErrNoLayersAvailable : error := SFUError "no layers available for track".
Definition ErrSubscriptionNotFound : error := SFUError "subscription not found".

(** [PublisherTrack.Subscribe]: the subscription, the track and the
    subscriber afterwards.  On an error nothing has changed. *)
Definition Subscribe (tr : Transport) (pt : PublisherTrack) (subscriber : Peer)
    (quality : VideoQualityLevel) (maxTemporal maxSpatial : Z)
    : Result (Subscription * PublisherTrack * Peer) :=
  let byQuality :=
    if simulcast pt then
      match layers pt !! qualityToRID quality with
      | Some layer => remote layer
      | None => None
      end
    else None in
  let sourceRemote :=
    match byQuality with
    | Some r => Some r
    | None =>
      match firstLayer tr (layers pt) with
      | Some layer => remote layer
      | None => None
      end
    end in
  match sourceRemote with
  | None => Err ErrNoLayersAvailable
  | Some src =>
    let made :=
      if simulcast pt
      then NewSimulcastDownTrack tr src (publisher pt) (qualityToRID quality)
      else NewDownTrack tr src (publisher pt) in
    match made with
    | Err e => Err e
    | Ok dt =>
      match AddDownTrack tr dt subscriber with
      | Err e => Err e
      | Ok subscriber' =>
        let sub := NewSubscription pt subscriber dt quality maxTemporal maxSpatial in
        Ok (sub,
            mkPublisherTrack (Track_id pt) (publisher pt) (kind pt) (mimeType pt)
              (simulcast pt) (svc pt) (layers pt)
              (<[Peer_id subscriber := sub]> (subscribers pt)),
            subscriber')
      end
    end
  end.

Definition Unsubscribe (subscriberPeerID : string) (pt : PublisherTrack) : PublisherTrack :=
  mkPublisherTrack (Track_id pt) (publisher pt) (kind pt) (mimeType pt)
    (simulcast pt) (svc pt) (layers pt) (delete subscriberPeerID (subscribers pt)).

Definition NewPublisherTrack (publisher : Peer) (r : TrackRemote) : PublisherTrack :=
  let kind :=
    if bool_decide (Remote_Kind r = RTPCodecTypeVideo)
    then RTPCodecTypeVideo else RTPCodecTypeAudio in
  let rid := Remote_RID r in
  mkPublisherTrack (Remote_ID r) (Peer_id publisher) kind (Remote_MimeType r)
    (negb (String.eqb rid "")) false {[rid := mkTrackLayer rid (Some r)]} ∅.

Definition AddLayer (r : TrackRemote) (pt : PublisherTrack) : PublisherTrack :=
  mkPublisherTrack (Track_id pt) (publisher pt) (kind pt) (mimeType pt)
    true (svc pt)
    (<[Remote_RID r := mkTrackLayer (Remote_RID r) (Some r)]> (layers pt))
    (subscribers pt).

(** *** forwarder.go *)

Record pliDebouncer := mkPliDebouncer {
  lastPLI : Time;
  interval : Duration
}.

Definition newPLIDebouncer (interval : Duration) : pliDebouncer :=
  mkPliDebouncer zeroTime interval.

(** [shouldSendPLI] when [time.Now()] reads [now]: the answer and the
    debouncer afterwards. *)
Definition shouldSendPLI (now : Time) (d : pliDebouncer) : bool * pliDebouncer :=
  if Sub now (lastPLI d) <? interval d then (false, d)
  else (true, mkPliDebouncer now (interval d)).

(** [DownTrack.Write]: the bytes reach the local track unless the down
    track is muted. *)
Definition Write (dt : DownTrack) (data : list Z) : list (list Z) :=
  if muted dt then [] else [data].

(** What [remote.Read] gives in one turn of a forwarder. *)
Inductive ReadResult :=
| ReadPacket (pkt : list Z)
| ReadError.

(** One turn of a forwarder loop: whether the context is done, what the
    read gives, and the subscription as read under its lock in that
    turn. *)
Record Turn := mkTurn {
  ctxDone : bool;
  readResult : ReadResult;
  subNow : Subscription
}.

Definition isVP9 (rem : TrackRemote) : bool :=
  String.eqb (Remote_MimeType rem) "video/VP9"
  || String.eqb (Remote_MimeType rem) "video/vp9".

Section SVCForwarder.

(** [rtp.Packet.Unmarshal]: the payload of a packet that parses. *)
Variable rtp_Unmarshal : list Z -> option (list Z).

(** [codecs.VP9Packet.Unmarshal]: the spatial and the temporal id (two
    [uint8]) of a payload that parses. *)
Variable vp9_Unmarshal : list Z -> option (Z * Z).

(** Whether the layer filter lets a packet pass. *)
Definition svcPass (vp9 : bool) (maxSpatial maxTemporal : Z) (pkt : list Z) : bool :=
  if vp9 && ((0 <=? maxSpatial) || (0 <=? maxTemporal)) then
    match rtp_Unmarshal pkt with
    | None => false
    | Some payload =>
      match vp9_Unmarshal payload with
      | None => true
      | Some (sid, tid) =>
        if (0 <=? maxSpatial) && (maxSpatial <? sid) then false
        else if (0 <=? maxTemporal) && (maxTemporal <? tid) then false
        else true
      end
    end
  else true.

(** What one turn writes to the local track of the subscription. *)
Definition svcTurn (vp9 : bool) (sub : Subscription) (pkt : list Z) : list (list Z) :=
  match downTrack sub with
  | None => []
  | Some dt =>
    if paused sub then []
    else if svcPass vp9 (maxSpatialLayer sub) (maxTemporalLayer sub) pkt
    then Write dt pkt
    else []
  end.

(** The loop of [RunSVCForwarder] over its turns: the packets written
    downstream, in order.  The loop ends when the context is done or a
    read fails. *)
Fixpoint svcLoop (vp9 : bool) (turns : list Turn) : list (list Z) :=
  match turns with
  | [] => []
  | t :: rest =>
    if ctxDone t then []
    else
      match readResult t with
      | ReadError => []
      | ReadPacket pkt => svcTurn vp9 (subNow t) pkt ++ svcLoop vp9 rest
      end
  end.

Definition RunSVCForwarder (rem : TrackRemote) (turns : list Turn) : list (list Z) :=
  svcLoop (isVP9 rem) turns.

End SVCForwarder.

(** *** room.go *)

Record RoomOptions := mkRoomOptions {
  Opt_MaxPublishers : Z;
  Opt_AutoSubscribeAudio : bool;
  Opt_E2EERequired : bool
}.

(** A room.  [detectorStarts] counts the calls of [speakerDetector.Start];
    the audio taps are callbacks and are kept by their ids. *)
Record Room := mkRoom {
  Room_id : string;
  peers : gmap string Peer;
  maxPeers : Z;
  maxPublishers : Z;
  Room_metadata : gmap string string;
  closed : bool;
  audioTaps : gset string;
  publisherTracks : gmap string PublisherTrack;
  detectorStarts : nat;
  autoSubscribeAudio : bool;
  e2eeRequired : bool
}.

Definition NewRoom (id : string) (maxPeers : Z) (metadata : gmap string string)
    (opts : RoomOptions) : Room :=
  let maxPeers := if maxPeers <=? 0 then 1000 else maxPeers in
  let maxPublishers :=
    if Opt_MaxPublishers opts <=? 0 then 100 else Opt_MaxPublishers opts in
  mkRoom id ∅ maxPeers maxPublishers metadata false ∅ ∅ 0
    (Opt_AutoSubscribeAudio opts) (Opt_E2EERequired opts).

Definition PeerCount (r : Room) : Z := Z.of_nat (size (peers r)).

(** One turn of the auto-subscribe loop of [AddPeer], at the track [kv]:
    the tracks of the room and the new peer afterwards. *)
Definition autoSubscribe (tr : Transport)
    (st : gmap string PublisherTrack * Peer) (kv : string * PublisherTrack)
    : gmap string PublisherTrack * Peer :=
  let pt := kv.2 in
  if bool_decide (kind pt = RTPCodecTypeAudio)
     && negb (String.eqb (publisher pt) (Peer_id st.2))
  then
    match Subscribe tr pt st.2 QualityHigh (-1) (-1) with
    | Ok (_, pt', p') => (<[kv.1 := pt']> st.1, p')
    | Err _ => st
    end
  else st.

(** [AddPeer]: the ids of the available publisher tracks or the error, and
    the room afterwards.  The tracks are visited in the order of
    [map_to_list]; Go leaves the order open. *)
Definition AddPeer (tr : Transport) (p : Peer) (r : Room) : Result (list string) * Room :=
  if closed r then
    (Err (Errorf "room %q is closed" [ArgS (Room_id r)]), r)
  else if maxPeers r <=? PeerCount r then
    (Err (Errorf "room %q is full (%d/%d peers)"
            [ArgS (Room_id r); ArgI (PeerCount r); ArgI (maxPeers r)]), r)
  else
    match (if e2eeRequired r then ValidateE2EERoom true (encryption p) else None) with
    | Some e => (Err e, r)
    | None =>
      let peers1 := <[Peer_id p := p]> (peers r) in
      let starts :=
        if (size peers1 =? 1)%nat then S (detectorStarts r) else detectorStarts r in
      let available := (map_to_list (publisherTracks r)).*1 in
      let st :=
        if autoSubscribeAudio r && AutoSubscribeAudio (peerConfig p)
        then foldl (autoSubscribe tr) (publisherTracks r, p)
               (map_to_list (publisherTracks r))
        else (publisherTracks r, p) in
      (Ok available,
       mkRoom (Room_id r) (<[Peer_id p := st.2]> peers1) (maxPeers r)
         (maxPublishers r) (Room_metadata r) (closed r) (audioTaps r) st.1
         starts (autoSubscribeAudio r) (e2eeRequired r))
    end.

(** [RemovePeer]: the peer leaves, its subscriptions and the tracks it
    publishes are removed. *)
Definition RemovePeer (peerID : string) (r : Room) : Room :=
  match peers r !! peerID with
  | None => r
  | Some _ =>
    let tracks1 := Unsubscribe peerID <$> publisherTracks r in
    let tracks2 :=
      filter (fun kv => publisher kv.2 ≠ peerID) tracks1 in
    mkRoom (Room_id r) (delete peerID (peers r)) (maxPeers r)
      (maxPublishers r) (Room_metadata r) (closed r) (audioTaps r) tracks2
      (detectorStarts r) (autoSubscribeAudio r) (e2eeRequired r)
  end.

Definition Close (r : Room) : Room :=
  if closed r then r
  else
    mkRoom (Room_id r) ∅ (maxPeers r) (maxPublishers r) (Room_metadata r)
      true ∅ ∅ (detectorStarts r) (autoSubscribeAudio r) (e2eeRequired r).

(** One turn of the auto-subscribe loop of [RegisterPublisherTrack], at
    the peer [kv]: the new track and the peers afterwards. *)
Definition autoSubscribePeer (tr : Transport) (publisherID : string)
    (st : PublisherTrack * gmap string Peer) (kv : string * Peer)
    : PublisherTrack * gmap string Peer :=
  let peer := kv.2 in
  if String.eqb (Peer_id peer) publisherID then st
  else if negb (AutoSubscribeAudio (peerConfig peer)) then st
  else
    match Subscribe tr st.1 peer QualityHigh (-1) (-1) with
    | Ok (_, pt', peer') => (pt', <[kv.1 := peer']> st.2)
    | Err _ => st
    end.

(** [RegisterPublisherTrack]: the id of the track and the room afterwards. *)
Definition RegisterPublisherTrack (tr : Transport) (publisher : Peer)
    (rem : TrackRemote) (r : Room) : string * Room :=
  let trackID := Remote_ID rem in
  let layerOf :=
    match publisherTracks r !! trackID with
    | Some existing =>
      if negb (String.eqb (Remote_RID rem) "") then Some existing else None
    | None => None
    end in
  match layerOf with
  | Some existing =>
    (trackID,
     mkRoom (Room_id r) (peers r) (maxPeers r) (maxPublishers r)
       (Room_metadata r) (closed r) (audioTaps r)
       (<[trackID := AddLayer rem existing]> (publisherTracks r))
       (detectorStarts r) (autoSubscribeAudio r) (e2eeRequired r))
  | None =>
    let pt := NewPublisherTrack publisher rem in
    let st :=
      if autoSubscribeAudio r && bool_decide (kind pt = RTPCodecTypeAudio)
      then foldl (autoSubscribePeer tr (Peer_id publisher)) (pt, peers r)
             (map_to_list (peers r))
      else (pt, peers r) in
    (trackID,
     mkRoom (Room_id r) st.2 (maxPeers r) (maxPublishers r)
       (Room_metadata r) (closed r) (audioTaps r)
       (<[trackID := st.1]> (publisherTracks r))
       (detectorStarts r) (autoSubscribeAudio r) (e2eeRequired r))
  end.

(** *** forwarder.go, subscription.go, publisher_track.go, room.go:
    further methods *)

Definition ridToQuality (rid : string) : VideoQualityLevel :=
  if String.eqb rid "q" then QualityLow
  else if String.eqb rid "h" then QualityMedium
  else if String.eqb rid "f" then QualityHigh
  else QualityHigh.

(** What one turn of [RunSimpleForwarder] writes to the local track. *)
Definition simpleTurn (sub : Subscription) (pkt : list Z) : list (list Z) :=
  match downTrack sub with
  | None => []
  | Some dt => if paused sub then [] else Write dt pkt
  end.

(** The loop of [RunSimpleForwarder] over its turns: the packets written
    downstream, in order. *)
Fixpoint simpleLoop (turns : list Turn) : list (list Z) :=
  match turns with
  | [] => []
  | t :: rest =>
    if ctxDone t then []
    else
      match readResult t with
      | ReadError => []
      | ReadPacket pkt => simpleTurn (subNow t) pkt ++ simpleLoop rest
      end
  end.

Definition RunSimpleForwarder (turns : list Turn) : list (list Z) := simpleLoop turns.

Definition SwitchLayer (quality : VideoQualityLevel) (s : Subscription) : Subscription :=
  mkSubscription (Sub_trackID s) (Sub_subscriber s) (downTrack s) quality
    (maxTemporalLayer s) (maxSpatialLayer s) (paused s).

Definition SetSVCFilter (maxTemporal maxSpatial : Z) (s : Subscription) : Subscription :=
  mkSubscription (Sub_trackID s) (Sub_subscriber s) (downTrack s) (currentQuality s)
    maxTemporal maxSpatial (paused s).

Definition Pause (s : Subscription) : Subscription :=
  mkSubscription (Sub_trackID s) (Sub_subscriber s) (downTrack s) (currentQuality s)
    (maxTemporalLayer s) (maxSpatialLayer s) true.

Definition Resume (s : Subscription) : Subscription :=
  mkSubscription (Sub_trackID s) (Sub_subscriber s) (downTrack s) (currentQuality s)
    (maxTemporalLayer s) (maxSpatialLayer s) false.

Definition IsPaused (s : Subscription) : bool := paused s.

(** [PublisherTrack.UpdateSubscription]: the error, and the track
    afterwards. *)
Definition UpdateSubscription (subscriberPeerID : string) (quality : VideoQualityLevel)
    (maxTemporal maxSpatial : Z) (paused : bool) (pt : PublisherTrack)
    : option error * PublisherTrack :=
  match subscribers pt !! subscriberPeerID with
  | None => (Some ErrSubscriptionNotFound, pt)
  | Some sub =>
    (None,
     mkPublisherTrack (Track_id pt) (publisher pt) (kind pt) (mimeType pt)
       (simulcast pt) (svc pt) (layers pt)
       (<[subscriberPeerID :=
            mkSubscription (Sub_trackID sub) (Sub_subscriber sub) (downTrack sub)
              quality maxTemporal maxSpatial paused]> (subscribers pt)))
  end.

Definition GetSubscription (subscriberPeerID : string) (pt : PublisherTrack)
    : option Subscription :=
  subscribers pt !! subscriberPeerID.

Definition withTracks (tracks : gmap string PublisherTrack) (r : Room) : Room :=
  mkRoom (Room_id r) (peers r) (maxPeers r) (maxPublishers r) (Room_metadata r)
    (closed r) (audioTaps r) tracks (detectorStarts r) (autoSubscribeAudio r)
    (e2eeRequired r).

Definition withPeers (ps : gmap string Peer) (r : Room) : Room :=
  mkRoom (Room_id r) ps (maxPeers r) (maxPublishers r) (Room_metadata r)
    (closed r) (audioTaps r) (publisherTracks r) (detectorStarts r)
    (autoSubscribeAudio r) (e2eeRequired r).

(** [Room.Subscribe]: the subscription or the error, and the room
    afterwards. *)
Definition Room_Subscribe (tr : Transport) (subscriberPeerID trackID : string)
    (quality : VideoQualityLevel) (maxTemporal maxSpatial : Z) (r : Room)
    : Result Subscription * Room :=
  match publisherTracks r !! trackID with
  | None => (Err (Errorf "track %q not found" [ArgS trackID]), r)
  | Some pt =>
    match peers r !! subscriberPeerID with
    | None => (Err (Errorf "peer %q not found" [ArgS subscriberPeerID]), r)
    | Some peer =>
      match Subscribe tr pt peer quality maxTemporal maxSpatial with
      | Err e => (Err e, r)
      | Ok (sub, pt', peer') =>
        (Ok sub,
         withTracks (<[trackID := pt']> (publisherTracks r))
           (withPeers (<[subscriberPeerID := peer']> (peers r)) r))
      end
    end
  end.

(** [Room.UpdateSubscription]: the error, and the room afterwards. *)
Definition Room_UpdateSubscription (subscriberPeerID trackID : string)
    (quality : VideoQualityLevel) (maxTemporal maxSpatial : Z) (paused : bool)
    (r : Room) : option error * Room :=
  match publisherTracks r !! trackID with
  | None => (Some (Errorf "track %q not found" [ArgS trackID]), r)
  | Some pt =>
    let '(e, pt') :=
      UpdateSubscription subscriberPeerID quality maxTemporal maxSpatial paused pt in
    (e, withTracks (<[trackID := pt']> (publisherTracks r)) r)
  end.

Definition GetPeer (peerID : string) (r : Room) : option Peer := peers r !! peerID.

Definition IsClosed (r : Room) : bool := closed r.

(** [PublisherCount]: the number of distinct publishers of the tracks. *)
Definition PublisherCount (r : Room) : Z :=
  Z.of_nat (size (list_to_set (C := gset string)
                    (publisher ∘ snd <$> map_to_list (publisherTracks r)))).

(** *** sfu.go *)

(** The configuration of the SFU, without the configuration of the
    transport. *)
Record SFUConfig := mkSFUConfig {
  SimulcastEnabled : bool;
  SVCEnabled : bool;
  SpeakerDetectorIntervalMs : Z;
  SpeakerDetectorThreshold : Z;
  DefaultMaxPeers : Z;
  DefaultMaxPublishers : Z;
  DefaultAutoSubscribeAudio : bool;
  E2EEDefaultRequired : bool
}.

(** [RC_AutoSubscribeAudio] is a pointer in the source: [None] is nil. *)
Record RoomConfig := mkRoomConfig {
  RC_MaxPublishers : Z;
  RC_E2EERequired : bool;
  RC_AutoSubscribeAudio : option bool
}.

Record SFU := mkSFU {
  rooms : gmap string Room;
  SFU_config : SFUConfig
}.

Section Manager.

(** The id [xid.New().String()] gives. *)
Variable xid_New : string.

(** [CreateRoomWithConfig]: the room or the error, and the SFU afterwards.
    The threshold and the interval it works out go to the speaker
    detector of the room. *)
Definition CreateRoomWithConfig (id : string) (maxPeers : Z)
    (metadata : gmap string string) (rc : RoomConfig) (s : SFU) : Result Room * SFU :=
  let id := if String.eqb id "" then xid_New else id in
  match rooms s !! id with
  | Some _ => (Err (Errorf "room %q already exists" [ArgS id]), s)
  | None =>
    let maxPeers := if maxPeers <=? 0 then DefaultMaxPeers (SFU_config s) else maxPeers in
    let maxPublishers :=
      if RC_MaxPublishers rc <=? 0 then DefaultMaxPublishers (SFU_config s)
      else RC_MaxPublishers rc in
    let autoSubscribeAudio :=
      match RC_AutoSubscribeAudio rc with
      | Some b => b
      | None => DefaultAutoSubscribeAudio (SFU_config s)
      end in
    let e2eeRequired := RC_E2EERequired rc || E2EEDefaultRequired (SFU_config s) in
    let room :=
      NewRoom id maxPeers metadata
        (mkRoomOptions maxPublishers autoSubscribeAudio e2eeRequired) in
    (Ok room, mkSFU (<[id := room]> (rooms s)) (SFU_config s))
  end.

Definition CreateRoom (id : string) (maxPeers : Z) (metadata : gmap string string)
    (s : SFU) : Result Room * SFU :=
  CreateRoomWithConfig id maxPeers metadata (mkRoomConfig 0 false None) s.

End Manager.

Definition GetRoom (id : string) (s : SFU) : option Room := rooms s !! id.

(** [CloseRoom]: the error, the SFU afterwards, and the room it has taken
    out and closed. *)
Definition CloseRoom (id : string) (s : SFU) : option error * SFU * option Room :=
  match rooms s !! id with
  | None => (Some (Errorf "room %q not found" [ArgS id]), s, None)
  | Some room =>
    (None, mkSFU (delete id (rooms s)) (SFU_config s), Some (Close room))
  end.

(** [SFU.Close]: the SFU afterwards, and the rooms it has taken out and
    closed. *)
Definition SFU_Close (s : SFU) : SFU * gmap string Room :=
  (mkSFU ∅ (SFU_config s), Close <$> rooms s).

(** The rooms the SFU can hold: made by [NewRoom], then changed by
    [AddPeer], [RemovePeer], [RegisterPublisherTrack] and [Close]. *)
Inductive reachable : Room -> Prop :=
| reach_new id maxPeers metadata opts :
    reachable (NewRoom id maxPeers metadata opts)
| reach_add tr p r : reachable r -> reachable (AddPeer tr p r).2
| reach_remove peerID r : reachable r -> reachable (RemovePeer peerID r)
| reach_register tr publisher rem r :
    reachable r -> reachable (RegisterPublisherTrack tr publisher rem r).2
| reach_close r : reachable r -> reachable (Close r).

End Sfu.

(** ** pkg/urlvalidation *)

Module Urlvalidation.

Record validationConfig := mkValidationConfig { allowPrivate : bool }.

Definition Option := validationConfig -> validationConfig.

Definition AllowPrivateIPs : Option := fun _ => mkValidationConfig true.

(** [strings.ToLower] on the ASCII letters, which are all the letters a
    scheme accepted by [url.Parse] has. *)
Definition lowerByte (c : ascii) : ascii :=
  let n := Ascii.N_of_ascii c in
  if ((65 <=? n) && (n <=? 90))%N then Ascii.ascii_of_N (n + 32) else c.

Fixpoint ToLower (s : string) : string :=
  match s with
  | EmptyString => EmptyString
  | String c r => String (lowerByte c) (ToLower r)
  end.

(** A parsed URL, by its scheme and by what [Hostname()] returns. *)
Record URL := mkURL {
  Scheme : string;
  Hostname : string
}.

(** *** net.IP, net.IPNet *)

(** An IP address: 4 or 16 bytes. *)
Definition IP := list Z.

Record IPNet := mkIPNet {
  IPNet_IP : IP;
  Mask : list Z
}.

Definition isZeros (p : list Z) : bool := forallb (Z.eqb 0) p.

(** [ip.To4()]: the 4-byte form of an IPv4 address, also when it is given
    as an IPv4-mapped IPv6 address. *)
Definition To4 (ip : IP) : option IP :=
  if (length ip =? 4)%nat then Some ip
  else if (length ip =? 16)%nat && isZeros (take 10 ip)
          && bool_decide (ip !! 10%nat = Some 255)
          && bool_decide (ip !! 11%nat = Some 255)
  then Some (drop 12 ip)
  else None.

(** [net.CIDRMask(ones, bits)] for [0 <= ones <= bits]: [l] bytes, whole
    bytes of ones first, then one byte [^(0xff >> n)], then zeros. *)
Fixpoint maskBytes (l : nat) (n : Z) : list Z :=
  match l with
  | O => []
  | S l' =>
    if 8 <=? n then 255 :: maskBytes l' (n - 8)
    else Z.lxor 255 (Z.shiftr 255 n) :: maskBytes l' 0
  end.

Definition CIDRMask (ones bits : Z) : list Z :=
  maskBytes (Z.to_nat (bits / 8)) ones.

(** The network [net.ParseCIDR] returns for an address and a prefix
    length: the address masked, with the mask. *)
Definition network (ip : IP) (ones : Z) : IPNet :=
  let m := CIDRMask ones (8 * Z.of_nat (length ip)) in
  mkIPNet (zip_with Z.land ip m) m.

Definition networkNumberAndMask (n : IPNet) : IP * list Z :=
  let ip :=
    match To4 (IPNet_IP n) with
    | Some x => Some x
    | None => if (length (IPNet_IP n) =? 16)%nat then Some (IPNet_IP n) else None
    end in
  match ip with
  | None => ([], [])
  | Some ip =>
    let m := Mask n in
    if (length m =? 4)%nat then
      if (length ip =? 4)%nat then (ip, m) else ([], [])
    else if (length m =? 16)%nat then
      if (length ip =? 4)%nat then (ip, drop 12 m) else (ip, m)
    else ([], [])
  end.

(** [n.Contains(ip)]. *)
Definition Contains (n : IPNet) (ip : IP) : bool :=
  let '(nn, m) := networkNumberAndMask n in
  let ip := match To4 ip with Some x => x | None => ip end in
  if negb (length ip =? length nn)%nat then false
  else
    forallb (fun t => Z.land t.1.1 t.2 =? Z.land t.1.2 t.2)
      (zip (zip nn ip) m).

(** The networks of [isPrivateIP], each with the text it is parsed from. *)
Definition privateRanges : list (string * IPNet) :=
  [ ("10.0.0.0/8", network [10; 0; 0; 0] 8);
    ("172.16.0.0/12", network [172; 16; 0; 0] 12);
    ("192.168.0.0/16", network [192; 168; 0; 0] 16);
    ("127.0.0.0/8", network [127; 0; 0; 0] 8);
    ("169.254.0.0/16", network [169; 254; 0; 0] 16);
    ("::1/128", network [0;0;0;0;0;0;0;0;0;0;0;0;0;0;0;1] 128);
    ("fc00::/7", network [252;0;0;0;0;0;0;0;0;0;0;0;0;0;0;0] 7);
    ("fe80::/10", network [254;128;0;0;0;0;0;0;0;0;0;0;0;0;0;0] 10);
    ("100.64.0.0/10", network [100; 64; 0; 0] 10);
    ("0.0.0.0/8", network [0; 0; 0; 0] 8);
    ("192.0.0.0/24", network [192; 0; 0; 0] 24);
    ("192.0.2.0/24", network [192; 0; 2; 0] 24);
    ("198.51.100.0/24", network [198; 51; 100; 0] 24);
    ("203.0.113.0/24", network [203; 0; 113; 0] 24);
    ("198.18.0.0/15", network [198; 18; 0; 0] 15);
    ("224.0.0.0/4", network [224; 0; 0; 0] 4);
    ("240.0.0.0/4", network [240; 0; 0; 0] 4);
    ("255.255.255.255/32", network [255; 255; 255; 255] 32) ].

Definition isPrivateIP (ip : IP) : bool :=
  existsb (fun r => Contains r.2 ip) privateRanges.

Section Validate.

(** [url.Parse]. *)
Variable url_Parse : string -> Result URL.

(** [net.LookupHost]: the addresses of a host, as texts. *)
Variable net_LookupHost : string -> Result (list string).

(** [net.ParseIP]: [None] for a text that is no IP address. *)
Variable net_ParseIP : string -> option IP.

(** The first resolved address that parses and is private, if any. *)
Fixpoint firstPrivate (ips : list string) : option string :=
  match ips with
  | [] => None
  | ipStr :: rest =>
    match net_ParseIP ipStr with
    | None => firstPrivate rest
    | Some ip => if isPrivateIP ip then Some ipStr else firstPrivate rest
    end
  end.

(** [ValidateWebhookURL]; [None] is the nil error. *)
Definition ValidateWebhookURL (rawURL : string) (opts : list Option) : option error :=
  let cfg := foldl (fun c opt => opt c) (mkValidationConfig false) opts in
  match url_Parse rawURL with
  | Err e => Some (ErrorfW "invalid URL: %w" [] e)
  | Ok u =>
    let scheme := ToLower (Scheme u) in
    if negb (String.eqb scheme "https") && negb (String.eqb scheme "http") then
      Some (Errorf "URL scheme %q not allowed; use http or https" [ArgS (Scheme u)])
    else
      let host := Hostname u in
      if String.eqb host "" then Some (Errorf "URL must have a hostname" [])
      else
        match net_LookupHost host with
        | Err e => Some (ErrorfW "cannot resolve hostname %q: %w" [ArgS host] e)
        | Ok ips =>
          if negb (allowPrivate cfg) then
            match firstPrivate ips with
            | Some ipStr =>
              Some (Errorf "URL resolves to private/reserved IP %s" [ArgS ipStr])
            | None => None
            end
          else None
        end
  end.

End Validate.

End Urlvalidation.

(** ** pkg/webhook: the deliverer *)

Module Delivery.
Import Webhook Urlvalidation.

Definition maxBreakers : Z := 10000.

Definition SignatureHeader : string := "X-Voicetyped-Signature-256".

Record DeliveryAttempt := mkDeliveryAttempt {
  DA_WebhookID : string;
  DA_EventID : string;
  DA_EventType : string;
  DA_RequestBody : string;
  DA_ResponseCode : Z;
  DA_ResponseBody : string;
  DA_AttemptNumber : Z;
  DA_Status : string;
  DA_Error : string;
  DA_DurationMs : Z
}.

(** The deliverer: its configuration, its worker pool, if any, the
    options of the URL validation, and the breakers, one per endpoint. *)
Record Deliverer := mkDeliverer {
  D_config : DelivererConfig;
  D_pool : option WorkerPool;
  D_validateOpts : list Option;
  breakers : gmap string CircuitBreaker
}.

Record Request := mkRequest {
  Method : string;
  Request_URL : string;
  Body : string;
  Header : gmap string string
}.

(** A response of the HTTP client: the status code and the bytes its body
    yields. *)
Record Response := mkResponse {
  StatusCode : Z;
  Response_Body : string
}.

(** What one call of [deliverWithRetry] meets: the readings of the clock,
    in [AllowRequest], at [start], at [time.Since(start)] and in
    [RecordFailure], and what the HTTP client returns for the request. *)
Record Attempt := mkAttempt {
  atAllow : Time;
  atStart : Time;
  atEnd : Time;
  atRecord : Time;
  answer : Result Response
}.

(** What one call of [deliverWithRetry] leaves: the deliverer, the request
    handed to the HTTP client, the attempt handed to [RecordDelivery], and
    the message [handleFailure] was called with, with its outcome. *)
Record Outcome := mkOutcome {
  after : Deliverer;
  sent : option Request;
  recorded : option DeliveryAttempt;
  handled : option (string * option FailureOutcome)
}.

Section Deliverer.

(** The key a [range] over the breakers meets first. *)
Variable firstBreaker : gmap string CircuitBreaker -> option string.

Variable url_Parse : string -> Result URL.
Variable net_LookupHost : string -> Result (list string).
Variable net_ParseIP : string -> option IP.
Variable json_Marshal : Envelope -> Result string.

(** [err.Error()] on the errors of the libraries. *)
Variable Error : error -> string.

(** [Sign]: the HMAC-SHA256 of the payload under the secret, in the form
    [sha256=<hex>]. *)
Variable Sign : string -> string -> string.

(** The error of [http.NewRequestWithContext] for a POST to a URL. *)
Variable http_NewRequest : string -> option error.

(** [getOrCreateBreaker]: the breaker of the endpoint and the breakers
    afterwards.  At capacity the entry a [range] meets first is evicted. *)
Definition getOrCreateBreaker (cfg : DelivererConfig) (webhookID : string)
    (bs : gmap string CircuitBreaker) : CircuitBreaker * gmap string CircuitBreaker :=
  match bs !! webhookID with
  | Some cb => (cb, bs)
  | None =>
    let bs :=
      if maxBreakers <=? Z.of_nat (size bs) then
        match firstBreaker bs with
        | Some k => delete k bs
        | None => bs
        end
      else bs in
    let cb :=
      NewCircuitBreaker
        (mkCircuitBreakerConfig (CBFailThreshold cfg)
           (wrap64 (CBResetTimeoutSec cfg * Second)) 1) in
    (cb, <[webhookID := cb]> bs)
  end.

Definition withBreakers (bs : gmap string CircuitBreaker) (d : Deliverer) : Deliverer :=
  mkDeliverer (D_config d) (D_pool d) (D_validateOpts d) bs.

(** [deliverWithRetry], for a call whose steps are not interleaved with
    those of another delivery to the same endpoint: the breaker the call
    works on is the one the deliverer holds for the endpoint. *)
Definition deliverWithRetry (a : Attempt) (d : Deliverer) (wh : WebhookEndpoint)
    (env : Envelope) (attempt : Z) : Outcome :=
  match ValidateWebhookURL url_Parse net_LookupHost net_ParseIP (Webhook.URL wh)
          (D_validateOpts d) with
  | Some _ => mkOutcome d None None None
  | None =>
    let id := WebhookEndpoint_ID wh in
    let '(cb, bs) := getOrCreateBreaker (D_config d) id (breakers d) in
    let '(allowed, cb) := AllowRequest (atAllow a) cb in
    let d1 := withBreakers (<[id := cb]> bs) d in
    let failure (d' : Deliverer) (req : option Request) (da : option DeliveryAttempt)
          (errMsg : string) :=
      mkOutcome d' req da
        (Some (errMsg,
               handleFailure json_Marshal (D_config d) (D_pool d) wh env attempt errMsg)) in
    if negb allowed then failure d1 None None "circuit open"
    else
      match json_Marshal env with
      | Err e => failure d1 None None ("marshal: " +:+ Error e)
      | Ok body =>
        let sig := Sign (Secret wh) body in
        match http_NewRequest (Webhook.URL wh) with
        | Some e => failure d1 None None ("create request: " +:+ Error e)
        | None =>
          let req :=
            mkRequest "POST" (Webhook.URL wh) body
              (<["X-Voicetyped-Delivery" := Envelope_ID env]>
                 (<["X-Voicetyped-Event" := Envelope_Type env]>
                    (<[SignatureHeader := sig]>
                       {["Content-Type" := "application/json"]}))) in
          let durationMs := Z.quot (Since (atEnd a) (atStart a)) 1000000 in
          let da status code respBody errMsg :=
            mkDeliveryAttempt id (Envelope_ID env) (Envelope_Type env) body code
              respBody attempt status errMsg durationMs in
          match answer a with
          | Err e =>
            let d2 := withBreakers (<[id := RecordFailure (atRecord a) cb]> bs) d in
            failure d2 (Some req) (Some (da "failed" 0 "" (Error e))) (Error e)
          | Ok resp =>
            let respBody := substring 0 4096 (Response_Body resp) in
            if (200 <=? StatusCode resp) && (StatusCode resp <? 300) then
              mkOutcome (withBreakers (<[id := RecordSuccess cb]> bs) d) (Some req)
                (Some (da "success" (StatusCode resp) respBody "")) None
            else
              let errMsg := "HTTP " +:+ Itoa (StatusCode resp) in
              let d2 := withBreakers (<[id := RecordFailure (atRecord a) cb]> bs) d in
              failure d2 (Some req)
                (Some (da "failed" (StatusCode resp) respBody errMsg)) errMsg
          end
        end
      end
  end.

(** [Deliver]: the first attempt. *)
Definition Deliver (a : Attempt) (d : Deliverer) (wh : WebhookEndpoint) (env : Envelope)
    : Outcome :=
  deliverWithRetry a d wh env 1.

End Deliverer.

End Delivery.

(** ** Notions used to state the properties *)

Module Notions.

(** *** Transition evaluation *)

(** A rendered condition holds when, white space trimmed, it is neither
    empty nor one of the two literals. *)
Definition holds (out : string) : bool :=
  let r := Dialog.TrimSpace out in
  negb (String.eqb r "") && negb (String.eqb r "false")
  && negb (String.eqb r "<no value>").

Section Transitions.
Variable template_Execute : string -> Dialog.Session -> Result string.

(** The transition is for the event and its condition is empty or
    renders to a text that holds. *)
Definition matches (event : string) (session : Dialog.Session)
    (t : Dialog.Transition) : Prop :=
  Dialog.Event t = event
  /\ (Dialog.Condition t = ""
      \/ exists out,
           Dialog.renderTemplate template_Execute (Dialog.Condition t) session = Ok out
           /\ holds out = true).

(** The transition is for another event, or its condition renders to a
    text that does not hold. *)
Definition passedOver (event : string) (session : Dialog.Session)
    (t : Dialog.Transition) : Prop :=
  Dialog.Event t <> event
  \/ (Dialog.Condition t <> ""
      /\ exists out,
           Dialog.renderTemplate template_Execute (Dialog.Condition t) session = Ok out
           /\ holds out = false).

(** The transition is for the event and its condition fails to render. *)
Definition failsToRender (event : string) (session : Dialog.Session)
    (t : Dialog.Transition) (e : error) : Prop :=
  Dialog.Event t = event
  /\ Dialog.Condition t <> ""
  /\ Dialog.renderTemplate template_Execute (Dialog.Condition t) session = Err e.

End Transitions.

(** *** Dialog definitions and sessions *)

Section Dialogs.
Import Dialog Handler.

(** The name is not empty and names a state of the dialog. *)
Definition knownState (d : Dialog) (name : string) : Prop :=
  name <> "" /\ is_Some (Dialog_States d !! name).

(** A dialog without dangling names: the initial state is given and
    exists, the target of every transition is given and exists, and a
    time-out successor that is given exists. *)
Definition wellFormed (d : Dialog) : Prop :=
  knownState d (Dialog_InitialState d)
  /\ forall name state,
       Dialog_States d !! name = Some state ->
       Forall (fun t => knownState d (Target t)) (Transitions state)
       /\ (TimeoutNext state <> "" -> is_Some (Dialog_States d !! TimeoutNext state)).

(** One call of [RecordTransition]: the instant, [from], [to] and the
    trigger; and the record the call appends. *)
Record recordCall := mkRecordCall {
  call_now : Time;
  call_from : string;
  call_to : string;
  call_trigger : string
}.

Definition recordOf (c : recordCall) : StateRecord :=
  mkStateRecord (call_from c) (call_to c) (call_trigger c) (call_now c).

(** A run of [RecordTransition] calls on a session. *)
Fixpoint recordAll (calls : list recordCall) (s : Session) : option Session :=
  match calls with
  | [] => Some s
  | c :: rest =>
    match RecordTransition (call_now c) (call_from c) (call_to c) (call_trigger c) s with
    | None => None
    | Some s' => recordAll rest s'
    end
  end.

(** The writes of one execution of a template: piece after piece, up to
    the first write that returns an error. *)
Fixpoint writeAll (chunks : list (list Z)) (lw : limitWriter)
    : option (option error * limitWriter) :=
  match chunks with
  | [] => Some (None, lw)
  | p :: rest =>
    match limitWriter_Write p lw with
    | None => None
    | Some ((_, Some e), lw') => Some (Some e, lw')
    | Some ((_, None), lw') => writeAll rest lw'
    end
  end.

(** The current state of the session is a state of its dialog. *)
Definition inDialog (as' : activeSession) : Prop :=
  is_Some (GetState (sm as') (CurrentState (session as'))).

(** A result of the loop that carries no error names a state of the
    dialog and tells whether that state is terminal; the only error a
    result carries is the error of a condition that does not evaluate. *)
Definition truthful (m : StateMachine) (r : actionResult) : Prop :=
  match err r with
  | None => exists st, GetState m (newState r) = Some st /\ terminal r = Terminal st
  | Some e => exists c e', e = ErrorfW "eval condition %q: %w" [ArgS c] e'
  end.

(** What a stretch of the loop does to an active session and which
    results it sends, in the terms of the two notions above: the state
    machine and the cap stay, the current state stays in the dialog, the
    results sent are truthful, and the last result sent, when it carries no
    error, names the current state the session is left in (the current
    state it had before, when nothing is sent). *)
Definition advances (before after : activeSession) (new : list actionResult) : Prop :=
  sm after = sm before
  /\ inDialog after
  /\ maxHistory (session after) = maxHistory (session before)
  /\ resultCh after = resultCh before ++ new
  /\ Forall (truthful (sm before)) new
  /\ match last new with
     | None => CurrentState (session after) = CurrentState (session before)
     | Some r => err r = None -> newState r = CurrentState (session after)
     end.

End Dialogs.

(** *** Circuit breakers and deliveries *)

Section Breakers.
Import Webhook Delivery.

(** What a breaker sees: a request asks to pass, a delivery is recorded
    as a success, a delivery is recorded as a failure. *)
Inductive breakerEvent :=
| asked (now : Time)
| succeeded
| failed (now : Time).

Definition breakerStep (cb : CircuitBreaker) (ev : breakerEvent) : CircuitBreaker :=
  match ev with
  | asked now => (AllowRequest now cb).2
  | succeeded => RecordSuccess cb
  | failed now => RecordFailure now cb
  end.

Definition breakerRun (evs : list breakerEvent) (cb : CircuitBreaker) : CircuitBreaker :=
  foldl breakerStep cb evs.

(** The number of failures since the last success. *)
Definition streak (evs : list breakerEvent) : Z :=
  foldl (fun n ev =>
           match ev with
           | asked _ => n
           | succeeded => 0
           | failed _ => n + 1
           end) 0 evs.

(** The answer of the HTTP client counts as a failure: an error, or a
    status code outside 200..299. *)
Definition failing (a : Attempt) : Prop :=
  match answer a with
  | Err _ => True
  | Ok resp => ~ (200 <= StatusCode resp < 300)
  end.

(** A lawful [range]: it meets a key of the map, and meets one when the
    map is not empty. *)
Definition lawful (first : gmap string CircuitBreaker -> option string) : Prop :=
  forall m, match first m with
            | Some k => is_Some (m !! k)
            | None => m = ∅
            end.

End Breakers.

Section Runs.
Import Webhook Urlvalidation Delivery.

Variable firstBreaker : gmap string CircuitBreaker -> option string.
Variable url_Parse : string -> Result URL.
Variable net_LookupHost : string -> Result (list string).
Variable net_ParseIP : string -> option IP.
Variable json_Marshal : Envelope -> Result string.
Variable Error : error -> string.
Variable Sign : string -> string -> string.
Variable http_NewRequest : string -> option error.

(** Deliveries to one endpoint, one after the other, each with what it
    meets, its envelope and its attempt number: the deliverer afterwards
    and the outcomes in order. *)
Fixpoint deliverRun (calls : list (Attempt * Envelope * Z)) (d : Deliverer)
    (wh : WebhookEndpoint) : Deliverer * list Outcome :=
  match calls with
  | [] => (d, [])
  | c :: rest =>
    let o :=
      deliverWithRetry firstBreaker url_Parse net_LookupHost net_ParseIP json_Marshal
        Error Sign http_NewRequest c.1.1 d wh c.1.2 c.2 in
    let r := deliverRun rest (after o) wh in
    (r.1, o :: r.2)
  end.

End Runs.

(** *** Reserved address ranges *)

Section Ranges.
Import Urlvalidation.

(** An address as a number, most significant byte first. *)
Fixpoint addrValue (ip : IP) : Z :=
  match ip with
  | [] => 0
  | b :: rest => b * 2 ^ (8 * len rest) + addrValue rest
  end.

Definition isByte (b : Z) : Prop := 0 <= b < 256.

(** An IPv4 address on its 4 bytes, also when it is given as an
    IPv4-mapped IPv6 address; any other address as it is. *)
Definition canonical (ip : IP) : IP :=
  match To4 ip with Some x => x | None => ip end.

(** The address lies in the block [base/ones]: it has the width of the
    base and shares its first [ones] bits. *)
Definition inBlock (base : IP) (ones : Z) (ip : IP) : Prop :=
  length (canonical ip) = length base
  /\ addrValue (canonical ip) / 2 ^ (8 * len base - ones)
     = addrValue base / 2 ^ (8 * len base - ones).

(** The reserved ranges of the specification: the text, the base
    address and the length of the prefix. *)
Definition reservedBlocks : list (string * (IP * Z)) :=
  [ ("10.0.0.0/8", ([10; 0; 0; 0], 8));
    ("172.16.0.0/12", ([172; 16; 0; 0], 12));
    ("192.168.0.0/16", ([192; 168; 0; 0], 16));
    ("127.0.0.0/8", ([127; 0; 0; 0], 8));
    ("169.254.0.0/16", ([169; 254; 0; 0], 16));
    ("::1/128", ([0;0;0;0;0;0;0;0;0;0;0;0;0;0;0;1], 128));
    ("fc00::/7", ([252;0;0;0;0;0;0;0;0;0;0;0;0;0;0;0], 7));
    ("fe80::/10", ([254;128;0;0;0;0;0;0;0;0;0;0;0;0;0;0], 10));
    ("100.64.0.0/10", ([100; 64; 0; 0], 10));
    ("0.0.0.0/8", ([0; 0; 0; 0], 8));
    ("192.0.0.0/24", ([192; 0; 0; 0], 24));
    ("192.0.2.0/24", ([192; 0; 2; 0], 24));
    ("198.51.100.0/24", ([198; 51; 100; 0], 24));
    ("203.0.113.0/24", ([203; 0; 113; 0], 24));
    ("198.18.0.0/15", ([198; 18; 0; 0], 15));
    ("224.0.0.0/4", ([224; 0; 0; 0], 4));
    ("240.0.0.0/4", ([240; 0; 0; 0], 4));
    ("255.255.255.255/32", ([255; 255; 255; 255], 32)) ].

(** The address lies in one of the reserved ranges. *)
Definition reserved (ip : IP) : Prop :=
  exists cidr base ones,
    (cidr, (base, ones)) ∈ reservedBlocks /\ inBlock base ones ip.

(** The comparison [Contains] makes, byte by byte under the mask. *)
Definition sameUnderMask (nn ip m : list Z) : bool :=
  forallb (fun t => Z.land t.1.1 t.2 =? Z.land t.1.2 t.2) (zip (zip nn ip) m).

(** A network is the block [base/ones] when [Contains] compares with
    the base under the mask of [ones] bits. *)
Definition isBlock (net : IPNet) (base : IP) (ones : Z) : bool :=
  bool_decide (networkNumberAndMask net = (base, maskBytes (length base) ones))
  && (0 <=? ones) && (ones <=? 8 * len base)
  && forallb (fun b => (0 <=? b) && (b <? 256)) base.

End Ranges.

(** *** Forwarders *)

Section Forwarders.
Import Sfu.

(** A run of [shouldSendPLI] calls on one debouncer, one per instant:
    the answers in order. *)
Fixpoint askPLI (ts : list Time) (d : pliDebouncer) : list bool :=
  match ts with
  | [] => []
  | t :: rest => (shouldSendPLI t d).1 :: askPLI rest (shouldSendPLI t d).2
  end.

(** The turn leaves the layers of an SVC subscription unlimited. *)
Definition unlimited (t : Turn) : Prop :=
  maxSpatialLayer (subNow t) < 0 /\ maxTemporalLayer (subNow t) < 0.

(** The turns the loop of a forwarder goes through, each with the packet
    it reads: those before the first turn that finds the context done or
    fails to read. *)
Fixpoint reached (turns : list Turn) : list (Turn * list Z) :=
  match turns with
  | [] => []
  | t :: rest =>
    if ctxDone t then []
    else
      match readResult t with
      | ReadError => []
      | ReadPacket pkt => (t, pkt) :: reached rest
      end
  end.

(** The subscription can be forwarded to: it is not paused and has a down
    track that is not muted. *)
Definition forwardable (sub : Subscription) : bool :=
  match downTrack sub with
  | Some dt => negb (paused sub) && negb (muted dt)
  | None => false
  end.

(** Forwarding without any filter: every packet read in a turn the loop
    goes through while the subscription can be forwarded to, in order. *)
Definition passedOn (turns : list Turn) : list (list Z) :=
  map snd (List.filter (fun tp => forwardable (subNow (fst tp))) (reached turns)).

End Forwarders.

(** *** Rooms *)

Section Rooms.
Import Sfu.

(** What the track [pt] is after the turn of the loop of [AddPeer] for
    the peer [p]; [None] when the turn leaves the track as it is. *)
Definition turnResult (tr : Transport) (p : Peer) (pt : PublisherTrack)
    : option PublisherTrack :=
  if bool_decide (kind pt = RTPCodecTypeAudio)
     && negb (String.eqb (publisher pt) (Peer_id p))
  then
    match Subscribe tr pt p QualityHigh (-1) (-1) with
    | Ok (_, pt', _) => Some pt'
    | Err _ => None
    end
  else None.

(** The bound on the peers, with the bound itself being positive. *)
Definition bounded (r : Room) : Prop :=
  1 <= maxPeers r /\ PeerCount r <= maxPeers r.

(** A track held under the id [k] in a room whose peers have the ids
    [ps]: it carries that id, it has a layer, each of its layers has a
    remote track of that id, and each of its subscriptions is held under
    the id of its subscriber, names the track, and belongs to a peer of the
    room. *)
Definition trackOk (ps : gset string) (k : string) (pt : PublisherTrack) : Prop :=
  Track_id pt = k
  /\ layers pt <> ∅
  /\ (forall rid l, layers pt !! rid = Some l ->
        exists src, remote l = Some src /\ Remote_ID src = k)
  /\ (forall s sub, subscribers pt !! s = Some sub ->
        Sub_subscriber sub = s /\ Sub_trackID sub = k /\ s ∈ ps).

(** The peers and the tracks of a room fit together: each peer is held
    under its own id, each track is as [trackOk] says, and a closed room
    holds no peer. *)
Definition consistent (r : Room) : Prop :=
  (forall k p, peers r !! k = Some p -> Peer_id p = k)
  /\ (forall k pt, publisherTracks r !! k = Some pt -> trackOk (dom (peers r)) k pt)
  /\ (closed r = true -> peers r = ∅).

(** The peer has declared encryption, with an algorithm. *)
Definition encrypted (p : Peer) : Prop :=
  exists enc, encryption p = Some enc /\ Algorithm enc <> "".

(** A [range] over a map that is not empty meets one of its entries
    first. *)
Definition ranging (tr : Transport) : Prop :=
  forall ls : gmap string trackLayer,
    ls <> ∅ -> exists k l, firstLayer tr ls = Some l /\ ls !! k = Some l.

(** The error [e] comes from the transport: from the creation of a local
    track, or, wrapped by [AddDownTrack], from adding a track to the
    connection of the peer [peerID]. *)
Definition fromTransport (tr : Transport) (peerID : string) (e : error) : Prop :=
  (exists src rid, NewTrackLocalStaticRTP tr src rid = Some e)
  \/ (exists dt e', pc_AddTrack tr peerID dt = Some e'
                    /\ e = ErrorfW "add track to peer: %w" [] e').

End Rooms.

End Notions.

(** ** Concrete data for the examples *)

Module Samples.
Import Webhook Dialog Handler Sfu Urlvalidation.

(** *** Webhook delivery *)

Definition retryConfig : DelivererConfig := mkDelivererConfig 5 10 1 300 5 60.

(** A configuration that allows a hundred attempts. *)
Definition longRetryConfig : DelivererConfig := mkDelivererConfig 100 10 1 300 5 60.

Definition endpoint : WebhookEndpoint :=
  mkWebhookEndpoint "wh1" "hook" "https://example.com/hook" "secret"
    ["webhook.test"] true.

Definition envelope : Envelope :=
  mkEnvelope "ev1" "webhook.test" "test" "s1" 0 "{}" ∅.

(** A serializer standing for [json.Marshal]: it always succeeds. *)
Definition marshal (env : Envelope) : Result string :=
  Ok ("{id:" +:+ Envelope_ID env +:+ ",type:" +:+ Envelope_Type env +:+ "}").

Definition fullPool : WorkerPool := mkWorkerPool false.
Definition freePool : WorkerPool := mkWorkerPool true.

(** A [range] over a map of breakers that meets the first key of
    [map_to_list]. *)
Definition firstKey (m : gmap string CircuitBreaker) : option string :=
  fst <$> head (map_to_list m).

(** The message of an error of a library. *)
Definition errorText (e : error) : string :=
  match e with
  | LibError msg | SFUError msg => msg
  | _ => "error"
  end.

(** A signature for the examples: it only tags the payload. *)
Definition sign (secret payload : string) : string := "sha256=" +:+ secret.

(** *** Dialogs *)

Definition record : StateRecord := mkStateRecord "greeting" "handle" "hi" 1.

(** A session at the default cap, with a full history. *)
Definition fullSession : Session :=
  mkSession DefaultMaxHistory "s1" "test" "handle" ∅ (replicate 1000 record)
    0 (anyString "hi") ∅.

(** A template engine for the examples.  It agrees with [text/template]
    on the templates used below: a template without an action renders as
    itself, and the template made of an opening delimiter alone does not
    parse. *)
Definition execute (tmpl : string) (_ : Session) : Result string :=
  if String.eqb tmpl "{{" then Err (LibError "template: :1: unclosed action")
  else Ok tmpl.

Definition sayHello : Action := mkAction "play_tts" {["text" := "Hello!"]}.
Definition sayBye : Action := mkAction "play_tts" {["text" := "Bye"]}.
Definition hangup : Action := mkAction "hangup" ∅.

(** The dialog of the minimal greeting scenario. *)
Definition testDialog : Dialog :=
  mkDialog "test" "" "" ∅ "greeting"
    (<["greeting" := mkState [sayHello]
                       [mkTransition "speech" "" "handle" []] "30s" "goodbye" false]>
     (<["handle" := mkState [] [mkTransition "speech" "" "goodbye" []] "" "" false]>
      (<["goodbye" := mkState [sayBye; hangup] [] "" "" true]> ∅))).

Definition loader : gmap string StateMachine :=
  {["test" := NewStateMachine testDialog]}.

Definition startRequest : StartDialogRequest :=
  mkStartDialogRequest "s1" "test" "" ∅.

(** The same session id again, entering at another state. *)
Definition secondRequest : StartDialogRequest :=
  mkStartDialogRequest "s1" "test" "handle" {["lang" := "en"]}.

(** A state whose first speech transition has a condition that does not
    parse and whose second has none. *)
Definition brokenFirst : State :=
  mkState []
    [mkTransition "speech" "{{" "a" []; mkTransition "speech" "" "b" [hangup]]
    "" "" false.

(** A state with conditions that render to white space, to [false] and to
    a word. *)
Definition conditions : State :=
  mkState []
    [mkTransition "dtmf" "" "menu" [];
     mkTransition "speech" "  " "blank" [];
     mkTransition "speech" " false " "no" [];
     mkTransition "speech" "<no value>" "none" [];
     mkTransition "speech" " yes " "yes" [sayHello];
     mkTransition "speech" "" "last" []]
    "" "" false.

Definition session0 : Session := NewSession 0 "s1" "test" "greeting".

(** *** The SFU *)

(** The debouncer of the simulcast forwarder, after a PLI at instant 0. *)
Definition debouncer : pliDebouncer := mkPliDebouncer 0 (500 * Millisecond).

Definition downTrackB : DownTrack := mkDownTrack "A" "video1" "" false.

(** A subscription limited to spatial layer 1 and temporal layer 1. *)
Definition limited : Subscription :=
  mkSubscription "video1" "B" (Some downTrackB) QualityHigh 1 1 false.

Definition pausedSub : Subscription :=
  mkSubscription "video1" "B" (Some downTrackB) QualityHigh 1 1 true.

(** Parsers for the examples, on packets of the shape
    [[marker; sid; tid; ...]]: a packet parses as RTP when it is not
    empty, and its payload, the rest, parses as VP9 when it has two bytes
    or more, the first two being the spatial and the temporal id. *)
Definition rtpParse (pkt : list Z) : option (list Z) :=
  match pkt with
  | [] => None
  | _ :: payload => Some payload
  end.

Definition vp9Parse (payload : list Z) : option (Z * Z) :=
  match payload with
  | sid :: tid :: _ => Some (sid, tid)
  | _ => None
  end.

Definition vp9Remote : TrackRemote :=
  mkTrackRemote "video1" "stream1" "" RTPCodecTypeVideo "video/VP9".

Definition h264Remote : TrackRemote :=
  mkTrackRemote "video1" "stream1" "" RTPCodecTypeVideo "video/H264".

(** Four turns with packets of layers (0,0), (2,0), (1,2) and (1,1). *)
Definition turns : list Turn :=
  [ mkTurn false (ReadPacket [128; 0; 0; 7]) limited;
    mkTurn false (ReadPacket [128; 2; 0; 7]) limited;
    mkTurn false (ReadPacket [128; 1; 2; 7]) limited;
    mkTurn false (ReadPacket [128; 1; 1; 7]) limited ].

(** A transport on which every call succeeds. *)
Definition transport : Transport :=
  mkTransport (fun ls => snd <$> head (map_to_list ls))
    (fun _ _ => None) (fun _ _ => None).

(** A transport that refuses every track added to a connection. *)
Definition brokenTransport : Transport :=
  mkTransport (fun ls => snd <$> head (map_to_list ls))
    (fun _ _ => None) (fun _ _ => Some (LibError "add track failed")).

Definition peerA : Peer := NewPeer "A" ∅ DefaultPeerConfig.
Definition peerB : Peer := NewPeer "B" ∅ DefaultPeerConfig.

(** A peer that does not want to be subscribed to audio. *)
Definition quietPeer : Peer :=
  NewPeer "B" ∅ (mkPeerConfig true false false None false).

Definition encryptedPeer : Peer :=
  NewPeer "E" ∅
    (mkPeerConfig true false false (Some (mkEncryptionInfo "AES_GCM" 1 [1; 2])) true).

Definition audioRemote : TrackRemote :=
  mkTrackRemote "audio1" "streamA" "" RTPCodecTypeAudio "audio/opus".

(** A room for two peers with audio auto-subscription, then with peer A in
    it, then with the audio track of A published. *)
Definition emptyRoom : Room := NewRoom "r" 2 ∅ (mkRoomOptions 0 true false).
Definition roomA : Room := (AddPeer transport peerA emptyRoom).2.
Definition roomWithAudio : Room :=
  (RegisterPublisherTrack transport peerA audioRemote roomA).2.

(** A room for one peer, full once A is in. *)
Definition fullRoom : Room :=
  (AddPeer transport peerA (NewRoom "r1" 1 ∅ (mkRoomOptions 0 true false))).2.

Definition secureRoom : Room := NewRoom "e" 10 ∅ (mkRoomOptions 0 true true).

(** An SFU with rooms for 50 peers and E2EE required by default, with no
    room yet. *)
Definition sfuConfig : SFUConfig := mkSFUConfig true true 0 0 50 0 true true.
Definition emptySFU : SFU := mkSFU ∅ sfuConfig.

(** *** URL validation *)

(** A URL parser for the examples, on four URLs. *)
Definition parseURL (rawURL : string) : Result URL :=
  if String.eqb rawURL "https://hooks.example/in" then Ok (mkURL "https" "hooks.example")
  else if String.eqb rawURL "FTP://files.example/f" then Ok (mkURL "FTP" "files.example")
  else if String.eqb rawURL "http:///path" then Ok (mkURL "http" "")
  else if String.eqb rawURL "HTTP://gone.example/" then Ok (mkURL "HTTP" "gone.example")
  else Err (LibError "parse error").

(** A resolver for the examples: [hooks.example] has a public and a
    private address, [gone.example] does not resolve. *)
Definition lookupHost (host : string) : Result (list string) :=
  if String.eqb host "hooks.example" then Ok ["93.184.216.34"; "172.20.1.9"]
  else Err (LibError "no such host").

(** The addresses of the examples, in the 16-byte form [net.ParseIP]
    returns. *)
Definition parseIP (s : string) : option IP :=
  if String.eqb s "93.184.216.34"
  then Some [0;0;0;0;0;0;0;0;0;0;255;255;93;184;216;34]
  else if String.eqb s "172.20.1.9"
  then Some [0;0;0;0;0;0;0;0;0;0;255;255;172;20;1;9]
  else None.





(** A parser and a resolver under which the URL of the sample endpoint is
    an HTTPS URL of a host with one public address. *)
Definition parsePublic (rawURL : string) : Result URL :=
  Ok (mkURL "https" "example.com").

Definition lookupPublic (host : string) : Result (list string) :=
  Ok ["93.184.216.34"].

(** A deliverer without breakers, with the sample configuration (five
    attempts; breakers with the threshold 5 and a reset time-out of 60
    seconds), and two deliveries: one answered with status 500, one with
    status 200. *)
Definition deliverer : Delivery.Deliverer :=
  Delivery.mkDeliverer retryConfig (Some freePool) [] ∅.

Definition refusedAttempt : Delivery.Attempt :=
  Delivery.mkAttempt 10 10 (10 + 20 * Millisecond) (10 + 20 * Millisecond)
    (Ok (Delivery.mkResponse 500 "busy")).

Definition acceptedAttempt : Delivery.Attempt :=
  Delivery.mkAttempt 10 10 (10 + 20 * Millisecond) (10 + 20 * Millisecond)
    (Ok (Delivery.mkResponse 200 "ok")).

End Samples.

(** * Properties *)

(** ** Go integers and time *)

Lemma wrap64_small (z : Z) : minInt64 <= z <= maxInt64 -> wrap64 z = z.
Proof.
  unfold wrap64, minInt64, maxInt64. intros H.
  rewrite Z.mod_small by lia. lia.
Qed.

Lemma wrap64_range (z : Z) : minInt64 <= wrap64 z <= maxInt64.
Proof.
  unfold wrap64, minInt64, maxInt64.
  pose proof (Z.mod_pos_bound (z + 2 ^ 63) (2 ^ 64) ltac:(lia)). lia.
Qed.

Lemma Sub_exact (t u : Time) :
  minInt64 <= t - u <= maxInt64 -> Sub t u = t - u.
Proof.
  intros H. unfold Sub. cbv zeta.
  destruct (Z.ltb_spec (t - u) minInt64); [lia|].
  destruct (Z.ltb_spec maxInt64 (t - u)); [lia|]. reflexivity.
Qed.

Lemma Sub_range (t u : Time) : minInt64 <= Sub t u <= maxInt64.
Proof.
  unfold Sub. cbv zeta.
  destruct (Z.ltb_spec (t - u) minInt64); [unfold minInt64, maxInt64; lia|].
  destruct (Z.ltb_spec maxInt64 (t - u)); [unfold minInt64, maxInt64; lia|]. lia.
Qed.

(** Saturation does not change a comparison with a bound above the least
    duration. *)
Lemma Since_exact (now t : Time) :
  minInt64 <= now - t <= maxInt64 -> Since now t = now - t.
Proof. apply Sub_exact. Qed.

Lemma Sub_lt_iff (t u : Time) (i : Duration) :
  minInt64 < i <= maxInt64 -> (Sub t u < i <-> t - u < i).
Proof.
  intros Hi. unfold Sub. cbv zeta.
  destruct (Z.ltb_spec (t - u) minInt64); [lia|].
  destruct (Z.ltb_spec maxInt64 (t - u)); lia.
Qed.

(** ** The circuit breaker *)

Section CircuitBreakerProofs.
Import Webhook.

Lemma NewCircuitBreaker_threshold cfg :
  FailureThreshold (config (NewCircuitBreaker cfg)) = FailureThreshold cfg.
Proof. unfold NewCircuitBreaker. cbn. by destruct (_ <=? _). Qed.

Lemma NewCircuitBreaker_clamped cfg :
  1 <= HalfOpenMaxAttempts (config (NewCircuitBreaker cfg)).
Proof.
  unfold NewCircuitBreaker. cbn.
  destruct (Z.leb_spec (HalfOpenMaxAttempts cfg) 0); cbn; lia.
Qed.

Lemma RecordFailures_snoc ts t cb :
  RecordFailures (ts ++ [t]) cb = RecordFailure t (RecordFailures ts cb).
Proof. unfold RecordFailures. by rewrite foldl_app. Qed.

(** Below the threshold the breaker stays closed and counts. *)
Lemma RecordFailures_below cfg ts :
  Z.of_nat (length ts) < FailureThreshold cfg ->
  FailureThreshold cfg <= maxInt64 ->
  let cb := RecordFailures ts (NewCircuitBreaker cfg) in
  state cb = StateClosed /\ failures cb = Z.of_nat (length ts)
  /\ config cb = config (NewCircuitBreaker cfg).
Proof.
  induction ts as [|t ts IH] using rev_ind; intros Hlen Hmax.
  - by cbn.
  - rewrite length_app in Hlen. cbn [length] in Hlen.
    destruct IH as (Hst & Hf & Hc); [lia | done |].
    cbv zeta. rewrite RecordFailures_snoc.
    unfold RecordFailure. rewrite Hst, Hf, Hc. cbn [String.eqb StateClosed StateHalfOpen Ascii.eqb Bool.eqb].
    cbn [state failures config].
    rewrite NewCircuitBreaker_threshold.
    rewrite wrap64_small by (unfold minInt64, maxInt64 in *; lia).
    rewrite length_app. cbn [length].
    destruct (Z.leb_spec (FailureThreshold cfg) (Z.of_nat (length ts) + 1)); [lia|].
    split; [done|]. split; [lia|done].
Qed.

(** At the threshold it opens. *)
Lemma RecordFailures_opens cfg ts :
  1 <= FailureThreshold cfg <= maxInt64 ->
  Z.of_nat (length ts) = FailureThreshold cfg ->
  state (RecordFailures ts (NewCircuitBreaker cfg)) = StateOpen.
Proof.
  intros Hn Hlen.
  destruct ts as [|t ts _] using rev_ind; [cbn in Hlen; lia|].
  rewrite length_app in Hlen. cbn [length] in Hlen.
  destruct (RecordFailures_below cfg ts) as (Hst & Hf & Hc); [lia | lia |].
  rewrite RecordFailures_snoc. unfold RecordFailure.
  rewrite Hst, Hf, Hc. cbn [String.eqb StateClosed StateHalfOpen Ascii.eqb Bool.eqb].
  cbn [state]. rewrite NewCircuitBreaker_threshold.
  rewrite wrap64_small by (unfold minInt64, maxInt64 in *; lia).
  destruct (Z.leb_spec (FailureThreshold cfg) (Z.of_nat (length ts) + 1)); [done|lia].
Qed.

Lemma AllowRequest_open_early now cb :
  state cb = StateOpen ->
  Since now (lastFailureTime cb) <= ResetTimeout (config cb) ->
  AllowRequest now cb = (false, cb).
Proof.
  intros Hst Hle. unfold AllowRequest. rewrite Hst. cbn.
  destruct (Z.ltb_spec (ResetTimeout (config cb)) (Since now (lastFailureTime cb)));
    [lia | done].
Qed.

Lemma AllowRequest_open_late now cb :
  state cb = StateOpen ->
  ResetTimeout (config cb) < Since now (lastFailureTime cb) ->
  AllowRequest now cb =
    (true, mkCircuitBreaker StateHalfOpen (failures cb) 0 (lastFailureTime cb) (config cb)).
Proof.
  intros Hst Hlt. unfold AllowRequest. rewrite Hst. cbn.
  destruct (Z.ltb_spec (ResetTimeout (config cb)) (Since now (lastFailureTime cb)));
    [done | lia].
Qed.

Lemma RecordSuccess_half_open cb :
  state cb = StateHalfOpen ->
  RecordSuccess cb =
    mkCircuitBreaker
      (if HalfOpenMaxAttempts (config cb) <=? wrap64 (successes cb + 1)
       then StateClosed else StateHalfOpen)
      0 (wrap64 (successes cb + 1)) (lastFailureTime cb) (config cb).
Proof. intros Hst. unfold RecordSuccess. by rewrite Hst. Qed.

Lemma RecordFailure_half_open now cb :
  state cb = StateHalfOpen ->
  RecordFailure now cb =
    mkCircuitBreaker StateOpen (wrap64 (failures cb + 1)) (successes cb) now (config cb).
Proof. intros Hst. unfold RecordFailure. by rewrite Hst. Qed.

(** What [NewCircuitBreaker] keeps of the configuration it is given. *)
Lemma NewCircuitBreaker_config cfg :
  FailureThreshold (config (NewCircuitBreaker cfg)) = FailureThreshold cfg
  /\ ResetTimeout (config (NewCircuitBreaker cfg)) = ResetTimeout cfg
  /\ HalfOpenMaxAttempts (config (NewCircuitBreaker cfg))
     = Z.max 1 (HalfOpenMaxAttempts cfg).
Proof.
  unfold NewCircuitBreaker. cbn.
  destruct (Z.leb_spec (HalfOpenMaxAttempts cfg) 0); cbn; split_and!; try done; lia.
Qed.

(** The failure that reaches the threshold opens the breaker and leaves
    its instant in it. *)
Lemma RecordFailures_opens_at cfg ts t :
  1 <= FailureThreshold cfg <= maxInt64 ->
  Z.of_nat (length ts) + 1 = FailureThreshold cfg ->
  let cb := RecordFailures (ts ++ [t]) (NewCircuitBreaker cfg) in
  state cb = StateOpen /\ lastFailureTime cb = t
  /\ failures cb = FailureThreshold cfg
  /\ config cb = config (NewCircuitBreaker cfg).
Proof.
  intros Hn Hlen. cbv zeta.
  destruct (RecordFailures_below cfg ts) as (Hst & Hf & Hc); [lia | lia |].
  rewrite RecordFailures_snoc. unfold RecordFailure.
  rewrite Hst, Hf, Hc. cbn [String.eqb StateClosed StateHalfOpen Ascii.eqb Bool.eqb].
  cbn [state lastFailureTime failures config]. rewrite NewCircuitBreaker_threshold.
  rewrite wrap64_small by (unfold minInt64, maxInt64 in *; lia).
  destruct (Z.leb_spec (FailureThreshold cfg) (Z.of_nat (length ts) + 1)); [|lia].
  split_and!; try done.
Qed.

(** Successes in half-open below the number of probes: the breaker stays
    half-open and counts them. *)
Lemma RecordSuccesses_half_open cb (k : nat) :
  state cb = StateHalfOpen -> successes cb = 0 ->
  Z.of_nat k < HalfOpenMaxAttempts (config cb) ->
  HalfOpenMaxAttempts (config cb) <= maxInt64 ->
  let cbk := Nat.iter k RecordSuccess cb in
  state cbk = StateHalfOpen /\ successes cbk = Z.of_nat k
  /\ config cbk = config cb /\ lastFailureTime cbk = lastFailureTime cb.
Proof.
  intros Hst Hs. induction k as [|k IH]; intros Hk Hmax; [done|].
  destruct IH as (Hst' & Hs' & Hc' & Hl'); [lia | done |].
  cbv zeta.
  change (Nat.iter (S k) RecordSuccess cb)
    with (RecordSuccess (Nat.iter k RecordSuccess cb)).
  rewrite RecordSuccess_half_open by done.
  cbn [state successes config lastFailureTime]. rewrite Hs', Hc'.
  rewrite wrap64_small by (unfold minInt64, maxInt64 in *; lia).
  destruct (Z.leb_spec (HalfOpenMaxAttempts (config cb)) (Z.of_nat k + 1)); [lia|].
  split_and!; try done. lia.
Qed.

(** The success that reaches the number of probes closes the breaker. *)
Lemma RecordSuccesses_closes cb (k : nat) :
  state cb = StateHalfOpen -> successes cb = 0 ->
  Z.of_nat (S k) = HalfOpenMaxAttempts (config cb) ->
  HalfOpenMaxAttempts (config cb) <= maxInt64 ->
  let cb' := Nat.iter (S k) RecordSuccess cb in
  state cb' = StateClosed /\ failures cb' = 0
  /\ successes cb' = HalfOpenMaxAttempts (config cb)
  /\ config cb' = config cb.
Proof.
  intros Hst Hs Hk Hmax.
  destruct (RecordSuccesses_half_open cb k Hst Hs) as (Hst' & Hs' & Hc' & _);
    [lia | done |].
  cbv zeta.
  change (Nat.iter (S k) RecordSuccess cb)
    with (RecordSuccess (Nat.iter k RecordSuccess cb)).
  rewrite RecordSuccess_half_open by done.
  cbn [state successes config failures]. rewrite Hs', Hc'.
  rewrite wrap64_small by (unfold minInt64, maxInt64 in *; lia).
  destruct (Z.leb_spec (HalfOpenMaxAttempts (config cb)) (Z.of_nat k + 1)); [|lia].
  split_and!; try done. lia.
Qed.

End CircuitBreakerProofs.

(** C2.  [NewCircuitBreaker] returns a closed breaker that has counted
    nothing and keeps the threshold and the reset time-out it is given,
    with [HalfOpenMaxAttempts] raised to 1 when it is given less.  With
    [FailureThreshold = n], [n >= 1]: after fewer than [n] consecutive
    [RecordFailure] calls the breaker is still closed and lets requests
    through; the [n]-th opens it.  The breaker so opened answers
    [AllowRequest] with false, and stays as it is, as long as the time
    since the last failure does not exceed the reset time-out given; once
    it does, [AllowRequest] answers true and the breaker is half-open with
    no success counted.  From there, with [m] the number of probes, fewer
    than [m] calls of [RecordSuccess] leave it half-open with that many
    successes counted, the [m]-th closes it with no failure counted, and a
    [RecordFailure] before that opens it again, recording its instant.
    The steps also hold one by one of every breaker in the state named,
    however it got there. *)
Theorem circuit_breaker_cycle (cfg : Webhook.CircuitBreakerConfig) (n : Z) :
  Webhook.FailureThreshold cfg = n ->
  1 <= n <= maxInt64 ->
  Webhook.HalfOpenMaxAttempts cfg <= maxInt64 ->
  let cb0 := Webhook.NewCircuitBreaker cfg in
  let m := Z.max 1 (Webhook.HalfOpenMaxAttempts cfg) in
  (Webhook.state cb0 = Webhook.StateClosed
   /\ Webhook.failures cb0 = 0 /\ Webhook.successes cb0 = 0
   /\ Webhook.FailureThreshold (Webhook.config cb0) = n
   /\ Webhook.ResetTimeout (Webhook.config cb0) = Webhook.ResetTimeout cfg
   /\ Webhook.HalfOpenMaxAttempts (Webhook.config cb0) = m)
  /\ (forall ts : list Time,
        Z.of_nat (length ts) < n ->
        let cb := Webhook.RecordFailures ts cb0 in
        Webhook.state cb = Webhook.StateClosed
        /\ Webhook.failures cb = Z.of_nat (length ts)
        /\ forall now, Webhook.AllowRequest now cb = (true, cb))
  /\ (forall (ts : list Time) (t : Time),
        Z.of_nat (length ts) + 1 = n ->
        let cb := Webhook.RecordFailures (ts ++ [t]) cb0 in
        Webhook.state cb = Webhook.StateOpen
        /\ Webhook.lastFailureTime cb = t
        /\ (forall now,
              Since now t <= Webhook.ResetTimeout cfg ->
              Webhook.AllowRequest now cb = (false, cb))
        /\ (forall now,
              Webhook.ResetTimeout cfg < Since now t ->
              let probing := (Webhook.AllowRequest now cb).2 in
              (Webhook.AllowRequest now cb).1 = true
              /\ Webhook.state probing = Webhook.StateHalfOpen
              /\ Webhook.successes probing = 0
              /\ (forall k : nat,
                    Z.of_nat k < m ->
                    let cbk := Nat.iter k Webhook.RecordSuccess probing in
                    Webhook.state cbk = Webhook.StateHalfOpen
                    /\ Webhook.successes cbk = Z.of_nat k
                    /\ forall now',
                         Webhook.state (Webhook.RecordFailure now' cbk)
                           = Webhook.StateOpen
                         /\ Webhook.lastFailureTime (Webhook.RecordFailure now' cbk)
                            = now')
              /\ (let closed := Nat.iter (Z.to_nat m) Webhook.RecordSuccess probing in
                  Webhook.state closed = Webhook.StateClosed
                  /\ Webhook.failures closed = 0
                  /\ Webhook.successes closed = m)))
  /\ (forall ts : list Time,
        Z.of_nat (length ts) = n ->
        Webhook.state (Webhook.RecordFailures ts cb0) = Webhook.StateOpen)
  /\ (forall (cb : Webhook.CircuitBreaker) (now : Time),
        Webhook.state cb = Webhook.StateOpen ->
        (Since now (Webhook.lastFailureTime cb)
           <= Webhook.ResetTimeout (Webhook.config cb) ->
         Webhook.AllowRequest now cb = (false, cb))
        /\ (Webhook.ResetTimeout (Webhook.config cb)
              < Since now (Webhook.lastFailureTime cb) ->
            (Webhook.AllowRequest now cb).1 = true
            /\ Webhook.state (Webhook.AllowRequest now cb).2 = Webhook.StateHalfOpen
            /\ Webhook.successes (Webhook.AllowRequest now cb).2 = 0
            /\ Webhook.config (Webhook.AllowRequest now cb).2 = Webhook.config cb))
  /\ (forall cb : Webhook.CircuitBreaker,
        Webhook.state cb = Webhook.StateHalfOpen ->
        let cb' := Webhook.RecordSuccess cb in
        Webhook.successes cb' = wrap64 (Webhook.successes cb + 1)
        /\ (minInt64 <= Webhook.successes cb < maxInt64 ->
            Webhook.successes cb' = Webhook.successes cb + 1)
        /\ (Webhook.HalfOpenMaxAttempts (Webhook.config cb) <= Webhook.successes cb' ->
            Webhook.state cb' = Webhook.StateClosed /\ Webhook.failures cb' = 0)
        /\ (Webhook.successes cb' < Webhook.HalfOpenMaxAttempts (Webhook.config cb) ->
            Webhook.state cb' = Webhook.StateHalfOpen)
        /\ (forall now : Time,
              Webhook.state (Webhook.RecordFailure now cb) = Webhook.StateOpen
              /\ Webhook.lastFailureTime (Webhook.RecordFailure now cb) = now))
  /\ 1 <= Webhook.HalfOpenMaxAttempts (Webhook.config cb0).
Proof.
  intros Hn Hrange Hmax. subst n. cbv zeta.
  destruct (NewCircuitBreaker_config cfg) as (Hthr & Hto & Hm).
  split; [by split_and!|]. split_and!.
  - intros ts Hlen.
    destruct (RecordFailures_below cfg ts) as (Hst & Hf & _); [lia | lia |].
    split; [exact Hst|]. split; [exact Hf|].
    intros now. unfold Webhook.AllowRequest. by rewrite Hst.
  - intros ts t Hlen.
    destruct (RecordFailures_opens_at cfg ts t Hrange Hlen) as (Hst & Hlast & _ & Hc).
    set (cb := Webhook.RecordFailures (ts ++ [t]) (Webhook.NewCircuitBreaker cfg)) in *.
    assert (Webhook.ResetTimeout (Webhook.config cb) = Webhook.ResetTimeout cfg) as Hto'
      by (by rewrite Hc).
    split; [exact Hst|]. split; [exact Hlast|]. split.
    + intros now Hle. apply AllowRequest_open_early; [done|]. by rewrite Hlast, Hto'.
    + intros now Hlt.
      rewrite AllowRequest_open_late by (by rewrite ?Hlast, ?Hto').
      cbn [fst snd].
      set (probing := Webhook.mkCircuitBreaker _ _ _ _ _).
      assert (Webhook.HalfOpenMaxAttempts (Webhook.config probing)
              = Z.max 1 (Webhook.HalfOpenMaxAttempts cfg)) as Hprobes
        by (unfold probing; cbn; by rewrite Hc).
      split; [done|]. split; [done|]. split; [done|]. split.
      * intros k Hk.
        destruct (RecordSuccesses_half_open probing k eq_refl eq_refl)
          as (Hst' & Hs' & _); [lia | lia |].
        split; [exact Hst'|]. split; [exact Hs'|].
        intros now'. by rewrite RecordFailure_half_open.
      * destruct (Z.to_nat (Z.max 1 (Webhook.HalfOpenMaxAttempts cfg))) as [|k] eqn:Hk;
          [lia|].
        destruct (RecordSuccesses_closes probing k eq_refl eq_refl)
          as (Hst' & Hf' & Hs' & _); [lia | lia |].
        split; [exact Hst'|]. split; [exact Hf'|]. by rewrite Hs'.
  - intros ts Hlen. by apply RecordFailures_opens.
  - intros cb now Hst. split.
    + intros Hle. by apply AllowRequest_open_early.
    + intros Hlt. by rewrite AllowRequest_open_late.
  - intros cb Hst. rewrite RecordSuccess_half_open by done. cbn. split_and!.
    + done.
    + intros Hs. apply wrap64_small. unfold minInt64, maxInt64 in *. lia.
    + intros Hle.
      by destruct (Z.leb_spec (Webhook.HalfOpenMaxAttempts (Webhook.config cb))
                     (wrap64 (Webhook.successes cb + 1))); [|lia].
    + intros Hlt.
      by destruct (Z.leb_spec (Webhook.HalfOpenMaxAttempts (Webhook.config cb))
                     (wrap64 (Webhook.successes cb + 1))); [lia|].
    + intros now. by rewrite RecordFailure_half_open.
  - apply NewCircuitBreaker_clamped.
Qed.

(** The cycle at a breaker with threshold 3, a reset time-out of one
    second and no number of probes given: two failures leave it closed,
    the third opens it; half a second after the last failure a request is
    refused, two seconds after it a request is let through and the breaker
    is half-open; one success then closes it, a failure opens it again. *)
Lemma circuit_breaker_cycle_witness :
  let cfg := Webhook.mkCircuitBreakerConfig 3 Second 0 in
  let cb0 := Webhook.NewCircuitBreaker cfg in
  let opened := Webhook.RecordFailures ([10; 20] ++ [30]) cb0 in
  let probing := (Webhook.AllowRequest (30 + 2 * Second) opened).2 in
  Webhook.state (Webhook.RecordFailures [10; 20] cb0) = Webhook.StateClosed
  /\ Webhook.state opened = Webhook.StateOpen
  /\ Webhook.AllowRequest (30 + 500 * Millisecond) opened = (false, opened)
  /\ (Webhook.AllowRequest (30 + 2 * Second) opened).1 = true
  /\ Webhook.state probing = Webhook.StateHalfOpen
  /\ Webhook.state (Nat.iter 1 Webhook.RecordSuccess probing) = Webhook.StateClosed
  /\ Webhook.state (Webhook.RecordFailure (31 + 2 * Second) probing) = Webhook.StateOpen.
Proof.
  intros cfg cb0 opened probing.
  destruct (circuit_breaker_cycle cfg 3 eq_refl
              ltac:(vm_compute; split; discriminate) ltac:(vm_compute; discriminate))
    as (_ & Hbelow & Hat & _).
  destruct (Hbelow [10; 20] ltac:(cbn; lia)) as (Hclosed & _).
  destruct (Hat [10; 20] 30 eq_refl) as (Hopen & _ & Hearly & Hlate).
  destruct (Hlate (30 + 2 * Second) ltac:(vm_compute; reflexivity))
    as (Htrue & Hprobe & _ & Hhalf & Hclose).
  destruct (Hhalf 0%nat ltac:(cbn; lia)) as (_ & _ & Hfail).
  split; [exact Hclosed|]. split; [exact Hopen|].
  split; [apply Hearly; vm_compute; discriminate|].
  split; [exact Htrue|]. split; [exact Hprobe|].
  split; [exact (proj1 Hclose)|]. exact (proj1 (Hfail (31 + 2 * Second))).
Defined.

(** The test of the repository, step by step: threshold 2, time-out 10 ms,
    one probe; two failures at 0, a request at 20 ms, a success. *)
Example circuit_breaker_half_open_run :
  let cb0 := Webhook.NewCircuitBreaker
               (Webhook.mkCircuitBreakerConfig 2 (10 * Millisecond) 1) in
  let cb2 := Webhook.RecordFailures [0; 0] cb0 in
  let r := Webhook.AllowRequest (20 * Millisecond) cb2 in
  Webhook.state cb2 = Webhook.StateOpen
  /\ Webhook.AllowRequest (5 * Millisecond) cb2 = (false, cb2)
  /\ r.1 = true /\ Webhook.state r.2 = Webhook.StateHalfOpen
  /\ Webhook.state (Webhook.RecordSuccess r.2) = Webhook.StateClosed
  /\ Webhook.state (Webhook.RecordFailure (21 * Millisecond) r.2) = Webhook.StateOpen.
Proof. vm_compute. repeat split. Qed.

(** ** The failure handling of the deliverer *)

Section HandleFailureProofs.
Import Webhook.

Variable json_Marshal : Envelope -> Result string.

Lemma shl_one (s : Z) : 0 <= s <= 62 -> shl 1 s = Some (2 ^ s).
Proof.
  intros Hs. unfold shl.
  destruct (Z.ltb_spec s 0); [lia|].
  destruct (Z.leb_spec 64 s); [lia|].
  rewrite Z.shiftl_1_l. f_equal. apply wrap64_small.
  unfold minInt64, maxInt64.
  assert (2 ^ s <= 2 ^ 62) by (apply Z.pow_le_mono_r; lia).
  assert (0 < 2 ^ s) by (apply Z.pow_pos_nonneg; lia). lia.
Qed.

Lemma handleFailure_exhausted cfg pool wh env attempt errMsg :
  MaxRetries cfg <= attempt ->
  handleFailure json_Marshal cfg pool wh env attempt errMsg =
    Some (DeadLetterCreated
            (mkDeadLetter (WebhookEndpoint_ID wh) (Envelope_ID env) (Envelope_Type env)
               (match json_Marshal env with Ok b => b | Err _ => "" end)
               errMsg attempt true)).
Proof.
  intros H. unfold handleFailure.
  by destruct (Z.leb_spec (MaxRetries cfg) attempt); [|lia].
Qed.

Lemma handleFailure_retry cfg pool wh env attempt errMsg :
  attempt < MaxRetries cfg ->
  1 <= attempt <= 63 ->
  minInt64 <= BackoffInitialSec cfg * 2 ^ (attempt - 1) <= maxInt64 ->
  let secs := Z.min (BackoffInitialSec cfg * 2 ^ (attempt - 1)) (BackoffMaxSec cfg) in
  minInt64 <= secs * Second <= maxInt64 ->
  handleFailure json_Marshal cfg pool wh env attempt errMsg =
    Some (match pool with
          | Some pl =>
            if Submit_accepts pl then RetrySubmitted (secs * Second) (attempt + 1)
            else RetryDropped
          | None => RetryTimer (secs * Second) (attempt + 1)
          end).
Proof.
  intros Hlt Ha Hb secs Hd. unfold handleFailure.
  destruct (Z.leb_spec (MaxRetries cfg) attempt); [lia|].
  rewrite (wrap64_small (attempt - 1)) by (unfold minInt64, maxInt64; lia).
  rewrite shl_one by lia.
  rewrite (wrap64_small (BackoffInitialSec cfg * 2 ^ (attempt - 1))) by done.
  rewrite (wrap64_small (attempt + 1)) by (unfold minInt64, maxInt64; lia).
  assert ((if BackoffMaxSec cfg <? BackoffInitialSec cfg * 2 ^ (attempt - 1)
           then BackoffMaxSec cfg
           else BackoffInitialSec cfg * 2 ^ (attempt - 1)) = secs) as ->.
  { subst secs. destruct (Z.ltb_spec (BackoffMaxSec cfg)
                            (BackoffInitialSec cfg * 2 ^ (attempt - 1))); lia. }
  rewrite (wrap64_small (secs * Second)) by done.
  destruct pool as [pl|]; [destruct (Submit_accepts pl)|]; done.
Qed.

End HandleFailureProofs.

(** C3, as the code has it.  A failed attempt [a] with [a >= max-retries]
    schedules no retry and asks the repository to create a dead letter with
    the JSON of the envelope (empty if the envelope does not serialize), the
    last error message, [attempts = a] and [replayable = true].  A failed
    attempt [a < max-retries] creates no dead letter; as long as the
    computation of the delay stays inside 64 bits ([1 <= a <= 63], the
    product and the duration in range) the retry carries the attempt number
    [a + 1] and the delay [min(initial * 2^(a-1), max)] seconds; it is
    handed to the worker pool, which may refuse it, in which case it is
    dropped, or to a timer when there is no pool. *)
Theorem handleFailure_outcome
    (json_Marshal : Webhook.Envelope -> Result string)
    (cfg : Webhook.DelivererConfig) (pool : option Webhook.WorkerPool)
    (wh : Webhook.WebhookEndpoint) (env : Webhook.Envelope) (a : Z) (errMsg : string) :
  (Webhook.MaxRetries cfg <= a ->
   exists o,
     Webhook.handleFailure json_Marshal cfg pool wh env a errMsg = Some o
     /\ Webhook.scheduledRetry o = None
     /\ Webhook.createdDeadLetter o =
        Some (Webhook.mkDeadLetter (Webhook.WebhookEndpoint_ID wh)
                (Webhook.Envelope_ID env) (Webhook.Envelope_Type env)
                (match json_Marshal env with Ok b => b | Err _ => "" end)
                errMsg a true))
  /\ (a < Webhook.MaxRetries cfg ->
      1 <= a <= 63 ->
      minInt64 <= Webhook.BackoffInitialSec cfg * 2 ^ (a - 1) <= maxInt64 ->
      let secs :=
        Z.min (Webhook.BackoffInitialSec cfg * 2 ^ (a - 1)) (Webhook.BackoffMaxSec cfg) in
      minInt64 <= secs * Second <= maxInt64 ->
      exists o,
        Webhook.handleFailure json_Marshal cfg pool wh env a errMsg = Some o
        /\ Webhook.createdDeadLetter o = None
        /\ match pool with
           | Some pl =>
             if Webhook.Submit_accepts pl
             then Webhook.scheduledRetry o = Some (secs * Second, a + 1)
             else o = Webhook.RetryDropped
           | None => Webhook.scheduledRetry o = Some (secs * Second, a + 1)
           end).
Proof.
  split.
  - intros H. eexists. split; [by apply handleFailure_exhausted|]. done.
  - intros Hlt Ha Hb secs Hd. eexists.
    split; [by apply handleFailure_retry|].
    destruct pool as [pl|]; [destruct (Webhook.Submit_accepts pl)|]; done.
Qed.

(** Under the sample configuration (five attempts, one second at first, 300
    at most) and with a free pool: the first failed attempt is retried after
    one second as attempt 2, the fifth leaves a dead letter. *)
Lemma handleFailure_outcome_witness :
  (exists o,
     Webhook.handleFailure Samples.marshal Samples.retryConfig (Some Samples.freePool)
       Samples.endpoint Samples.envelope 1 "HTTP 500" = Some o
     /\ Webhook.createdDeadLetter o = None
     /\ Webhook.scheduledRetry o = Some (1 * Second, 2))
  /\ (exists o,
        Webhook.handleFailure Samples.marshal Samples.retryConfig (Some Samples.freePool)
          Samples.endpoint Samples.envelope 5 "HTTP 500" = Some o
        /\ Webhook.scheduledRetry o = None
        /\ Webhook.createdDeadLetter o =
           Some (Webhook.mkDeadLetter "wh1" "ev1" "webhook.test"
                   "{id:ev1,type:webhook.test}" "HTTP 500" 5 true)).
Proof.
  split.
  - apply (proj2 (handleFailure_outcome Samples.marshal Samples.retryConfig
                    (Some Samples.freePool) Samples.endpoint Samples.envelope 1 "HTTP 500")).
    + reflexivity.
    + vm_compute. split; discriminate.
    + vm_compute. split; discriminate.
    + vm_compute. split; discriminate.
  - apply (proj1 (handleFailure_outcome Samples.marshal Samples.retryConfig
                    (Some Samples.freePool) Samples.endpoint Samples.envelope 5 "HTTP 500")).
    vm_compute. discriminate.
Defined.

(** C3 as stated fails: with [a = 1 < max-retries = 5] and a worker pool that
    refuses the submission, no retry is scheduled (and no dead letter is
    created). *)
Lemma handleFailure_pool_full_no_retry :
  1 < Webhook.MaxRetries Samples.retryConfig
  /\ Webhook.handleFailure Samples.marshal Samples.retryConfig (Some Samples.fullPool)
       Samples.endpoint Samples.envelope 1 "HTTP 500" = Some Webhook.RetryDropped
  /\ Webhook.scheduledRetry Webhook.RetryDropped = None.
Proof. vm_compute. repeat split. Qed.

(** Beyond 64 bits the shift wraps: attempt 65 of 100 is retried at once,
    not after [min(2^64, 300) = 300] seconds. *)
Example handleFailure_shift_overflow :
  Webhook.handleFailure Samples.marshal Samples.longRetryConfig None
    Samples.endpoint Samples.envelope 65 "HTTP 500" = Some (Webhook.RetryTimer 0 66)
  /\ Z.min (Webhook.BackoffInitialSec Samples.longRetryConfig * 2 ^ (65 - 1))
       (Webhook.BackoffMaxSec Samples.longRetryConfig) = 300.
Proof. vm_compute. repeat split. Qed.

(** ** Sessions *)

Section SessionProofs.
Import Dialog.

Lemma len_nonneg {A} (l : list A) : 0 <= len l.
Proof. unfold len. lia. Qed.

Lemma len_app {A} (l k : list A) : len (l ++ k) = len l + len k.
Proof. unfold len. rewrite length_app. lia. Qed.

Lemma len_drop {A} (n : Z) (l : list A) :
  0 <= n <= len l -> len (drop (Z.to_nat n) l) = len l - n.
Proof. unfold len. intros H. rewrite length_drop. lia. Qed.

(** Below the cap the record is appended. *)
Lemma RecordTransition_below now from to trigger s :
  len (History s) < maxHistory s ->
  RecordTransition now from to trigger s =
    Some (mkSession (maxHistory s) (ID s) (DialogName s) to (Variables s)
            (History s ++ [mkStateRecord from to trigger now])
            (StartTime s) (LastEvent s) (LastResult s)).
Proof.
  intros H. unfold RecordTransition.
  by destruct (Z.leb_spec (maxHistory s) (len (History s))); [lia|].
Qed.

(** At the cap, with a cap of ten or more, a tenth of the cap goes. *)
Lemma RecordTransition_at_cap now from to trigger s :
  10 <= maxHistory s ->
  maxHistory s <= len (History s) ->
  RecordTransition now from to trigger s =
    Some (mkSession (maxHistory s) (ID s) (DialogName s) to (Variables s)
            (drop (Z.to_nat (maxHistory s / 10)) (History s)
               ++ [mkStateRecord from to trigger now])
            (StartTime s) (LastEvent s) (LastResult s)).
Proof.
  intros Hcap H. unfold RecordTransition.
  destruct (Z.leb_spec (maxHistory s) (len (History s))); [|lia].
  rewrite Z.quot_div_nonneg by lia.
  assert (1 <= maxHistory s / 10) by (apply Z.div_le_lower_bound; lia).
  assert (maxHistory s / 10 <= maxHistory s)
    by (apply Z.div_le_upper_bound; lia).
  destruct (Z.ltb_spec (maxHistory s / 10) 1); [lia|].
  by destruct (Z.ltb_spec (len (History s)) (maxHistory s / 10)); [lia|].
Qed.

(** With a cap below ten the guard of the source evicts one entry. *)
Lemma RecordTransition_small_cap now from to trigger s :
  1 <= maxHistory s < 10 ->
  maxHistory s <= len (History s) ->
  RecordTransition now from to trigger s =
    Some (mkSession (maxHistory s) (ID s) (DialogName s) to (Variables s)
            (drop 1 (History s) ++ [mkStateRecord from to trigger now])
            (StartTime s) (LastEvent s) (LastResult s)).
Proof.
  intros Hcap H. unfold RecordTransition.
  destruct (Z.leb_spec (maxHistory s) (len (History s))); [|lia].
  rewrite Z.quot_div_nonneg by lia.
  rewrite Z.div_small by lia. cbn.
  by destruct (Z.ltb_spec (len (History s)) 1); [lia|].
Qed.

Lemma NewSession_cap now id d st : maxHistory (NewSession now id d st) = 1000.
Proof. reflexivity. Qed.

End SessionProofs.

(** C4.  On a session whose cap is at least ten (the cap of every session
    [NewSession] makes is 1000), [RecordTransition now from to trigger]
    returns, sets the current state to [to], changes nothing but the current
    state and the history, and appends exactly one record, [(from, to,
    trigger, now)], at the end of the history.  Below the cap nothing else
    happens to the history.  At the cap the oldest [cap / 10] records are
    evicted first, so that the history goes from [n] to [n - cap / 10 + 1]
    records. *)
Theorem RecordTransition_history
    (now : Time) (from to trigger : string) (s : Dialog.Session) :
  10 <= Dialog.maxHistory s ->
  exists s',
    Dialog.RecordTransition now from to trigger s = Some s'
    /\ Dialog.CurrentState s' = to
    /\ Dialog.maxHistory s' = Dialog.maxHistory s
    /\ Dialog.ID s' = Dialog.ID s
    /\ Dialog.Variables s' = Dialog.Variables s
    /\ (len (Dialog.History s) < Dialog.maxHistory s ->
        Dialog.History s' =
          Dialog.History s ++ [Dialog.mkStateRecord from to trigger now])
    /\ (Dialog.maxHistory s <= len (Dialog.History s) ->
        Dialog.History s' =
          drop (Z.to_nat (Dialog.maxHistory s / 10)) (Dialog.History s)
            ++ [Dialog.mkStateRecord from to trigger now]
        /\ len (Dialog.History s') =
           len (Dialog.History s) - Dialog.maxHistory s / 10 + 1).
Proof.
  intros Hcap.
  destruct (Z.lt_ge_cases (len (Dialog.History s)) (Dialog.maxHistory s)) as [Hlt|Hge].
  - eexists. split; [by apply RecordTransition_below|].
    cbn. repeat split; try done; intros; exfalso; lia.
  - eexists. split; [by apply RecordTransition_at_cap|].
    cbn. repeat split; try done; [intros; exfalso; lia|].
    rewrite len_app, len_drop; [unfold len at 2; cbn; lia|].
    split; [apply Z.div_pos; lia|].
    etrans; [|exact Hge]. apply Z.div_le_upper_bound; lia.
Qed.

(** A session at the default cap with 1000 records keeps 901: the 900
    youngest and the new one. *)
Lemma RecordTransition_history_witness :
  exists s',
    Dialog.RecordTransition 2 "handle" "goodbye" "bye" Samples.fullSession = Some s'
    /\ Dialog.CurrentState s' = "goodbye"
    /\ len (Dialog.History s') = 901.
Proof.
  destruct (RecordTransition_history 2 "handle" "goodbye" "bye" Samples.fullSession)
    as (s' & Hs & Hst & _ & _ & _ & _ & Hcap).
  - vm_compute. discriminate.
  - exists s'. split; [exact Hs|]. split; [exact Hst|].
    destruct Hcap as [_ Hlen]; [vm_compute; discriminate|].
    rewrite Hlen. reflexivity.
Defined.

(** ** Transition evaluation *)

Section TransitionProofs.
Import Dialog Notions.

Variable template_Execute : string -> Session -> Result string.

Lemma EvalCondition_matches event session t :
  matches template_Execute event session t ->
  EvalCondition template_Execute (Condition t) session = Ok true.
Proof.
  intros [_ [Hc|(out & Hr & Hh)]]; unfold EvalCondition.
  - by rewrite Hc.
  - destruct (String.eqb (Condition t) ""); [done|].
    rewrite Hr. f_equal. exact Hh.
Qed.

Lemma evaluateLoop_passedOver event session t rest :
  passedOver template_Execute event session t ->
  evaluateLoop template_Execute (t :: rest) event session
  = evaluateLoop template_Execute rest event session.
Proof.
  intros [Hne|(Hc & out & Hr & Hh)]; cbn.
  - apply String.eqb_neq in Hne. by rewrite Hne.
  - destruct (String.eqb (Event t) event); [|done]. cbn.
    unfold EvalCondition. apply String.eqb_neq in Hc. rewrite Hc, Hr.
    unfold holds in Hh. cbv zeta in Hh. by rewrite Hh.
Qed.

Lemma evaluateLoop_skip event session pre rest :
  Forall (passedOver template_Execute event session) pre ->
  evaluateLoop template_Execute (pre ++ rest) event session
  = evaluateLoop template_Execute rest event session.
Proof.
  induction 1 as [|t pre Ht _ IH]; [done|].
  rewrite <- app_comm_cons, evaluateLoop_passedOver by done. exact IH.
Qed.

Lemma evaluateLoop_match event session t rest :
  matches template_Execute event session t ->
  evaluateLoop template_Execute (t :: rest) event session = Ok (Target t, Actions t).
Proof.
  intros Hm. cbn. rewrite (EvalCondition_matches _ _ _ Hm).
  destruct Hm as [He _]. apply String.eqb_eq in He. by rewrite He.
Qed.

Lemma evaluateLoop_error event session t rest e :
  failsToRender template_Execute event session t e ->
  evaluateLoop template_Execute (t :: rest) event session
  = Err (ErrorfW "eval condition %q: %w" [ArgS (Condition t)] e).
Proof.
  intros (He & Hc & Hr). cbn.
  apply String.eqb_eq in He. rewrite He. cbn.
  unfold EvalCondition. apply String.eqb_neq in Hc. by rewrite Hc, Hr.
Qed.

(** Every transition matches, is passed over, or fails to render. *)
Lemma transition_cases event session t :
  matches template_Execute event session t
  \/ passedOver template_Execute event session t
  \/ exists e, failsToRender template_Execute event session t e.
Proof.
  unfold matches, passedOver, failsToRender.
  destruct (String.eqb_spec (Event t) event) as [He|He]; [|by right; left; left].
  destruct (String.eqb_spec (Condition t) "") as [Hc|Hc]; [by left; split; [|left]|].
  destruct (renderTemplate template_Execute (Condition t) session) as [out|e] eqn:Hr.
  - destruct (holds out) eqn:Hh.
    + left. split; [done|]. right. by exists out.
    + right. left. right. split; [done|]. by exists out.
  - right. right. by exists e.
Qed.

(** So every evaluation falls under one of the three cases of the theorem
    below: all transitions are passed over, or the first that is not either
    matches or fails to render. *)
Lemma transitions_split event session (ts : list Transition) :
  Forall (passedOver template_Execute event session) ts
  \/ exists pre t post,
       ts = pre ++ t :: post
       /\ Forall (passedOver template_Execute event session) pre
       /\ (matches template_Execute event session t
           \/ exists e, failsToRender template_Execute event session t e).
Proof.
  induction ts as [|t ts IH]; [by left|].
  destruct (transition_cases event session t) as [Hm|[Hp|He]].
  - right. exists [], t, ts. split; [done|]. split; [constructor | by left].
  - destruct IH as [Hall|(pre & t' & post & -> & Hpre & Ht')].
    + left. by constructor.
    + right. exists (t :: pre), t', post. split; [done|]. split; [by constructor|done].
  - right. exists [], t, ts. split; [done|]. split; [constructor | by right].
Qed.

End TransitionProofs.

(** C5, as the code has it.  [EvaluateTransitions] examines the transitions
    of the state in the order of their declaration.  A transition for
    another event is skipped, and so is one whose condition renders to a
    text that, trimmed, is empty, [false] or [<no value>].  The first
    transition for the event whose condition is empty or renders to any
    other text gives the result: its target and its actions.  If every
    transition is skipped the result is the empty target, no actions and no
    error.  If, before any transition has matched, the condition of a
    transition for the event fails to render, the evaluation stops with
    that error, wrapped, and no later transition is examined. *)
Theorem EvaluateTransitions_first_match
    (template_Execute : string -> Dialog.Session -> Result string)
    (state : Dialog.State) (event : string) (session : Dialog.Session) :
  (forall pre t post,
      Dialog.Transitions state = pre ++ t :: post ->
      Forall (Notions.passedOver template_Execute event session) pre ->
      Notions.matches template_Execute event session t ->
      Dialog.EvaluateTransitions template_Execute state event session
      = Ok (Dialog.Target t, Dialog.Actions t))
  /\ (Forall (Notions.passedOver template_Execute event session)
        (Dialog.Transitions state) ->
      Dialog.EvaluateTransitions template_Execute state event session = Ok ("", []))
  /\ (forall pre t post e,
        Dialog.Transitions state = pre ++ t :: post ->
        Forall (Notions.passedOver template_Execute event session) pre ->
        Notions.failsToRender template_Execute event session t e ->
        Dialog.EvaluateTransitions template_Execute state event session
        = Err (ErrorfW "eval condition %q: %w" [ArgS (Dialog.Condition t)] e)).
Proof.
  unfold Dialog.EvaluateTransitions. repeat split.
  - intros pre t post -> Hpre Ht.
    rewrite evaluateLoop_skip by done. by apply evaluateLoop_match.
  - intros Hall. rewrite <- (app_nil_r (Dialog.Transitions state)).
    by rewrite evaluateLoop_skip.
  - intros pre t post e -> Hpre Ht.
    rewrite evaluateLoop_skip by done. by apply evaluateLoop_error.
Qed.

(** On the sample state, a speech event passes over the DTMF transition and
    the three conditions that do not hold, and takes the fifth transition;
    an event no transition is for gives the empty target; and on the state
    whose first condition does not render the evaluation ends with the
    error. *)
Lemma EvaluateTransitions_first_match_witness :
  Dialog.EvaluateTransitions Samples.execute Samples.conditions "speech" Samples.session0
  = Ok ("yes", [Samples.sayHello])
  /\ Dialog.EvaluateTransitions Samples.execute Samples.conditions "hook_result"
       Samples.session0 = Ok ("", [])
  /\ Dialog.EvaluateTransitions Samples.execute Samples.brokenFirst "speech"
       Samples.session0
     = Err (ErrorfW "eval condition %q: %w" [ArgS "{{"]
              (LibError "template: :1: unclosed action")).
Proof.
  split; [|split].
  - apply (proj1 (EvaluateTransitions_first_match Samples.execute Samples.conditions
                    "speech" Samples.session0)
             (take 4 (Dialog.Transitions Samples.conditions))
             (Dialog.mkTransition "speech" " yes " "yes" [Samples.sayHello])
             (drop 5 (Dialog.Transitions Samples.conditions))).
    + reflexivity.
    + cbn [take Samples.conditions Dialog.Transitions].
      apply Forall_cons_2; [left; discriminate|].
      apply Forall_cons_2;
        [right; split; [discriminate|]; exists "  "; split; reflexivity|].
      apply Forall_cons_2;
        [right; split; [discriminate|]; exists " false "; split; reflexivity|].
      apply Forall_cons_2;
        [right; split; [discriminate|]; exists "<no value>"; split; reflexivity|].
      constructor.
    + split; [reflexivity|]. right. exists " yes ". split; reflexivity.
  - apply (proj1 (proj2 (EvaluateTransitions_first_match Samples.execute
                           Samples.conditions "hook_result" Samples.session0))).
    cbn [Samples.conditions Dialog.Transitions].
    repeat (apply Forall_cons_2; [left; discriminate|]). constructor.
  - apply (proj2 (proj2 (EvaluateTransitions_first_match Samples.execute
                           Samples.brokenFirst "speech" Samples.session0))
             [] (Dialog.mkTransition "speech" "{{" "a" [])
             [Dialog.mkTransition "speech" "" "b" [Samples.hangup]]
             (LibError "template: :1: unclosed action")).
    + reflexivity.
    + constructor.
    + split; [reflexivity|]. split; [discriminate | reflexivity].
Defined.

(** C5 as stated fails.  In the sample state the second transition, with an
    empty condition, is the first whose condition holds, and the first
    transition does not match; yet the result is not the target [b]: the
    condition of the first transition does not render and the evaluation
    ends with an error.  With the first transition alone no transition
    matches, and the result is an error, not the empty target. *)
Lemma EvaluateTransitions_render_error :
  Dialog.EvalCondition Samples.execute "" Samples.session0 = Ok true
  /\ isErr (Dialog.EvalCondition Samples.execute "{{" Samples.session0) = true
  /\ Dialog.EvaluateTransitions Samples.execute Samples.brokenFirst "speech"
       Samples.session0
     = Err (ErrorfW "eval condition %q: %w" [ArgS "{{"]
              (LibError "template: :1: unclosed action"))
  /\ Dialog.EvaluateTransitions Samples.execute
       (Dialog.mkState [] [Dialog.mkTransition "speech" "{{" "a" []] "" "" false)
       "speech" Samples.session0
     <> Ok ("", []).
Proof. vm_compute. repeat split. discriminate. Qed.

(** ** StartDialog *)

Section StartDialogProofs.
Import Dialog Handler.

Lemma startSession_fields now req initialState :
  let s := startSession now req initialState in
  ID s = Req_SessionId req /\ CurrentState s = initialState /\ History s = []
  /\ StartTime s = now /\ maxHistory s = DefaultMaxHistory
  /\ DialogName s = Req_DialogName req
  /\ Variables s = Req_Variables req.
Proof.
  unfold startSession.
  apply (map_fold_weak_ind
           (fun (s : Session) (m : gmap string string) =>
              ID s = Req_SessionId req /\ CurrentState s = initialState
              /\ History s = [] /\ StartTime s = now
              /\ maxHistory s = DefaultMaxHistory
              /\ DialogName s = Req_DialogName req /\ Variables s = m)).
  - by cbn.
  - intros k v m s _ (? & ? & ? & ? & ? & ? & Hv). cbn. by rewrite Hv.
Qed.

Lemma StartDialog_ok now loader req store sm state :
  loader !! Req_DialogName req = Some sm ->
  GetState sm (if String.eqb (Req_InitialState req) "" then InitialState sm
               else Req_InitialState req) = Some state ->
  StartDialog now loader req store =
    let initialState :=
      if String.eqb (Req_InitialState req) "" then InitialState sm
      else Req_InitialState req in
    (Ok (mkStartDialogResponse (Req_SessionId req) initialState
           (actionsToDirectives (OnEnter state))),
     <[Req_SessionId req :=
         mkActiveSession (startSession now req initialState) sm [] [] [] false]> store).
Proof.
  intros Hl Hs. unfold StartDialog. rewrite Hl. cbv zeta. rewrite Hs.
  by destruct (startSession_fields now req
                 (if String.eqb (Req_InitialState req) "" then InitialState sm
                  else Req_InitialState req)) as (-> & _).
Qed.

End StartDialogProofs.

(** C1, as the code has it.  [StartDialog] does not look whether the session
    id is in use.  Whenever the dialog is loaded and the initial state
    exists, the call succeeds, whatever the store holds under the id: it
    answers with the id, the initial state and the on-enter actions, and it
    stores under the id a new session, in the initial state, with the
    variables of the request and an empty history.  A session already
    stored under that id is replaced in the store; the sessions stored under
    other ids are untouched. *)
Theorem StartDialog_replaces
    (now : Time) (loader : gmap string Dialog.StateMachine)
    (req : Handler.StartDialogRequest) (store : gmap string Handler.activeSession)
    (sm : Dialog.StateMachine) (state : Dialog.State) (initialState : string) :
  loader !! Handler.Req_DialogName req = Some sm ->
  initialState = (if String.eqb (Handler.Req_InitialState req) ""
                  then Dialog.InitialState sm else Handler.Req_InitialState req) ->
  Dialog.GetState sm initialState = Some state ->
  exists new,
    Handler.StartDialog now loader req store =
      (Ok (Handler.mkStartDialogResponse (Handler.Req_SessionId req) initialState
             (Handler.actionsToDirectives (Dialog.OnEnter state))),
       <[Handler.Req_SessionId req := new]> store)
    /\ Handler.sm new = sm
    /\ Dialog.ID (Handler.session new) = Handler.Req_SessionId req
    /\ Dialog.CurrentState (Handler.session new) = initialState
    /\ Dialog.Variables (Handler.session new) = Handler.Req_Variables req
    /\ Dialog.History (Handler.session new) = []
    /\ Dialog.StartTime (Handler.session new) = now
    /\ (Handler.StartDialog now loader req store).2 !! Handler.Req_SessionId req = Some new
    /\ (forall other, other <> Handler.Req_SessionId req ->
          (Handler.StartDialog now loader req store).2 !! other = store !! other).
Proof.
  intros Hl -> Hs.
  rewrite (StartDialog_ok now loader req store sm state Hl Hs). cbv zeta.
  eexists. split; [reflexivity|].
  destruct (startSession_fields now req
              (if String.eqb (Handler.Req_InitialState req) ""
               then Dialog.InitialState sm else Handler.Req_InitialState req))
    as (? & ? & ? & ? & ? & ? & ?).
  cbn. repeat split; try done.
  - apply lookup_insert_eq.
  - intros other Hne. by apply lookup_insert_ne.
Qed.

(** Two calls with the session id [s1] on the sample loader: the second
    succeeds as well and puts its own session in the place of the first. *)
Lemma StartDialog_replaces_witness :
  let store1 := (Handler.StartDialog 0 Samples.loader Samples.startRequest ∅).2 in
  exists new,
    Handler.StartDialog 5 Samples.loader Samples.secondRequest store1
    = (Ok (Handler.mkStartDialogResponse "s1" "handle" []), <["s1" := new]> store1)
    /\ Dialog.CurrentState (Handler.session new) = "handle"
    /\ Dialog.History (Handler.session new) = [].
Proof.
  intros store1.
  destruct (StartDialog_replaces 5 Samples.loader Samples.secondRequest store1
              (Dialog.NewStateMachine Samples.testDialog)
              (Dialog.mkState [] [Dialog.mkTransition "speech" "" "goodbye" []] "" "" false)
              "handle")
    as (new & Hcall & _ & _ & Hst & _ & Hh & _).
  - reflexivity.
  - reflexivity.
  - reflexivity.
  - exists new. split; [exact Hcall|]. split; [exact Hst | exact Hh].
Defined.

(** C1 as stated fails: after a successful [StartDialog] for [s1], a second
    [StartDialog] for [s1] does not fail, and the state stored for [s1] is no
    longer the one the first call left. *)
Lemma StartDialog_duplicate_succeeds :
  let r1 := Handler.StartDialog 0 Samples.loader Samples.startRequest ∅ in
  let r2 := Handler.StartDialog 5 Samples.loader Samples.secondRequest r1.2 in
  isOk r1.1 = true
  /\ isOk r2.1 = true
  /\ (Dialog.CurrentState ∘ Handler.session) <$> (r1.2 !! "s1") = Some "greeting"
  /\ (Dialog.CurrentState ∘ Handler.session) <$> (r2.2 !! "s1") = Some "handle".
Proof. vm_compute. repeat split. Qed.

(** ** The PLI debouncer *)

(** C10, as the code has it.  For a debouncer whose interval is a duration
    above the least one, [shouldSendPLI] called at [now] answers true if and
    only if [now - last >= interval]: when [now - last] equals the interval
    exactly, the answer is true.  When it answers true it sets [last] to
    [now]; when it answers false it changes nothing. *)
Theorem shouldSendPLI_iff (d : Sfu.pliDebouncer) (now : Time) :
  minInt64 < Sfu.interval d <= maxInt64 ->
  ((Sfu.shouldSendPLI now d).1 = true <-> Sfu.interval d <= now - Sfu.lastPLI d)
  /\ ((Sfu.shouldSendPLI now d).1 = true ->
      (Sfu.shouldSendPLI now d).2 = Sfu.mkPliDebouncer now (Sfu.interval d))
  /\ ((Sfu.shouldSendPLI now d).1 = false -> (Sfu.shouldSendPLI now d).2 = d)
  /\ (now - Sfu.lastPLI d = Sfu.interval d -> (Sfu.shouldSendPLI now d).1 = true).
Proof.
  intros Hi. pose proof (Sub_lt_iff now (Sfu.lastPLI d) (Sfu.interval d) Hi) as Hsub.
  unfold Sfu.shouldSendPLI.
  destruct (Z.ltb_spec (Sub now (Sfu.lastPLI d)) (Sfu.interval d)) as [Hlt|Hge]; cbn.
  - apply Hsub in Hlt. repeat split; try done; intros; lia.
  - assert (~ now - Sfu.lastPLI d < Sfu.interval d) by (intros H; apply Hsub in H; lia).
    repeat split; try done; intros; lia.
Qed.

(** At the sample debouncer, 500 ms after the last PLI, a PLI is sent. *)
Lemma shouldSendPLI_iff_witness :
  (Sfu.shouldSendPLI (500 * Millisecond) Samples.debouncer).1 = true.
Proof.
  apply (proj2 (proj2 (proj2
    (shouldSendPLI_iff Samples.debouncer (500 * Millisecond)
       ltac:(vm_compute; split; [reflexivity | discriminate]))))).
  reflexivity.
Defined.

(** C10 as stated fails: [now - last] is exactly the interval and the answer
    is true, not false. *)
Lemma shouldSendPLI_at_interval :
  500 * Millisecond - Sfu.lastPLI Samples.debouncer = Sfu.interval Samples.debouncer
  /\ Sfu.shouldSendPLI (500 * Millisecond) Samples.debouncer
     = (true, Sfu.mkPliDebouncer (500 * Millisecond) (500 * Millisecond)).
Proof. vm_compute. split; reflexivity. Qed.

(** A new debouncer has never sent a PLI and answers true at once. *)
Example shouldSendPLI_first :
  (Sfu.shouldSendPLI 0 (Sfu.newPLIDebouncer (500 * Millisecond))).1 = true.
Proof. reflexivity. Qed.

(** ** The SVC forwarder *)

Section SVCForwarderProofs.
Import Sfu.

Variable rtp_Unmarshal : list Z -> option (list Z).
Variable vp9_Unmarshal : list Z -> option (Z * Z).

(** What a turn writes is the packet it read, and only if the filter lets
    it pass. *)
Lemma svcTurn_written vp9 sub pkt w :
  w ∈ svcTurn rtp_Unmarshal vp9_Unmarshal vp9 sub pkt ->
  w = pkt
  /\ svcPass rtp_Unmarshal vp9_Unmarshal vp9
       (maxSpatialLayer sub) (maxTemporalLayer sub) pkt = true.
Proof.
  unfold svcTurn, Write.
  destruct (downTrack sub) as [dt|]; [|by intros ?%elem_of_nil].
  destruct (paused sub); [by intros ?%elem_of_nil|].
  destruct (svcPass _ _ _ _ _ _) eqn:Hp; [|by intros ?%elem_of_nil].
  destruct (muted dt); [by intros ?%elem_of_nil|].
  by intros ->%list_elem_of_singleton.
Qed.

(** A VP9 packet that passes a filter with both limits set is within
    both. *)
Lemma svcPass_vp9_within maxS maxT pkt payload sid tid :
  0 <= maxS -> 0 <= maxT ->
  svcPass rtp_Unmarshal vp9_Unmarshal true maxS maxT pkt = true ->
  rtp_Unmarshal pkt = Some payload ->
  vp9_Unmarshal payload = Some (sid, tid) ->
  sid <= maxS /\ tid <= maxT.
Proof.
  intros HS HT Hp Hr Hv. unfold svcPass in Hp. rewrite Hr, Hv in Hp.
  destruct (Z.leb_spec 0 maxS); [|lia]. destruct (Z.leb_spec 0 maxT); [|lia].
  cbn in Hp.
  destruct (Z.ltb_spec maxS sid); [done|].
  destruct (Z.ltb_spec maxT tid); [done|]. lia.
Qed.

Lemma svcLoop_written vp9 turns w :
  w ∈ svcLoop rtp_Unmarshal vp9_Unmarshal vp9 turns ->
  exists t, t ∈ turns /\ readResult t = ReadPacket w
            /\ w ∈ svcTurn rtp_Unmarshal vp9_Unmarshal vp9 (subNow t) w.
Proof.
  induction turns as [|t rest IH]; cbn; [by intros ?%elem_of_nil|].
  destruct (ctxDone t); [by intros ?%elem_of_nil|].
  destruct (readResult t) as [pkt|] eqn:Hr; [|by intros ?%elem_of_nil].
  intros [Hw|Hw]%elem_of_app.
  - pose proof (svcTurn_written _ _ _ _ Hw) as [-> _].
    exists t. split; [by left|]. by split.
  - destruct (IH Hw) as (t' & Hin & Hrd & Hwr).
    exists t'. split; [by right|]. by split.
Qed.

(** Other codecs: no parser is consulted and no limit is read. *)
Lemma svcTurn_other_codec sub pkt :
  svcTurn rtp_Unmarshal vp9_Unmarshal false sub pkt =
    match downTrack sub with
    | Some dt => if paused sub || muted dt then [] else [pkt]
    | None => []
    end.
Proof.
  unfold svcTurn, svcPass, Write. cbn.
  destruct (downTrack sub) as [dt|]; [|done].
  by destruct (paused sub), (muted dt).
Qed.

(** On a track of another codec the loop forwards without any filter,
    as the loop of [RunSimpleForwarder] does. *)
Lemma svcLoop_other_codec turns :
  svcLoop rtp_Unmarshal vp9_Unmarshal false turns = Notions.passedOn turns.
Proof.
  unfold Notions.passedOn.
  induction turns as [|t rest IH]; [done|]. cbn.
  destruct (ctxDone t); [done|]. destruct (readResult t) as [pkt|]; [|done].
  rewrite IH, svcTurn_other_codec. cbn. unfold Notions.forwardable.
  destruct (downTrack (subNow t)) as [dt|]; [|done].
  by destruct (paused (subNow t)), (muted dt).
Qed.

Lemma simpleLoop_passedOn turns : simpleLoop turns = Notions.passedOn turns.
Proof.
  unfold Notions.passedOn.
  induction turns as [|t rest IH]; [done|]. cbn.
  destruct (ctxDone t); [done|]. destruct (readResult t) as [pkt|]; [|done].
  rewrite IH. cbn. unfold simpleTurn, Write, Notions.forwardable.
  destruct (downTrack (subNow t)) as [dt|]; [|done].
  by destruct (paused (subNow t)), (muted dt).
Qed.

End SVCForwarderProofs.

(** C9.  On a track whose MIME type is [video/VP9] or [video/vp9], a
    forwarder whose subscription has, in every turn, the limits [S >= 0]
    and [T >= 0], never writes downstream a packet that parses as VP9 with
    [SID > S] or [TID > T].  On a track of another codec the forwarder
    filters nothing: whatever the limits of the subscription and however
    the packets parse, it writes downstream every packet it reads in a turn
    in which the subscription can be forwarded to, in order and unchanged,
    until a turn finds the context done or fails to read; this is what
    [RunSimpleForwarder] writes on the same turns. *)
Theorem RunSVCForwarder_filter
    (rtp_Unmarshal : list Z -> option (list Z))
    (vp9_Unmarshal : list Z -> option (Z * Z))
    (rem : Sfu.TrackRemote) (turns : list Sfu.Turn) (S T : Z) :
  (Sfu.isVP9 rem = true ->
   0 <= S -> 0 <= T ->
   (forall t, t ∈ turns ->
      Sfu.maxSpatialLayer (Sfu.subNow t) = S /\ Sfu.maxTemporalLayer (Sfu.subNow t) = T) ->
   forall pkt payload sid tid,
     pkt ∈ Sfu.RunSVCForwarder rtp_Unmarshal vp9_Unmarshal rem turns ->
     rtp_Unmarshal pkt = Some payload ->
     vp9_Unmarshal payload = Some (sid, tid) ->
     sid <= S /\ tid <= T)
  /\ (Sfu.isVP9 rem = false ->
      Sfu.RunSVCForwarder rtp_Unmarshal vp9_Unmarshal rem turns = Notions.passedOn turns
      /\ Sfu.RunSVCForwarder rtp_Unmarshal vp9_Unmarshal rem turns
         = Sfu.RunSimpleForwarder turns
      /\ forall sub pkt,
           Sfu.svcTurn rtp_Unmarshal vp9_Unmarshal (Sfu.isVP9 rem) sub pkt =
             match Sfu.downTrack sub with
             | Some dt => if Sfu.paused sub || Sfu.muted dt then [] else [pkt]
             | None => []
             end).
Proof.
  split.
  - intros Hvp9 HS HT Hlim pkt payload sid tid Hin Hr Hv.
    unfold Sfu.RunSVCForwarder in Hin. rewrite Hvp9 in Hin.
    destruct (svcLoop_written _ _ _ _ _ Hin) as (t & Ht & _ & Hw).
    destruct (svcTurn_written _ _ _ _ _ _ Hw) as [_ Hp].
    destruct (Hlim t Ht) as [HSt HTt]. rewrite HSt, HTt in Hp.
    by eapply svcPass_vp9_within.
  - intros Hother. unfold Sfu.RunSVCForwarder, Sfu.RunSimpleForwarder.
    rewrite Hother, svcLoop_other_codec, simpleLoop_passedOn.
    split; [done|]. split; [done|]. intros sub pkt. apply svcTurn_other_codec.
Qed.

(** On the sample VP9 track with limits (1, 1), of the packets of layers
    (0,0), (2,0), (1,2) and (1,1) only the first and the last go
    downstream; on the sample H264 track all four go downstream. *)
Lemma RunSVCForwarder_filter_witness :
  Sfu.RunSVCForwarder Samples.rtpParse Samples.vp9Parse Samples.vp9Remote Samples.turns
  = [[128; 0; 0; 7]; [128; 1; 1; 7]]
  /\ (forall pkt payload sid tid,
        pkt ∈ Sfu.RunSVCForwarder Samples.rtpParse Samples.vp9Parse
                Samples.vp9Remote Samples.turns ->
        Samples.rtpParse pkt = Some payload ->
        Samples.vp9Parse payload = Some (sid, tid) ->
        sid <= 1 /\ tid <= 1)
  /\ Sfu.RunSVCForwarder Samples.rtpParse Samples.vp9Parse Samples.h264Remote
       Samples.turns
     = [[128; 0; 0; 7]; [128; 2; 0; 7]; [128; 1; 2; 7]; [128; 1; 1; 7]].
Proof.
  split; [reflexivity|]. split.
  - apply (proj1 (RunSVCForwarder_filter Samples.rtpParse Samples.vp9Parse
                    Samples.vp9Remote Samples.turns 1 1)).
    + reflexivity.
    + lia.
    + lia.
    + intros t Ht. unfold Samples.turns in Ht.
      repeat (apply elem_of_cons in Ht as [->|Ht]; [split; reflexivity|]).
      by apply elem_of_nil in Ht.
  - rewrite (proj1 (proj2 (RunSVCForwarder_filter Samples.rtpParse Samples.vp9Parse
                             Samples.h264Remote Samples.turns 1 1) eq_refl)).
    reflexivity.
Defined.

(** A paused subscription is not forwarded to, on a track of any codec. *)
Example RunSVCForwarder_paused :
  Sfu.isVP9 Samples.h264Remote = false
  /\ Sfu.RunSVCForwarder Samples.rtpParse Samples.vp9Parse Samples.h264Remote
       [Sfu.mkTurn false (Sfu.ReadPacket [128; 0; 0; 7]) Samples.pausedSub] = [].
Proof. vm_compute. split; reflexivity. Qed.

(** ** Rooms *)

Section RoomProofs.
Import Sfu Notions.

Lemma Subscribe_ok_inv tr pt p q mt ms sub pt' p' :
  Subscribe tr pt p q mt ms = Ok (sub, pt', p') ->
  exists dt,
    sub = NewSubscription pt p dt q mt ms
    /\ pt' = mkPublisherTrack (Track_id pt) (publisher pt) (kind pt) (mimeType pt)
               (simulcast pt) (svc pt) (layers pt)
               (<[Peer_id p := sub]> (subscribers pt))
    /\ p' = mkPeer (Peer_id p) (Peer_metadata p) (<[trackID dt := dt]> (downTracks p))
              (Peer_state p) (peerConfig p) (encryption p).
Proof.
  unfold Subscribe. cbv zeta.
  destruct (match (if simulcast pt then _ else _) with Some _ => _ | None => _ end)
    as [src|]; [|done].
  destruct (if simulcast pt then _ else _) as [dt|e]; [|done].
  unfold AddDownTrack. destruct (pc_AddTrack tr (Peer_id p) dt); [done|].
  intros [= <- <- <-]. by exists dt.
Qed.

(** What [Subscribe] does to the track depends on the subscriber through
    its id only. *)
Lemma Subscribe_same_id tr pt p1 p2 q mt ms :
  Peer_id p1 = Peer_id p2 ->
  match Subscribe tr pt p1 q mt ms, Subscribe tr pt p2 q mt ms with
  | Ok (s1, t1, _), Ok (s2, t2, _) => s1 = s2 /\ t1 = t2
  | Err e1, Err e2 => e1 = e2
  | _, _ => False
  end.
Proof.
  intros Hid. unfold Subscribe. cbv zeta.
  destruct (match (if simulcast pt then _ else _) with Some _ => _ | None => _ end)
    as [src|]; [|done].
  destruct (if simulcast pt then _ else _) as [dt|e]; [|done].
  unfold AddDownTrack, NewSubscription. rewrite Hid.
  by destruct (pc_AddTrack tr (Peer_id p2) dt).
Qed.

Lemma autoSubscribe_id tr st kv :
  Peer_id (autoSubscribe tr st kv).2 = Peer_id st.2.
Proof.
  unfold autoSubscribe. destruct (_ && _); [|done].
  destruct (Subscribe _ _ _ _ _ _) as [[[sub pt'] p']|e] eqn:Hs; [|done].
  by apply Subscribe_ok_inv in Hs as (dt & _ & _ & ->).
Qed.

Lemma autoSubscribe_step tr m p0 p kv :
  Peer_id p = Peer_id p0 ->
  (autoSubscribe tr (m, p) kv).1 =
    match turnResult tr p0 kv.2 with
    | Some pt' => <[kv.1 := pt']> m
    | None => m
    end.
Proof.
  intros Hid. unfold autoSubscribe, turnResult. cbn [fst snd]. rewrite Hid.
  destruct (_ && _); [|done].
  pose proof (Subscribe_same_id tr kv.2 p p0 QualityHigh (-1) (-1) Hid) as Hs.
  destruct (Subscribe tr kv.2 p _ _ _) as [[[s1 t1] q1]|e1],
           (Subscribe tr kv.2 p0 _ _ _) as [[[s2 t2] q2]|e2]; try done.
  by destruct Hs as [_ ->].
Qed.

Lemma autoSubscribe_foldl tr p0 l :
  NoDup l.*1 ->
  forall m p, Peer_id p = Peer_id p0 ->
    let st := foldl (autoSubscribe tr) (m, p) l in
    Peer_id st.2 = Peer_id p0
    /\ (forall k, k ∉ l.*1 -> st.1 !! k = m !! k)
    /\ (forall k pt, (k, pt) ∈ l ->
          st.1 !! k = match turnResult tr p0 pt with
                      | Some pt' => Some pt'
                      | None => m !! k
                      end).
Proof.
  induction l as [|[k0 pt0] l IH]; intros Hnd m p Hid; cbn.
  - split; [done|]. split; [done|]. by intros k pt ?%elem_of_nil.
  - apply NoDup_cons in Hnd as [Hk0 Hnd].
    pose proof (autoSubscribe_step tr m p0 p (k0, pt0) Hid) as Hstep.
    pose proof (autoSubscribe_id tr (m, p) (k0, pt0)) as Hid'.
    destruct (autoSubscribe tr (m, p) (k0, pt0)) as [m1 p1] eqn:Hst.
    cbn [fst snd] in Hstep, Hid'.
    destruct (IH Hnd m1 p1) as (Hi & Hout & Hin); [congruence|].
    split; [done|]. split.
    + intros k [Hne Hk]%not_elem_of_cons. rewrite Hout by done.
      rewrite Hstep. destruct (turnResult tr p0 pt0); [|done].
      by rewrite lookup_insert_ne.
    + intros k pt [[= -> ->]|Hel]%elem_of_cons.
      * rewrite Hout by done. rewrite Hstep.
        destruct (turnResult tr p0 pt0); [|done]. by rewrite lookup_insert_eq.
      * rewrite (Hin k pt Hel).
        destruct (turnResult tr p0 pt); [done|].
        rewrite Hstep. destruct (turnResult tr p0 pt0); [|done].
        rewrite lookup_insert_ne; [done|].
        intros <-. apply Hk0. apply list_elem_of_fmap. by exists (k0, pt).
Qed.

(** The outcome of [AddPeer] does not depend on the transport: it is
    decided by the three guards. *)
Lemma AddPeer_result tr p r :
  (AddPeer tr p r).1 =
    if closed r then Err (Errorf "room %q is closed" [ArgS (Room_id r)])
    else if maxPeers r <=? PeerCount r then
      Err (Errorf "room %q is full (%d/%d peers)"
             [ArgS (Room_id r); ArgI (PeerCount r); ArgI (maxPeers r)])
    else
      match (if e2eeRequired r then ValidateE2EERoom true (encryption p) else None) with
      | Some e => Err e
      | None => Ok (map_to_list (publisherTracks r)).*1
      end.
Proof.
  unfold AddPeer. destruct (closed r); [done|].
  destruct (_ <=? _); [done|].
  by destruct (if e2eeRequired r then _ else _).
Qed.

Lemma AddPeer_failure tr p r :
  isErr (AddPeer tr p r).1 = true -> (AddPeer tr p r).2 = r.
Proof.
  unfold AddPeer. destruct (closed r); [done|].
  destruct (_ <=? _); [done|].
  by destruct (if e2eeRequired r then _ else _).
Qed.

Lemma AddPeer_tracks tr p r avail :
  (AddPeer tr p r).1 = Ok avail ->
  publisherTracks (AddPeer tr p r).2 =
    (if autoSubscribeAudio r && AutoSubscribeAudio (peerConfig p)
     then foldl (autoSubscribe tr) (publisherTracks r, p)
            (map_to_list (publisherTracks r))
     else (publisherTracks r, p)).1.
Proof.
  unfold AddPeer. destruct (closed r); [done|].
  destruct (_ <=? _); [done|].
  by destruct (if e2eeRequired r then _ else _).
Qed.

Lemma AddPeer_bounded tr p r : bounded r -> bounded (AddPeer tr p r).2.
Proof.
  intros [H1 Hb]. unfold AddPeer. destruct (closed r); [done|].
  destruct (Z.leb_spec (maxPeers r) (PeerCount r)); [done|].
  destruct (if e2eeRequired r then _ else _); [done|].
  split; [done|]. unfold PeerCount in *. cbn.
  rewrite insert_insert_eq, map_size_insert.
  destruct (peers r !! Peer_id p); cbn; lia.
Qed.

Lemma RemovePeer_bounded peerID r : bounded r -> bounded (RemovePeer peerID r).
Proof.
  intros [H1 Hb]. unfold RemovePeer. destruct (peers r !! peerID) eqn:Hp; [|done].
  split; [done|]. unfold PeerCount in *. cbn.
  rewrite map_size_delete, Hp. lia.
Qed.

Lemma Close_bounded r : bounded r -> bounded (Close r).
Proof.
  intros [H1 Hb]. unfold Close. destruct (closed r); [done|].
  split; [done|]. unfold PeerCount. cbn. rewrite map_size_empty. lia.
Qed.

Lemma autoSubscribePeer_dom tr pid l :
  forall pt (m : gmap string Peer),
    (forall kv, kv ∈ l -> is_Some (m !! kv.1)) ->
    dom (foldl (autoSubscribePeer tr pid) (pt, m) l).2 = dom m.
Proof.
  induction l as [|kv l IH]; intros pt m Hin; [done|]. cbn.
  assert (dom (autoSubscribePeer tr pid (pt, m) kv).2 = dom m) as Hd.
  { unfold autoSubscribePeer. cbn.
    destruct (String.eqb _ _); [done|]. destruct (negb _); [done|].
    destruct (Subscribe _ _ _ _ _ _) as [[[? ?] ?]|]; [|done]. cbn.
    apply dom_insert_lookup_L, Hin. by left. }
  destruct (autoSubscribePeer tr pid (pt, m) kv) as [pt1 m1]. cbn in Hd.
  rewrite IH; [done|].
  intros kv' Hkv'. apply elem_of_dom. rewrite Hd. apply elem_of_dom, Hin. by right.
Qed.

Lemma RegisterPublisherTrack_peers tr publisher rem r :
  dom (peers (RegisterPublisherTrack tr publisher rem r).2) = dom (peers r).
Proof.
  unfold RegisterPublisherTrack. cbv zeta.
  destruct (match publisherTracks r !! Remote_ID rem with
            | Some _ => _ | None => _ end); [done|].
  cbn. destruct (_ && _); [|done].
  apply autoSubscribePeer_dom.
  intros [k v] Hkv%elem_of_map_to_list. by exists v.
Qed.

Lemma RegisterPublisherTrack_bounded tr publisher rem r :
  bounded r -> bounded (RegisterPublisherTrack tr publisher rem r).2.
Proof.
  intros [H1 Hb].
  pose proof (RegisterPublisherTrack_peers tr publisher rem r) as Hd.
  assert (maxPeers (RegisterPublisherTrack tr publisher rem r).2 = maxPeers r) as Hm.
  { unfold RegisterPublisherTrack. cbv zeta.
    by destruct (match publisherTracks r !! Remote_ID rem with
                 | Some _ => _ | None => _ end). }
  split; [by rewrite Hm|]. rewrite Hm. unfold PeerCount in *.
  by rewrite <- size_dom, Hd, size_dom.
Qed.

Lemma NewRoom_bounded id maxPeers metadata opts :
  bounded (NewRoom id maxPeers metadata opts).
Proof.
  unfold bounded, NewRoom, PeerCount. cbn. rewrite map_size_empty.
  destruct (Z.leb_spec maxPeers 0); lia.
Qed.

Lemma reachable_bounded r : reachable r -> bounded r.
Proof.
  induction 1.
  - apply NewRoom_bounded.
  - by apply AddPeer_bounded.
  - by apply RemovePeer_bounded.
  - by apply RegisterPublisherTrack_bounded.
  - by apply Close_bounded.
Qed.

End RoomProofs.

(** C6.  [AddPeer] fails on a closed room.  It fails when the number of
    peers has reached [maxPeers].  On a room that requires E2EE it fails for
    a peer without encryption metadata and for a peer whose [Algorithm] is
    empty.  Whenever it fails the room, and with it the set of peers, is
    unchanged.  [AddPeer] never takes the number of peers above [maxPeers],
    and in every room made by [NewRoom] and changed by [AddPeer],
    [RemovePeer], [RegisterPublisherTrack] and [Close], closed or not, the
    number of peers is at most [maxPeers]. *)
Theorem AddPeer_guards (tr : Sfu.Transport) (p : Sfu.Peer) (r : Sfu.Room) :
  (Sfu.closed r = true -> isErr (Sfu.AddPeer tr p r).1 = true)
  /\ (Sfu.maxPeers r <= Sfu.PeerCount r -> isErr (Sfu.AddPeer tr p r).1 = true)
  /\ (Sfu.e2eeRequired r = true ->
      (Sfu.encryption p = None
       \/ exists enc, Sfu.encryption p = Some enc /\ Sfu.Algorithm enc = "") ->
      isErr (Sfu.AddPeer tr p r).1 = true)
  /\ (isErr (Sfu.AddPeer tr p r).1 = true ->
      (Sfu.AddPeer tr p r).2 = r
      /\ Sfu.peers (Sfu.AddPeer tr p r).2 = Sfu.peers r)
  /\ (Sfu.PeerCount r <= Sfu.maxPeers r ->
      Sfu.PeerCount (Sfu.AddPeer tr p r).2 <= Sfu.maxPeers (Sfu.AddPeer tr p r).2)
  /\ (Sfu.reachable r -> Sfu.PeerCount r <= Sfu.maxPeers r).
Proof.
  split_and!.
  - intros Hc. rewrite AddPeer_result, Hc. done.
  - intros Hfull. rewrite AddPeer_result. destruct (Sfu.closed r); [done|].
    by destruct (Z.leb_spec (Sfu.maxPeers r) (Sfu.PeerCount r)); [|lia].
  - intros He Henc. rewrite AddPeer_result. destruct (Sfu.closed r); [done|].
    destruct (_ <=? _); [done|]. rewrite He.
    destruct Henc as [->|(enc & -> & Ha)]; [done|].
    unfold Sfu.ValidateE2EERoom. by rewrite Ha.
  - intros Hf. by rewrite AddPeer_failure.
  - intros Hb. unfold Sfu.AddPeer. destruct (Sfu.closed r); [done|].
    destruct (Z.leb_spec (Sfu.maxPeers r) (Sfu.PeerCount r)); [done|].
    destruct (if Sfu.e2eeRequired r then _ else _); [done|].
    unfold Sfu.PeerCount in *. cbn.
    rewrite insert_insert_eq, map_size_insert.
    destruct (Sfu.peers r !! Sfu.Peer_id p); cbn; lia.
  - intros Hr. by apply reachable_bounded.
Qed.

(** The sample room for one peer, with A in it, is full for B; a room that
    requires E2EE refuses a peer without encryption metadata. *)
Lemma AddPeer_guards_witness :
  isErr (Sfu.AddPeer Samples.transport Samples.peerB Samples.fullRoom).1 = true
  /\ isErr (Sfu.AddPeer Samples.transport Samples.peerA Samples.secureRoom).1 = true
  /\ Sfu.PeerCount Samples.fullRoom <= Sfu.maxPeers Samples.fullRoom.
Proof.
  split; [|split].
  - apply (proj1 (proj2 (AddPeer_guards Samples.transport Samples.peerB Samples.fullRoom))).
    vm_compute. discriminate.
  - apply (proj1 (proj2 (proj2
             (AddPeer_guards Samples.transport Samples.peerA Samples.secureRoom)))).
    + reflexivity.
    + left. reflexivity.
  - apply (proj2 (proj2 (proj2 (proj2 (proj2
             (AddPeer_guards Samples.transport Samples.peerB Samples.fullRoom)))))).
    apply Sfu.reach_add, Sfu.reach_new.
Defined.

(** Room capacity, as in the scenario of the specification: a room for one
    peer takes A and refuses B, and an encrypted peer enters the room that
    requires E2EE. *)
Example AddPeer_capacity :
  isOk (Sfu.AddPeer Samples.transport Samples.peerA
          (Sfu.NewRoom "r1" 1 ∅ (Sfu.mkRoomOptions 0 true false))).1 = true
  /\ (Sfu.AddPeer Samples.transport Samples.peerB Samples.fullRoom).1
     = Err (Errorf "room %q is full (%d/%d peers)" [ArgS "r1"; ArgI 1; ArgI 1])
  /\ isOk (Sfu.AddPeer Samples.transport Samples.encryptedPeer Samples.secureRoom).1 = true.
Proof. vm_compute. repeat split. Qed.

(** C7, as the code has it.  In a room with audio auto-subscription, a
    successful [AddPeer] of a peer [p] whose own configuration has
    [AutoSubscribeAudio] set calls [Subscribe(p, high, -1, -1)] on every
    audio publisher track of the room whose publisher is not [p].  Where the
    call succeeds, the track afterwards holds for [p] a subscription of
    quality high with both layer limits at -1; where it fails, the track is
    as before.  The tracks that are not audio tracks and the tracks [p]
    publishes are as before.  A successful [AddPeer] of a peer whose
    configuration has [AutoSubscribeAudio] unset subscribes it to nothing:
    every track of the room is as before, with the subscriptions it had,
    and the peer is in the room with the down tracks it came with.
    Whether [AddPeer] succeeds does not depend on the outcome of the
    calls of [Subscribe]. *)
Theorem AddPeer_auto_subscribes
    (tr : Sfu.Transport) (p : Sfu.Peer) (r : Sfu.Room) (avail : list string) :
  Sfu.autoSubscribeAudio r = true ->
  (Sfu.AddPeer tr p r).1 = Ok avail ->
  (Sfu.AutoSubscribeAudio (Sfu.peerConfig p) = true ->
   (forall k pt,
       Sfu.publisherTracks r !! k = Some pt ->
       Sfu.kind pt = Sfu.RTPCodecTypeAudio ->
       Sfu.publisher pt <> Sfu.Peer_id p ->
       match Sfu.Subscribe tr pt p Sfu.QualityHigh (-1) (-1) with
       | Ok (sub, pt', _) =>
         Sfu.publisherTracks (Sfu.AddPeer tr p r).2 !! k = Some pt'
         /\ Sfu.subscribers pt' !! Sfu.Peer_id p = Some sub
         /\ Sfu.Sub_subscriber sub = Sfu.Peer_id p
         /\ Sfu.currentQuality sub = Sfu.QualityHigh
         /\ Sfu.maxTemporalLayer sub = -1
         /\ Sfu.maxSpatialLayer sub = -1
         /\ Sfu.paused sub = false
       | Err _ => Sfu.publisherTracks (Sfu.AddPeer tr p r).2 !! k = Some pt
       end)
   /\ (forall k pt,
         Sfu.publisherTracks r !! k = Some pt ->
         Sfu.kind pt <> Sfu.RTPCodecTypeAudio \/ Sfu.publisher pt = Sfu.Peer_id p ->
         Sfu.publisherTracks (Sfu.AddPeer tr p r).2 !! k = Some pt)
   /\ (forall k, Sfu.publisherTracks r !! k = None ->
                 Sfu.publisherTracks (Sfu.AddPeer tr p r).2 !! k = None))
  /\ (Sfu.AutoSubscribeAudio (Sfu.peerConfig p) = false ->
      Sfu.publisherTracks (Sfu.AddPeer tr p r).2 = Sfu.publisherTracks r
      /\ Sfu.peers (Sfu.AddPeer tr p r).2 !! Sfu.Peer_id p = Some p)
  /\ (forall tr', (Sfu.AddPeer tr' p r).1 = Ok avail).
Proof.
  intros Hauto Hok.
  pose proof (autoSubscribe_foldl tr p (map_to_list (Sfu.publisherTracks r))
                (NoDup_fst_map_to_list _) (Sfu.publisherTracks r) p eq_refl)
    as (_ & Hout & Hin).
  split_and!.
  - intros Hp. rewrite (AddPeer_tracks tr p r avail Hok), Hauto, Hp. cbn [andb].
    split_and!.
    + intros k pt Hk Hkind Hpub.
      rewrite (Hin k pt) by by apply elem_of_map_to_list.
      unfold Notions.turnResult. rewrite bool_decide_true by done.
      apply String.eqb_neq in Hpub. rewrite Hpub. cbn [andb negb].
      destruct (Sfu.Subscribe tr pt p Sfu.QualityHigh (-1) (-1))
        as [[[sub pt'] p']|e] eqn:Hs; [|done].
      apply Subscribe_ok_inv in Hs as (dt & -> & -> & _).
      cbn. split; [done|]. split; [apply lookup_insert_eq|]. done.
    + intros k pt Hk Hskip.
      rewrite (Hin k pt) by by apply elem_of_map_to_list.
      unfold Notions.turnResult.
      destruct Hskip as [Hkind|Hpub].
      * by rewrite bool_decide_false.
      * apply String.eqb_eq in Hpub. rewrite Hpub. by rewrite andb_false_r.
    + intros k Hk. rewrite Hout; [done|].
      intros ([k' pt] & -> & Hel%elem_of_map_to_list)%list_elem_of_fmap.
      cbn in Hk. congruence.
  - intros Hp. rewrite (AddPeer_tracks tr p r avail Hok), Hp, andb_false_r.
    split; [done|]. revert Hok. unfold Sfu.AddPeer.
    destruct (Sfu.closed r); [done|]. destruct (_ <=? _); [done|].
    destruct (if Sfu.e2eeRequired r then _ else _); [done|].
    intros _. cbn. rewrite Hp, andb_false_r. apply lookup_insert_eq.
  - intros tr'. by rewrite AddPeer_result, <- (AddPeer_result tr).
Qed.

(** Auto-subscription, as in the scenario of the specification: A joins and
    publishes an audio track, B joins; the track then holds one
    subscription, of B, at quality high.  When B joins with
    [AutoSubscribeAudio] unset, the tracks of the room stay as they are. *)
Lemma AddPeer_auto_subscribes_witness :
  match Sfu.Subscribe Samples.transport
          (Sfu.NewPublisherTrack Samples.peerA Samples.audioRemote) Samples.peerB
          Sfu.QualityHigh (-1) (-1) with
  | Ok (sub, pt', _) =>
    Sfu.publisherTracks
      (Sfu.AddPeer Samples.transport Samples.peerB Samples.roomWithAudio).2 !! "audio1"
    = Some pt'
    /\ Sfu.subscribers pt' !! Sfu.Peer_id Samples.peerB = Some sub
    /\ Sfu.Sub_subscriber sub = Sfu.Peer_id Samples.peerB
    /\ Sfu.currentQuality sub = Sfu.QualityHigh
    /\ Sfu.maxTemporalLayer sub = -1
    /\ Sfu.maxSpatialLayer sub = -1
    /\ Sfu.paused sub = false
  | Err _ =>
    Sfu.publisherTracks
      (Sfu.AddPeer Samples.transport Samples.peerB Samples.roomWithAudio).2 !! "audio1"
    = Some (Sfu.NewPublisherTrack Samples.peerA Samples.audioRemote)
  end
  /\ Sfu.publisherTracks
       (Sfu.AddPeer Samples.transport Samples.quietPeer Samples.roomWithAudio).2
     = Sfu.publisherTracks Samples.roomWithAudio.
Proof.
  split.
  - apply (proj1 (proj1 (AddPeer_auto_subscribes Samples.transport Samples.peerB
                           Samples.roomWithAudio ["audio1"] eq_refl eq_refl) eq_refl)
             "audio1" (Sfu.NewPublisherTrack Samples.peerA Samples.audioRemote)).
    + reflexivity.
    + reflexivity.
    + discriminate.
  - apply (proj1 (proj2 (AddPeer_auto_subscribes Samples.transport Samples.quietPeer
                           Samples.roomWithAudio ["audio1"] eq_refl eq_refl))).
    reflexivity.
Defined.

Example AddPeer_auto_subscribes_run :
  Sfu.subscribers <$>
    (Sfu.publisherTracks
       (Sfu.AddPeer Samples.transport Samples.peerB Samples.roomWithAudio).2 !! "audio1")
  = Some {["B" := Sfu.mkSubscription "audio1" "B"
                    (Some (Sfu.mkDownTrack "A" "audio1" "" false))
                    Sfu.QualityHigh (-1) (-1) false]}.
Proof. vm_compute. reflexivity. Qed.

(** Best effort: on a transport that refuses the track, B still joins, and
    the track has no subscription. *)
Example AddPeer_subscribe_failure :
  isOk (Sfu.AddPeer Samples.brokenTransport Samples.peerB Samples.roomWithAudio).1 = true
  /\ Sfu.subscribers <$>
       (Sfu.publisherTracks
          (Sfu.AddPeer Samples.brokenTransport Samples.peerB Samples.roomWithAudio).2
        !! "audio1") = Some ∅.
Proof. vm_compute. split; reflexivity. Qed.

(** C7 as stated fails: the room has audio auto-subscription and holds the
    audio track of A, the peer B joins successfully, but B has
    [AutoSubscribeAudio] off in its own configuration and is subscribed to
    nothing. *)
Lemma AddPeer_quiet_peer_not_subscribed :
  Sfu.autoSubscribeAudio Samples.roomWithAudio = true
  /\ (Sfu.kind ∘ snd <$> map_to_list (Sfu.publisherTracks Samples.roomWithAudio))
     = [Sfu.RTPCodecTypeAudio]
  /\ isOk (Sfu.AddPeer Samples.transport Samples.quietPeer Samples.roomWithAudio).1 = true
  /\ Sfu.subscribers <$>
       (Sfu.publisherTracks
          (Sfu.AddPeer Samples.transport Samples.quietPeer Samples.roomWithAudio).2
        !! "audio1") = Some ∅.
Proof. vm_compute. repeat split. Qed.

(** ** URL validation *)

Section RangeProofs.
Import Urlvalidation Notions.

Lemma len_cons {A} (x : A) (l : list A) : len (x :: l) = len l + 1.
Proof. unfold len. cbn [length]. lia. Qed.

Lemma addrValue_bound ip :
  Forall isByte ip -> 0 <= addrValue ip < 2 ^ (8 * len ip).
Proof.
  induction 1 as [|b r Hb _ IH]; [by cbn|].
  cbn [addrValue]. rewrite len_cons.
  pose proof (len_nonneg r) as Hr.
  replace (8 * (len r + 1)) with (8 + 8 * len r) by lia.
  rewrite Z.pow_add_r by lia. change (2 ^ 8) with 256.
  unfold isByte in Hb. nia.
Qed.

Lemma radix_unique (M x y a b : Z) :
  0 <= a < M -> 0 <= b < M -> x * M + a = y * M + b -> x = y /\ a = b.
Proof.
  intros Ha Hb Heq.
  assert (x = y) as -> by (destruct (Z.lt_trichotomy x y) as [|[|]]; [nia|done|nia]).
  split; [done|lia].
Qed.

Lemma land_255 x : isByte x -> Z.land x 255 = x.
Proof.
  intros Hx. change 255 with (Z.ones 8). rewrite Z.land_ones by lia.
  apply Z.mod_small. exact Hx.
Qed.

(** The last, partial byte of a mask keeps the leading [n] bits. *)
Lemma land_partial_mask x n :
  isByte x -> 0 <= n < 8 ->
  Z.land x (Z.lxor 255 (Z.shiftr 255 n)) = x / 2 ^ (8 - n) * 2 ^ (8 - n).
Proof.
  intros Hx Hn.
  assert (forallb (fun n =>
            forallb (fun x => Z.land x (Z.lxor 255 (Z.shiftr 255 n))
                              =? x / 2 ^ (8 - n) * 2 ^ (8 - n)) (seqZ 0 256))
            (seqZ 0 8) = true) as Hall by (vm_compute; reflexivity).
  rewrite forallb_forall in Hall.
  assert (In n (seqZ 0 8)) as Hin by (apply list_elem_of_In, elem_of_seqZ; lia).
  specialize (Hall n Hin). rewrite forallb_forall in Hall.
  apply Z.eqb_eq, Hall, list_elem_of_In, elem_of_seqZ.
  unfold isByte in Hx. lia.
Qed.

Lemma sameUnderMask_cons x y m xs ys ms :
  sameUnderMask (x :: xs) (y :: ys) (m :: ms)
  = (Z.land x m =? Z.land y m) && sameUnderMask xs ys ms.
Proof. reflexivity. Qed.

(** Equal under the mask of [n] ones: equal on the first [n] bits. *)
Lemma sameUnderMask_prefix l :
  forall n xs ys,
    length xs = l -> length ys = l ->
    Forall isByte xs -> Forall isByte ys ->
    0 <= n <= 8 * Z.of_nat l ->
    sameUnderMask xs ys (maskBytes l n) = true
    <-> addrValue xs / 2 ^ (8 * Z.of_nat l - n) = addrValue ys / 2 ^ (8 * Z.of_nat l - n).
Proof.
  induction l as [|l IH]; intros n xs ys Hlx Hly Hbx Hby Hn.
  - destruct xs, ys; try done.
  - destruct xs as [|x xs], ys as [|y ys]; try done.
    injection Hlx as Hlx. injection Hly as Hly.
    apply Forall_cons in Hbx as [Hx Hbx]. apply Forall_cons in Hby as [Hy Hby].
    pose proof (addrValue_bound xs Hbx) as Bx.
    pose proof (addrValue_bound ys Hby) as By.
    unfold len in Bx, By. rewrite Hlx in Bx. rewrite Hly in By.
    cbn [maskBytes addrValue]. unfold len. rewrite Hlx, Hly.
    set (L := Z.of_nat l) in *.
    replace (Z.of_nat (S l)) with (L + 1) in * by lia.
    destruct (Z.leb_spec 8 n) as [H8|H8].
    + (* a whole byte of ones, then the rest *)
      rewrite sameUnderMask_cons, andb_true_iff, Z.eqb_eq, !land_255 by done.
      rewrite (IH (n - 8) xs ys) by (try done; lia).
      replace (8 * (L + 1) - n) with (8 * L - (n - 8)) by lia.
      set (k := 8 * L - (n - 8)).
      assert (0 <= k <= 8 * L) as Hk by lia.
      assert (2 ^ (8 * L) = 2 ^ (8 * L - k) * 2 ^ k) as Hsplit
        by (rewrite <- Z.pow_add_r by lia; f_equal; lia).
      assert (0 < 2 ^ k) as Hpk by (apply Z.pow_pos_nonneg; lia).
      assert (0 < 2 ^ (8 * L - k)) as Hpj by (apply Z.pow_pos_nonneg; lia).
      rewrite Hsplit, !Z.mul_assoc, !Z.div_add_l by lia.
      assert (0 <= addrValue xs / 2 ^ k < 2 ^ (8 * L - k)) as Qx.
      { split; [apply Z.div_pos; lia|]. apply Z.div_lt_upper_bound; lia. }
      assert (0 <= addrValue ys / 2 ^ k < 2 ^ (8 * L - k)) as Qy.
      { split; [apply Z.div_pos; lia|]. apply Z.div_lt_upper_bound; lia. }
      split; [intros [-> ->]; done|]. intros Heq. by eapply radix_unique.
    + (* the partial byte, then zeros *)
      rewrite sameUnderMask_cons, andb_true_iff, Z.eqb_eq.
      rewrite !land_partial_mask by (try done; lia).
      rewrite (IH 0 xs ys) by (try done; lia).
      rewrite Z.sub_0_r, !(Z.div_small _ (2 ^ (8 * L))) by lia.
      replace (8 * (L + 1) - n) with (8 * L + (8 - n)) by lia.
      rewrite Z.pow_add_r by lia.
      assert (0 < 2 ^ (8 * L)) as HpL by (apply Z.pow_pos_nonneg; lia).
      assert (0 < 2 ^ (8 - n)) as Hpn by (apply Z.pow_pos_nonneg; lia).
      rewrite <- !Z.div_div by lia.
      rewrite !Z.div_add_l, !(Z.div_small _ (2 ^ (8 * L))), !Z.add_0_r by lia.
      split; [intros [H _]; by eapply Z.mul_cancel_r; [|exact H]; lia
            | intros H; split; [by rewrite H | done]].
Qed.

(** [Contains], for a network that is a block: the address lies in the
    block. *)
Lemma Contains_block net base ones ip :
  isBlock net base ones = true ->
  Forall isByte ip ->
  Contains net ip = true <-> inBlock base ones ip.
Proof.
  unfold isBlock. rewrite !andb_true_iff, bool_decide_eq_true.
  intros [[[Hnet H0%Z.leb_le] H1%Z.leb_le] Hb] Hip.
  assert (Forall isByte base) as Hbase.
  { apply Forall_forall. intros b Hin. rewrite forallb_forall in Hb.
    apply list_elem_of_In, Hb in Hin. unfold isByte. lia. }
  assert (Forall isByte (canonical ip)) as Hcan.
  { unfold canonical, To4.
    destruct (_ =? _)%nat; [done|]. destruct (_ && _); [|done].
    by apply Forall_drop. }
  unfold Contains, inBlock. rewrite Hnet. fold (canonical ip).
  destruct (Nat.eqb_spec (length (canonical ip)) (length base)) as [Hl|Hl]; cbn [negb].
  - fold (sameUnderMask base (canonical ip) (maskBytes (length base) ones)).
    rewrite (sameUnderMask_prefix (length base) ones base (canonical ip))
      by (try done; unfold len in H1; lia).
    unfold len. split; [intros H; split; [done|by rewrite H] | intros [_ H]; by rewrite H].
  - split; [done|]. by intros [? _].
Qed.

(** The networks of the code are the blocks of the specification. *)
Lemma privateRanges_blocks :
  Forall2 (fun r b => r.1 = b.1 /\ isBlock r.2 b.2.1 b.2.2 = true)
    privateRanges reservedBlocks.
Proof. repeat constructor. Qed.

Lemma isPrivateIP_reserved ip :
  Forall isByte ip -> isPrivateIP ip = true <-> reserved ip.
Proof.
  intros Hip. unfold isPrivateIP, reserved.
  pose proof privateRanges_blocks as HF.
  induction HF as [|[s net] [s' [base ones]] rs bs [Hs Hblk] _ IH]; cbn [existsb].
  - split; [done|]. by intros (? & ? & ? & ?%elem_of_nil & _).
  - cbn in Hs, Hblk. subst s'. rewrite orb_true_iff, IH.
    cbn [snd]. rewrite (Contains_block net base ones ip Hblk Hip). split.
    + intros [H|(c & b & o & Hin & H)].
      * exists s, base, ones. split; [by left|done].
      * exists c, b, o. split; [by right|done].
    + intros (c & b & o & [[= -> -> ->]|Hin]%elem_of_cons & H); [by left|].
      right. by exists c, b, o.
Qed.

End RangeProofs.

Section ValidateProofs.
Import Urlvalidation Notions.

Variable url_Parse : string -> Result URL.
Variable net_LookupHost : string -> Result (list string).
Variable net_ParseIP : string -> option IP.

Lemma firstPrivate_found ips ipStr ip :
  ipStr ∈ ips -> net_ParseIP ipStr = Some ip -> isPrivateIP ip = true ->
  is_Some (firstPrivate net_ParseIP ips).
Proof.
  induction ips as [|s rest IH]; [by intros ?%elem_of_nil|].
  intros [->|Hin]%elem_of_cons Hp Hpriv; cbn [firstPrivate].
  - rewrite Hp, Hpriv. by eexists.
  - destruct (net_ParseIP s) as [ip'|]; [|by apply IH].
    destruct (isPrivateIP ip'); [by eexists | by apply IH].
Qed.




Lemma ValidateWebhookURL_private rawURL u ips ipStr ip :
  url_Parse rawURL = Ok u -> net_LookupHost (Hostname u) = Ok ips ->
  ipStr ∈ ips -> net_ParseIP ipStr = Some ip -> isPrivateIP ip = true ->
  is_Some (ValidateWebhookURL url_Parse net_LookupHost net_ParseIP rawURL []).
Proof.
  intros Hu Hl Hin Hp Hpriv. unfold ValidateWebhookURL. rewrite Hu. cbv zeta.
  destruct (_ && _); [by eexists|]. destruct (String.eqb _ _); [by eexists|].
  rewrite Hl. cbn.
  destruct (firstPrivate_found ips ipStr ip Hin Hp Hpriv) as [s ->]. by eexists.
Qed.



End ValidateProofs.




(** The table of the repository's test of [isPrivateIP], on the 16-byte
    form of the addresses. *)
Example isPrivateIP_table :
  let v4 a b c d := [0;0;0;0;0;0;0;0;0;0;255;255;a;b;c;d] in
  map Urlvalidation.isPrivateIP
    [ v4 8 8 8 8; v4 1 1 1 1; v4 10 0 0 1; v4 172 16 0 1; v4 172 31 255 255;
      v4 172 32 0 0; v4 192 168 0 1; v4 127 0 0 1; v4 169 254 1 1; v4 0 0 0 0;
      v4 224 0 0 1; v4 255 255 255 255 ]
  = [ false; false; true; true; true; false; true; true; true; true; true; true ].
Proof. vm_compute. reflexivity. Qed.

(** With the option that allows private addresses the last check is off. *)
Example ValidateWebhookURL_allow_private :
  Urlvalidation.ValidateWebhookURL Samples.parseURL Samples.lookupHost Samples.parseIP
    "https://hooks.example/in" [Urlvalidation.AllowPrivateIPs] = None.
Proof. vm_compute. reflexivity. Qed.

(** * Further properties *)

(** ** Validation of dialogs *)

Section ValidateProofs'.
Import Dialog Notions.

Lemma validateTransitions_None d name i ts :
  validateTransitions d name i ts = None
  <-> Forall (fun t => knownState d (Target t)) ts.
Proof.
  revert i. induction ts as [|t ts IH]; intros i; cbn.
  - split; [constructor | done].
  - destruct (String.eqb_spec (Target t) "") as [He|He].
    + split; [done|]. by intros [[? _] _]%Forall_cons.
    + destruct (Dialog_States d !! Target t) as [st|] eqn:Hl.
      * rewrite IH. split.
        -- intros H. constructor; [|done]. split; [done|]. rewrite Hl. by eexists.
        -- by intros [_ ?]%Forall_cons.
      * split; [done|]. intros [[_ [? Hs]] _]%Forall_cons. by rewrite Hl in Hs.
Qed.

Lemma validateState_None d name state :
  validateState d name state = None
  <-> Forall (fun t => knownState d (Target t)) (Transitions state)
      /\ (TimeoutNext state <> "" -> is_Some (Dialog_States d !! TimeoutNext state)).
Proof.
  unfold validateState.
  destruct (validateTransitions d name 0 (Transitions state)) as [e|] eqn:Hv.
  - split; [done|]. intros [H _].
    apply (validateTransitions_None d name 0) in H. by rewrite H in Hv.
  - apply validateTransitions_None in Hv.
    destruct (String.eqb_spec (TimeoutNext state) "") as [He|He]; cbn.
    + split; [|done]. intros _. split; [done|]. by intros [].
    + destruct (Dialog_States d !! TimeoutNext state) as [st|].
      * split; [|done]. intros _. split; [done|]. intros _. by eexists.
      * split; [done|]. intros [_ H]. by destruct (H He).
Qed.

Lemma validateStates_None d l :
  validateStates d l = None
  <-> Forall (fun kv => validateState d kv.1 kv.2 = None) l.
Proof.
  induction l as [|kv l IH]; cbn.
  - split; [constructor | done].
  - destruct (validateState d kv.1 kv.2) eqn:Hv.
    + split; [done|]. intros [? _]%Forall_cons. congruence.
    + rewrite IH. split; [by constructor | by intros [_ ?]%Forall_cons].
Qed.

Lemma Validate_wellFormed sm : Validate sm = None <-> wellFormed (dialog sm).
Proof.
  unfold Validate, wellFormed. cbv zeta.
  destruct (String.eqb_spec (Dialog_InitialState (dialog sm)) "") as [He|He].
  { split; [done|]. by intros [[? _] _]. }
  destruct (Dialog_States (dialog sm) !! Dialog_InitialState (dialog sm)) as [st0|] eqn:H0.
  2:{ split; [done|]. intros [[_ [? Hs]] _]. by rewrite H0 in Hs. }
  rewrite validateStates_None, Forall_forall. split.
  - intros H. split; [split; [done | rewrite H0; by eexists]|].
    intros name state Hl. apply (validateState_None (dialog sm) name state).
    by apply (H (name, state)), elem_of_map_to_list.
  - intros [_ H] [name state] Hl%elem_of_map_to_list.
    apply (validateState_None (dialog sm) name state). by apply (H name).
Qed.

End ValidateProofs'.

(** X1.  [Validate] returns no error exactly for the dialogs without
    dangling names: the initial state is given and is a state of the
    dialog; in every state, the target of every transition is given and is a
    state of the dialog; and the time-out successor of a state, when given,
    is a state of the dialog. *)
Theorem Validate_iff_wellFormed (sm : Dialog.StateMachine) :
  Dialog.Validate sm = None <-> Notions.wellFormed (Dialog.dialog sm).
Proof. apply Validate_wellFormed. Qed.

(** The sample dialog is accepted; with the target of its first transition
    changed to a name that is no state, it is refused, as in the tests of
    the repository. *)
Example Validate_samples :
  Dialog.Validate (Dialog.NewStateMachine Samples.testDialog) = None
  /\ Dialog.Validate
       (Dialog.NewStateMachine
          (Dialog.mkDialog "test" "" "" ∅ "greeting"
             {["greeting" :=
                 Dialog.mkState [] [Dialog.mkTransition "speech" "" "missing" []]
                   "" "" false]}))
     = Some (Errorf "dialog %q state %q transition %d: target %q not found"
               [ArgS "test"; ArgS "greeting"; ArgI 0; ArgS "missing"]).
Proof. vm_compute. split; reflexivity. Qed.

(** ** Transitions inside a validated dialog *)

Section ClosedProofs.
Import Dialog Notions.

Variable template_Execute : string -> Session -> Result string.

(** What an evaluation without error returns: nothing, every transition
    being passed over, or the target and the actions of the first
    transition that matches. *)
Lemma evaluateLoop_Ok ts event session target acts :
  evaluateLoop template_Execute ts event session = Ok (target, acts) ->
  (target = "" /\ acts = []
   /\ Forall (passedOver template_Execute event session) ts)
  \/ exists pre t post,
       ts = pre ++ t :: post
       /\ Forall (passedOver template_Execute event session) pre
       /\ matches template_Execute event session t
       /\ target = Target t /\ acts = Actions t.
Proof.
  intros Hev.
  destruct (transitions_split template_Execute event session ts)
    as [Hall|(pre & t & post & -> & Hpre & [Hm|[e He]])].
  - left. rewrite <- (app_nil_r ts), evaluateLoop_skip in Hev by done.
    cbn in Hev. by injection Hev as <- <-.
  - right. exists pre, t, post.
    rewrite evaluateLoop_skip, evaluateLoop_match in Hev by done.
    by injection Hev as <- <-.
  - by rewrite evaluateLoop_skip, (evaluateLoop_error _ _ _ _ _ e) in Hev.
Qed.

(** The only error of an evaluation is the wrapped error of a condition. *)
Lemma evaluateLoop_Err ts event session e :
  evaluateLoop template_Execute ts event session = Err e ->
  exists c e', e = ErrorfW "eval condition %q: %w" [ArgS c] e'.
Proof.
  induction ts as [|t ts IH]; cbn; [done|].
  destruct (negb _); [done|].
  destruct (EvalCondition _ _ _) as [[]|e']; [by intros [=] | done |].
  intros [= <-]. by eexists _, _.
Qed.

Lemma wellFormed_target sm name state t :
  wellFormed (dialog sm) -> GetState sm name = Some state ->
  t ∈ Transitions state ->
  Target t <> "" /\ is_Some (GetState sm (Target t)).
Proof.
  intros [_ Hwf] Hs Ht. destruct (Hwf name state Hs) as [Hall _].
  rewrite Forall_forall in Hall. by apply Hall.
Qed.

Lemma evaluate_in_dialog sm name state event session target acts :
  Validate sm = None ->
  GetState sm name = Some state ->
  EvaluateTransitions template_Execute state event session = Ok (target, acts) ->
  (target = "" /\ acts = []
   /\ Forall (passedOver template_Execute event session) (Transitions state))
  \/ (target <> "" /\ is_Some (GetState sm target)
      /\ exists t, t ∈ Transitions state
           /\ matches template_Execute event session t
           /\ Target t = target /\ Actions t = acts).
Proof.
  intros Hv%Validate_wellFormed Hs Hev.
  apply evaluateLoop_Ok in Hev as [?|(pre & t & post & Hts & _ & Hm & -> & ->)];
    [by left|].
  right.
  assert (t ∈ Transitions state) as Ht by (rewrite Hts; set_solver).
  destruct (wellFormed_target sm name state t Hv Hs Ht) as [Hne Hin].
  split; [done|]. split; [done|]. by exists t.
Qed.

End ClosedProofs.

(** X2.  In a dialog that [Validate] accepts, an evaluation of the
    transitions of one of its states that ends without error either
    returns the empty target and no actions, every transition having been
    passed over, or returns a target that is not empty and is a state of
    the dialog, with the actions of a transition of the state that matches
    the event.  So the empty target tells exactly that no transition was
    taken, and a transition taken never leads out of the dialog. *)
Theorem EvaluateTransitions_within_dialog
    (template_Execute : string -> Dialog.Session -> Result string)
    (sm : Dialog.StateMachine) (name : string) (state : Dialog.State)
    (event : string) (session : Dialog.Session)
    (target : string) (acts : list Dialog.Action) :
  Dialog.Validate sm = None ->
  Dialog.GetState sm name = Some state ->
  Dialog.EvaluateTransitions template_Execute state event session = Ok (target, acts) ->
  (target = "" /\ acts = []
   /\ Forall (Notions.passedOver template_Execute event session)
        (Dialog.Transitions state))
  \/ (target <> "" /\ is_Some (Dialog.GetState sm target)
      /\ exists t, t ∈ Dialog.Transitions state
           /\ Notions.matches template_Execute event session t
           /\ Dialog.Target t = target /\ Dialog.Actions t = acts).
Proof. apply evaluate_in_dialog. Qed.

(** In the sample dialog a speech event at [greeting] leads to [handle],
    which is a state of the dialog. *)
Lemma EvaluateTransitions_within_dialog_witness :
  is_Some (Dialog.GetState (Dialog.NewStateMachine Samples.testDialog) "handle").
Proof.
  destruct (EvaluateTransitions_within_dialog Samples.execute
              (Dialog.NewStateMachine Samples.testDialog) "greeting"
              (Dialog.mkState [Samples.sayHello]
                 [Dialog.mkTransition "speech" "" "handle" []] "30s" "goodbye" false)
              "speech" Samples.session0 "handle" [])
    as [[Hempty _]|(_ & Hin & _)].
  - vm_compute. reflexivity.
  - vm_compute. reflexivity.
  - vm_compute. reflexivity.
  - discriminate Hempty.
  - exact Hin.
Defined.

(** ** Runs of RecordTransition *)

Section HistoryProofs.
Import Dialog Notions.

(** With a cap of one or more, [RecordTransition] returns: it drops some
    of the oldest records, none below the cap, and appends the new one. *)
Lemma RecordTransition_total now from to trigger s :
  1 <= maxHistory s ->
  exists k,
    RecordTransition now from to trigger s =
      Some (mkSession (maxHistory s) (ID s) (DialogName s) to (Variables s)
              (drop k (History s) ++ [mkStateRecord from to trigger now])
              (StartTime s) (LastEvent s) (LastResult s))
    /\ (len (History s) < maxHistory s -> k = 0%nat)
    /\ (maxHistory s <= len (History s) -> (1 <= k <= length (History s))%nat).
Proof.
  intros Hcap.
  destruct (Z.lt_ge_cases (len (History s)) (maxHistory s)) as [Hlt|Hge].
  - exists 0%nat. rewrite RecordTransition_below by done. cbn [drop].
    split; [done|]. split; [done|]. lia.
  - destruct (Z.lt_ge_cases (maxHistory s) 10) as [Hs|Hl].
    + exists 1%nat. rewrite RecordTransition_small_cap by lia.
      split; [done|]. split; [lia|]. unfold len in Hge. lia.
    + exists (Z.to_nat (maxHistory s / 10)).
      rewrite RecordTransition_at_cap by lia.
      split; [done|]. split; [lia|].
      assert (1 <= maxHistory s / 10) by (apply Z.div_le_lower_bound; lia).
      assert (maxHistory s / 10 <= maxHistory s) by (apply Z.div_le_upper_bound; lia).
      unfold len in Hge. lia.
Qed.

Lemma recordAll_sound calls :
  forall s,
    1 <= maxHistory s ->
    exists s',
      recordAll calls s = Some s'
      /\ maxHistory s' = maxHistory s
      /\ ID s' = ID s /\ Variables s' = Variables s /\ StartTime s' = StartTime s
      /\ History s' `suffix_of` (History s ++ map recordOf calls)
      /\ (len (History s) <= maxHistory s -> len (History s') <= maxHistory s)
      /\ match last calls with
         | Some c => CurrentState s' = call_to c /\ last (History s') = Some (recordOf c)
         | None => s' = s
         end.
Proof.
  induction calls as [|c calls IH]; intros s Hcap; cbn [recordAll].
  - exists s. rewrite app_nil_r. by repeat split.
  - destruct (RecordTransition_total (call_now c) (call_from c) (call_to c)
                (call_trigger c) s Hcap) as (k & -> & Hk0 & Hk1).
    set (s1 := mkSession _ _ _ _ _ _ _ _ _).
    destruct (IH s1 Hcap) as (s' & Hrun & Hm & Hid & Hv & Hst & Hsuf & Hlen & Hlast).
    exists s'. split; [done|]. repeat split; try done.
    + etrans; [exact Hsuf|]. exists (take k (History s)).
      change (History s1) with (drop k (History s) ++ [recordOf c]).
      cbn [map]. rewrite <- (take_drop k (History s)) at 1.
      by rewrite <- !app_assoc.
    + intros Hle. apply Hlen. cbn [History s1 maxHistory].
      rewrite len_app. unfold len. cbn [length]. rewrite length_drop.
      destruct (Z.lt_ge_cases (len (History s)) (maxHistory s)) as [Hlt|Hge].
      * rewrite (Hk0 Hlt). unfold len in Hlt. lia.
      * specialize (Hk1 Hge). unfold len in Hle. lia.
    + destruct calls as [|c' calls].
      * cbn in Hlast. subst s'. cbn. split; [done|]. by rewrite last_snoc.
      * change (last (c :: c' :: calls)) with (last (c' :: calls)).
        destruct (last (c' :: calls)) eqn:Hl; [exact Hlast|].
        by apply last_None in Hl.
Qed.

End HistoryProofs.

(** X3.  On a session whose cap is one or more (every session [NewSession]
    makes has the cap 1000) a run of [RecordTransition] calls never panics
    and changes neither the cap, nor the id, the variables or the start
    time.  The history it leaves is a suffix of the old history followed by
    the records of the calls in their order: records are only ever dropped
    from the old end.  A history that was within the cap stays within the
    cap.  After a run that is not empty the current state is the target of
    the last call and the last record of the history is the record of that
    call. *)
Theorem RecordTransition_run (calls : list Notions.recordCall) (s : Dialog.Session) :
  1 <= Dialog.maxHistory s ->
  exists s',
    Notions.recordAll calls s = Some s'
    /\ Dialog.maxHistory s' = Dialog.maxHistory s
    /\ Dialog.ID s' = Dialog.ID s
    /\ Dialog.Variables s' = Dialog.Variables s
    /\ Dialog.StartTime s' = Dialog.StartTime s
    /\ Dialog.History s' `suffix_of` (Dialog.History s ++ map Notions.recordOf calls)
    /\ (len (Dialog.History s) <= Dialog.maxHistory s ->
        len (Dialog.History s') <= Dialog.maxHistory s)
    /\ match last calls with
       | Some c =>
         Dialog.CurrentState s' = Notions.call_to c
         /\ last (Dialog.History s') = Some (Notions.recordOf c)
       | None => s' = s
       end.
Proof. apply recordAll_sound. Qed.

(** Two transitions on the full sample session: 1000 records, then 901,
    then 902, the last one being that of the second call. *)
Lemma RecordTransition_run_witness :
  exists s',
    Notions.recordAll
      [Notions.mkRecordCall 2 "handle" "goodbye" "bye";
       Notions.mkRecordCall 3 "goodbye" "greeting" "again"] Samples.fullSession = Some s'
    /\ len (Dialog.History s') <= 1000
    /\ Dialog.CurrentState s' = "greeting"
    /\ last (Dialog.History s')
       = Some (Dialog.mkStateRecord "goodbye" "greeting" "again" 3).
Proof.
  destruct (RecordTransition_run
              [Notions.mkRecordCall 2 "handle" "goodbye" "bye";
               Notions.mkRecordCall 3 "goodbye" "greeting" "again"] Samples.fullSession)
    as (s' & Hrun & _ & _ & _ & _ & _ & Hlen & Hst & Hlast).
  - vm_compute. discriminate.
  - exists s'. split; [exact Hrun|]. split; [|split; [exact Hst | exact Hlast]].
    apply Hlen. vm_compute. discriminate.
Defined.

(** ** The bound on the output of a template *)

Section LimitWriterProofs.
Import Dialog Notions.

Lemma len_take {A} (n : Z) (l : list A) :
  0 <= n <= len l -> len (take (Z.to_nat n) l) = n.
Proof. unfold len. intros H. rewrite length_take. lia. Qed.

Lemma writeAll_caps chunks :
  forall lw,
    0 <= lw_n lw ->
    lw_written lw = len (lw_w lw) ->
    len (lw_w lw) <= lw_n lw ->
    Forall (fun p => lw_n lw + len p <= maxInt64) chunks ->
    exists lw',
      writeAll chunks lw =
        Some (if lw_n lw <? len (lw_w lw ++ concat chunks)
              then Some (Errorf "template output exceeds %d bytes" [ArgI (lw_n lw)])
              else None, lw')
      /\ lw_w lw' = take (Z.to_nat (lw_n lw)) (lw_w lw ++ concat chunks)
      /\ lw_n lw' = lw_n lw
      /\ lw_written lw' = len (lw_w lw').
Proof.
  induction chunks as [|p rest IH]; intros lw Hn Hw Hle Hall.
  - exists lw. cbn. rewrite app_nil_r.
    destruct (Z.ltb_spec (lw_n lw) (len (lw_w lw))); [lia|].
    split; [done|]. split; [|done].
    rewrite take_ge; [done|]. unfold len in Hle. lia.
  - apply Forall_cons in Hall as [Hp Hall].
    pose proof (len_nonneg p) as Hp0. pose proof (len_nonneg (lw_w lw)) as Hw0.
    cbn [writeAll concat]. unfold limitWriter_Write. cbv zeta.
    rewrite (wrap64_small (lw_written lw + len p))
      by (unfold minInt64, maxInt64 in *; lia).
    rewrite Hw.
    destruct (Z.ltb_spec (lw_n lw) (len (lw_w lw) + len p)) as [Hover|Hfits].
    + rewrite (wrap64_small (lw_n lw - len (lw_w lw)))
        by (unfold minInt64, maxInt64 in *; lia).
      assert ((lw_n lw <? len (lw_w lw ++ p ++ concat rest)) = true) as ->.
      { apply Z.ltb_lt. rewrite !len_app.
        pose proof (len_nonneg (concat rest)). lia. }
      destruct (Z.ltb_spec 0 (lw_n lw - len (lw_w lw))) as [Hroom|Hfull].
      * destruct (Z.ltb_spec (len p) (lw_n lw - len (lw_w lw))); [lia|].
        eexists. split; [reflexivity|]. cbn [lw_w lw_n lw_written].
        assert (take (Z.to_nat (lw_n lw)) (lw_w lw ++ p ++ concat rest)
                = lw_w lw ++ take (Z.to_nat (lw_n lw - len (lw_w lw))) p) as Htake.
        { rewrite take_app_ge by (unfold len in *; lia). f_equal.
          replace ((Z.to_nat (lw_n lw) - length (lw_w lw))%nat)
            with (Z.to_nat (lw_n lw - len (lw_w lw))) by (unfold len; lia).
          apply take_app_le. unfold len in *. lia. }
        split; [by rewrite Htake|]. split; [done|].
        rewrite len_app, len_take by lia.
        apply wrap64_small. unfold minInt64, maxInt64 in *. lia.
      * eexists. split; [reflexivity|]. split; [|done].
        rewrite take_app_le by (unfold len in *; lia).
        rewrite take_ge; [done|]. unfold len in *. lia.
    + destruct (IH (mkLimitWriter (lw_w lw ++ p) (lw_n lw) (len (lw_w lw) + len p)))
        as (lw' & Hrun & Hbuf & Hn' & Hw'); try done.
      * cbn. by rewrite len_app.
      * cbn. rewrite len_app. lia.
      * exists lw'. cbn [lw_w lw_n] in Hrun, Hbuf, Hn'.
        rewrite <- !app_assoc in Hrun, Hbuf. cbv iota. by rewrite Hrun.
Qed.

End LimitWriterProofs.

(** X4.  A [limitWriter] with the limit [n] over an empty buffer, given the
    output of a template piece by piece (the pieces short enough for the
    byte counts to stay inside 64 bits), never panics, and leaves in the
    buffer exactly the first [n] bytes of the output, or all of it when the
    output has at most [n] bytes.  The writing ends with the error
    [template output exceeds n bytes] exactly when the output has more than
    [n] bytes. *)
Theorem limitWriter_caps (n : Z) (chunks : list (list Z)) :
  0 <= n ->
  Forall (fun p => n + len p <= maxInt64) chunks ->
  exists lw',
    Notions.writeAll chunks (Dialog.mkLimitWriter [] n 0) =
      Some (if n <? len (concat chunks)
            then Some (Errorf "template output exceeds %d bytes" [ArgI n])
            else None, lw')
    /\ Dialog.lw_w lw' = take (Z.to_nat n) (concat chunks)
    /\ len (Dialog.lw_w lw') <= n.
Proof.
  intros Hn Hall.
  destruct (writeAll_caps chunks (Dialog.mkLimitWriter [] n 0))
    as (lw' & Hrun & Hbuf & _ & _); try done.
  exists lw'. cbn in Hrun, Hbuf. split; [done|]. split; [done|].
  rewrite Hbuf. unfold len. rewrite length_take. lia.
Qed.

(** With the limit 4, the pieces [1;2;3] and [4;5;6] end in the error and
    leave [1;2;3;4] in the buffer. *)
Lemma limitWriter_caps_witness :
  exists lw',
    Notions.writeAll [[1; 2; 3]; [4; 5; 6]] (Dialog.mkLimitWriter [] 4 0) =
      Some (Some (Errorf "template output exceeds %d bytes" [ArgI 4]), lw')
    /\ Dialog.lw_w lw' = [1; 2; 3; 4].
Proof.
  destruct (limitWriter_caps 4 [[1; 2; 3]; [4; 5; 6]]) as (lw' & Hrun & Hbuf & _).
  - lia.
  - repeat (apply Forall_cons_2; [vm_compute; discriminate|]). constructor.
  - exists lw'. split; [exact Hrun | exact Hbuf].
Defined.

(** ** The loop of a dialog session *)

Section LoopProofs.
Import Dialog Handler Notions.

Variable template_Execute : string -> Session -> Result string.

Lemma RecordTransition_state now from to trigger s :
  1 <= maxHistory s ->
  exists s',
    RecordTransition now from to trigger s = Some s'
    /\ CurrentState s' = to /\ maxHistory s' = maxHistory s.
Proof.
  intros Hcap.
  destruct (RecordTransition_total now from to trigger s Hcap) as (k & -> & _).
  by eexists.
Qed.

Lemma advances_refl as' : inDialog as' -> advances as' as' [].
Proof. intros H. unfold advances. by rewrite app_nil_r. Qed.

Lemma advances_trans a b c n1 n2 :
  advances a b n1 -> advances b c n2 -> advances a c (n1 ++ n2).
Proof.
  intros (Hsm1 & _ & Hm1 & Hr1 & Ht1 & Hl1) (Hsm2 & Hin2 & Hm2 & Hr2 & Ht2 & Hl2).
  unfold advances. split; [congruence|]. split; [done|]. split; [congruence|].
  split; [by rewrite Hr2, Hr1, app_assoc|].
  split; [apply Forall_app; split; [done | by rewrite <- Hsm1]|].
  destruct n2 as [|r2 n2 _] using rev_ind.
  - rewrite app_nil_r. cbn in Hl2.
    destruct (last n1); [by rewrite Hl2 | congruence].
  - rewrite app_assoc, last_snoc. by rewrite last_snoc in Hl2.
Qed.

Lemma onEvent_sound now state event value trigger as' :
  Validate (sm as') = None ->
  1 <= maxHistory (session as') ->
  GetState (sm as') (CurrentState (session as')) = Some state ->
  Terminal state = false ->
  exists as1 going new,
    onEvent template_Execute now state event value trigger as' = Some (as1, going)
    /\ advances as' as1 new.
Proof.
  intros Hv Hcap Hst Hterm. unfold onEvent. cbv zeta.
  cbn [session withSession sm].
  destruct (EvaluateTransitions template_Execute state event
              (SetLastEvent value (session as'))) as [[next acts]|e] eqn:Hev.
  - destruct (String.eqb_spec next "") as [->|Hne]; cbn [negb].
    + eexists _, _, [_]. split; [reflexivity|].
      unfold advances, inDialog, truthful. cbn [sm session send withSession resultCh].
      split_and!; try done; [idtac]. 
      constructor; [|done]. cbn. exists state. by rewrite Hterm.
    + destruct (evaluate_in_dialog template_Execute (sm as')
                  (CurrentState (session as')) state event
                  (SetLastEvent value (session as')) next acts Hv Hst Hev)
        as [[? _]|(_ & [newState Hnew] & _)]; [done|].
      destruct (RecordTransition_state now
                  (GetCurrentState (SetLastEvent value (session as'))) next trigger
                  (SetLastEvent value (session as')) Hcap) as (s2 & -> & Hcur & Hmax).
      rewrite Hnew.
      eexists _, _, [_]. split; [reflexivity|].
      unfold advances, inDialog, truthful. cbn [sm session send withSession resultCh].
      split_and!; try done.
      * by rewrite Hcur, Hnew.
      * constructor; [|done]. cbn. by exists newState.
      * cbn. by rewrite Hcur.
  - eexists _, _, [_]. split; [reflexivity|].
    unfold advances, inDialog, truthful. cbn [sm session send withSession resultCh].
    split_and!; try done; [idtac].
    constructor; [|done]. cbn. by apply evaluateLoop_Err in Hev.
Qed.

Lemma loopTurn_sound now sel as' :
  Validate (sm as') = None ->
  1 <= maxHistory (session as') ->
  inDialog as' ->
  exists as1 going new,
    loopTurn template_Execute now sel as' = Some (as1, going)
    /\ advances as' as1 new.
Proof.
  intros Hv Hcap [state Hst]. unfold loopTurn. cbv zeta.
  unfold GetCurrentState. rewrite Hst.
  destruct (Terminal state) eqn:Hterm.
  { eexists _, _, [_]. split; [reflexivity|].
    unfold advances, inDialog, truthful. cbn [sm session send withSession resultCh].
    split_and!; try done; [idtac].
    constructor; [|done]. cbn. exists state. by rewrite Hterm. }
  assert (advances as' as' []) as Hstay by (apply advances_refl; by exists state).
  destruct sel as [|[result|]|[digit|]|].
  - by eexists _, _, [].
  - by apply onEvent_sound.
  - by eexists _, _, [].
  - by apply onEvent_sound.
  - by eexists _, _, [].
  - destruct (String.eqb_spec (TimeoutNext state) "") as [He|Hne]; cbn [negb].
    { by eexists _, _, []. }
    apply Validate_wellFormed in Hv as Hwf. destruct Hwf as [_ Hwf].
    destruct (Hwf _ _ Hst) as [_ Hnext]. destruct (Hnext Hne) as [newState Hnew].
    destruct (RecordTransition_state now (CurrentState (session as'))
                (TimeoutNext state) "timeout" (session as') Hcap)
      as (s2 & -> & Hcur & Hmax).
    cbn [sm withSession]. unfold GetState at 1. rewrite Hnew.
    eexists _, _, [_]. split; [reflexivity|].
    unfold advances, inDialog, truthful. cbn [sm session send withSession resultCh].
    split_and!; try done.
    + unfold GetState. rewrite Hcur, Hnew. by eexists.
    + constructor; [|done]. cbn. by exists newState.
    + cbn. by rewrite Hcur.
Qed.

Lemma runDialogLoop_sound turns :
  forall as',
    Validate (sm as') = None ->
    1 <= maxHistory (session as') ->
    inDialog as' ->
    exists as1 going new,
      runDialogLoop template_Execute turns as' = Some (as1, going)
      /\ advances as' as1 new.
Proof.
  induction turns as [|[now sel] turns IH]; intros as' Hv Hcap Hin; cbn [runDialogLoop].
  - exists as', true, []. split; [done|]. by apply advances_refl.
  - destruct (loopTurn_sound now sel as' Hv Hcap Hin) as (as1 & going & n1 & -> & Hadv).
    destruct going; [|by eexists _, _, n1].
    pose proof Hadv as (Hsm & Hin1 & Hm & _).
    destruct (IH as1) as (as2 & going & n2 & -> & Hadv2); [congruence | lia | done |].
    exists as2, going, (n1 ++ n2). split; [done|]. by eapply advances_trans.
Qed.

End LoopProofs.

(** X5.  The loop of a dialog session, on an active session whose state
    machine [Validate] accepts, whose history cap is one or more and whose
    current state is a state of the dialog (as [StartDialog] leaves it),
    whatever cases its [select] takes and at whatever instants: it never
    panics; it keeps the state machine and the cap; the current state of the
    session stays a state of the dialog; every result it sends either
    carries no error, names a state of the dialog and tells truly whether
    that state is terminal, or carries the error of a condition that does
    not evaluate, so the error [state not found] is never sent; and the
    last result sent, when it carries no error, names the current state the
    session is left in. *)
Theorem runDialogLoop_stays_in_dialog
    (template_Execute : string -> Dialog.Session -> Result string)
    (turns : list (Time * Handler.selected)) (as' : Handler.activeSession) :
  Dialog.Validate (Handler.sm as') = None ->
  1 <= Dialog.maxHistory (Handler.session as') ->
  is_Some (Dialog.GetState (Handler.sm as')
             (Dialog.CurrentState (Handler.session as'))) ->
  exists after going new,
    Handler.runDialogLoop template_Execute turns as' = Some (after, going)
    /\ Handler.sm after = Handler.sm as'
    /\ Dialog.maxHistory (Handler.session after)
       = Dialog.maxHistory (Handler.session as')
    /\ is_Some (Dialog.GetState (Handler.sm after)
                  (Dialog.CurrentState (Handler.session after)))
    /\ Handler.resultCh after = Handler.resultCh as' ++ new
    /\ (forall r, r ∈ new ->
          match Handler.err r with
          | None =>
            exists st,
              Dialog.GetState (Handler.sm as') (Handler.newState r) = Some st
              /\ Handler.terminal r = Dialog.Terminal st
          | Some e => exists c e', e = ErrorfW "eval condition %q: %w" [ArgS c] e'
          end)
    /\ (forall r, last new = Some r -> Handler.err r = None ->
          Handler.newState r = Dialog.CurrentState (Handler.session after)).
Proof.
  intros Hv Hcap Hin.
  destruct (runDialogLoop_sound template_Execute turns as' Hv Hcap Hin)
    as (after & going & new & Hrun & Hsm & Hin' & Hm & Hres & Htrue & Hlast).
  exists after, going, new. split; [done|]. split; [done|]. split; [done|].
  split; [done|]. split; [done|]. split.
  - intros r Hr. rewrite Forall_forall in Htrue. by apply Htrue.
  - intros r Hr. by rewrite Hr in Hlast.
Qed.

(** The session [StartDialog] stores for the sample request, taken through
    two speech events and a closed channel: the loop is in [goodbye], a
    state of the dialog, having sent the results for [handle] and for
    [goodbye], the second terminal. *)
Lemma runDialogLoop_stays_in_dialog_witness :
  let start := Handler.mkActiveSession
                 (Handler.startSession 0 Samples.startRequest "greeting")
                 (Dialog.NewStateMachine Samples.testDialog) [] [] [] false in
  exists after going,
    Handler.runDialogLoop Samples.execute
      [(1, Handler.speechReceived (Some (Handler.mkASRResult "hi" true)));
       (2, Handler.speechReceived (Some (Handler.mkASRResult "bye" true)))] start
    = Some (after, going)
    /\ Dialog.CurrentState (Handler.session after) = "goodbye"
    /\ is_Some (Dialog.GetState (Handler.sm after) "goodbye")
    /\ Handler.resultCh after
       = [Handler.mkActionResult [] "handle" false None;
          Handler.mkActionResult [Samples.sayBye; Samples.hangup] "goodbye" true None].
Proof.
  intros start.
  destruct (runDialogLoop_stays_in_dialog Samples.execute
              [(1, Handler.speechReceived (Some (Handler.mkASRResult "hi" true)));
               (2, Handler.speechReceived (Some (Handler.mkASRResult "bye" true)))] start)
    as (after & going & new & Hrun & _ & _ & Hin & _).
  - vm_compute. reflexivity.
  - vm_compute. discriminate.
  - vm_compute. by eexists.
  - exists after, going. split; [exact Hrun|].
    vm_compute in Hrun. injection Hrun as <- <-.
    split; [reflexivity|]. split; [exact Hin | reflexivity].
Defined.

(** ** The session store *)

Section StoreProofs.
Import Dialog Handler.

Lemma EndDialog_missing id store :
  store !! id = None ->
  EndDialog id store =
    (Err (ConnectError CodeNotFound (Errorf "session %q not found" [ArgS id])), store).
Proof. intros H. unfold EndDialog. by rewrite H. Qed.

Lemma EndDialog_present id store :
  is_Some (store !! id) -> EndDialog id store = (Ok tt, delete id store).
Proof. intros [as' H]. unfold EndDialog. by rewrite H. Qed.

Lemma reap_lookup now store id as' :
  reapStaleSessions now store !! id = Some as'
  <-> store !! id = Some as' /\ Sub now (StartTime (session as')) <= sessionTTL.
Proof.
  unfold reapStaleSessions. rewrite map_lookup_filter_Some. cbn. split.
  - intros [H Hn]. split; [done|]. lia.
  - intros [H Hn]. split; [done|]. lia.
Qed.

End StoreProofs.

(** X6.  [EndDialog] for an id the store does not hold fails with
    not-found and leaves the store as it is.  For an id the store holds it
    succeeds and removes that session and no other; afterwards [EndDialog]
    and [GetSession] for the id fail with not-found.  A session started by
    [StartDialog] under a fresh id is found by [GetSession], with the
    variables of the request and an empty history, and ending it gives back
    the store as it was before the start. *)
Theorem EndDialog_removes
    (Format_RFC3339 : Time -> string)
    (id : string) (store : gmap string Handler.activeSession) :
  (store !! id = None ->
   Handler.EndDialog id store =
     (Err (ConnectError CodeNotFound (Errorf "session %q not found" [ArgS id])), store))
  /\ (is_Some (store !! id) ->
      exists store',
        Handler.EndDialog id store = (Ok tt, store')
        /\ store' !! id = None
        /\ (forall other, other <> id -> store' !! other = store !! other)
        /\ isErr (Handler.EndDialog id store').1 = true
        /\ isErr (Handler.GetSession Format_RFC3339 id store') = true)
  /\ (forall now loader req resp,
        Handler.Req_SessionId req = id ->
        store !! id = None ->
        (Handler.StartDialog now loader req store).1 = Ok resp ->
        let started := (Handler.StartDialog now loader req store).2 in
        (exists got,
           Handler.GetSession Format_RFC3339 id started = Ok got
           /\ Handler.Got_SessionId got = id
           /\ Handler.Got_CurrentState got = Handler.Resp_CurrentState resp
           /\ Handler.Got_Variables got = Handler.Req_Variables req
           /\ Handler.Got_History got = [])
        /\ Handler.EndDialog id started = (Ok tt, store)).
Proof.
  split_and!.
  - apply EndDialog_missing.
  - intros Hin. exists (delete id store).
    split; [by apply EndDialog_present|].
    split; [apply lookup_delete_eq|].
    split; [intros other Hne; by apply lookup_delete_ne|].
    rewrite EndDialog_missing by apply lookup_delete_eq.
    unfold Handler.GetSession. by rewrite lookup_delete_eq.
  - intros now loader req resp Hid Hfresh Hok. cbv zeta.
    unfold Handler.StartDialog in *. cbv zeta in *.
    destruct (loader !! Handler.Req_DialogName req) as [sm|]; [|done].
    destruct (Dialog.GetState sm _) as [state|] eqn:Hst; [|done].
    cbn [fst snd] in *. injection Hok as <-.
    destruct (startSession_fields now req
                (if String.eqb (Handler.Req_InitialState req) ""
                 then Dialog.InitialState sm else Handler.Req_InitialState req))
      as (Hsid & Hcur & Hh & _ & _ & _ & Hvars).
    cbv zeta in Hsid, Hcur, Hh, Hvars. rewrite Hsid, Hid. split.
    + unfold Handler.GetSession. rewrite lookup_insert_eq. eexists.
      split; [reflexivity|]. cbn.
      unfold Dialog.GetCurrentState, Dialog.CopyVariables, Dialog.CopyHistory.
      by rewrite Hsid, Hid, Hcur, Hvars, Hh.
    + rewrite EndDialog_present by (rewrite lookup_insert_eq; by eexists).
      by rewrite delete_insert_eq, delete_id.
Qed.

(** The sample session: started, found, ended, and then not found. *)
Lemma EndDialog_removes_witness :
  let started := (Handler.StartDialog 0 Samples.loader Samples.startRequest ∅).2 in
  Handler.EndDialog "s1" started = (Ok tt, ∅)
  /\ isErr (Handler.EndDialog "s1" ∅).1 = true.
Proof.
  intros started.
  destruct (EndDialog_removes (fun _ => "") "s1" ∅) as (Hmiss & _ & Hstart).
  split.
  - apply (Hstart 0 Samples.loader Samples.startRequest
             (Handler.mkStartDialogResponse "s1" "greeting"
                [Handler.mkActionDirective "play_tts" {["text" := "Hello!"]}])).
    + reflexivity.
    + reflexivity.
    + vm_compute. reflexivity.
  - rewrite Hmiss by reflexivity. reflexivity.
Defined.

(** X7.  [reapStaleSessions], run at the instant [now], keeps exactly the
    sessions whose start lies at most thirty minutes back, each as it was,
    and removes the others; the age is the difference [now - start] as
    [time.Sub] measures it.  So a session started by [StartDialog] at [t0]
    survives a reaping at [now], with [now - t0] inside 64 bits, exactly
    when [now - t0] is at most thirty minutes. *)
Theorem reapStaleSessions_keeps
    (now : Time) (store : gmap string Handler.activeSession) :
  (forall id as',
      Handler.reapStaleSessions now store !! id = Some as'
      <-> store !! id = Some as'
          /\ Sub now (Dialog.StartTime (Handler.session as')) <= 30 * 60 * Second)
  /\ (forall t0 loader req resp,
        (Handler.StartDialog t0 loader req store).1 = Ok resp ->
        minInt64 <= now - t0 <= maxInt64 ->
        let started := (Handler.StartDialog t0 loader req store).2 in
        is_Some (Handler.reapStaleSessions now started !! Handler.Req_SessionId req)
        <-> now - t0 <= 30 * 60 * Second).
Proof.
  split.
  - intros id as'. apply reap_lookup.
  - intros t0 loader req resp Hok Hrange. cbv zeta.
    unfold Handler.StartDialog in *. cbv zeta in *.
    destruct (loader !! Handler.Req_DialogName req) as [sm|]; [|done].
    destruct (Dialog.GetState sm _) as [state|] eqn:Hst; [|done].
    cbn [fst snd] in *.
    destruct (startSession_fields t0 req
                (if String.eqb (Handler.Req_InitialState req) ""
                 then Dialog.InitialState sm else Handler.Req_InitialState req))
      as (Hsid & _ & _ & Hstart & _).
    cbv zeta in Hsid, Hstart. rewrite Hsid. split.
    + intros [as' [Hl Hage]%reap_lookup]. rewrite lookup_insert_eq in Hl.
      injection Hl as <-. cbn in Hage. rewrite Hstart, Sub_exact in Hage by done.
      exact Hage.
    + intros Hage. eexists. apply reap_lookup. rewrite lookup_insert_eq.
      split; [reflexivity|]. cbn. rewrite Hstart, Sub_exact by done. exact Hage.
Qed.

(** The sample session, started at 0, is there after a reaping at 29
    minutes and gone after a reaping at 31 minutes. *)
Lemma reapStaleSessions_keeps_witness :
  let started := (Handler.StartDialog 0 Samples.loader Samples.startRequest ∅).2 in
  is_Some (Handler.reapStaleSessions (29 * 60 * Second) started !! "s1")
  /\ Handler.reapStaleSessions (31 * 60 * Second) started !! "s1" = None.
Proof.
  intros started. split.
  - apply (proj2 (reapStaleSessions_keeps (29 * 60 * Second) ∅) 0 Samples.loader
             Samples.startRequest
             (Handler.mkStartDialogResponse "s1" "greeting"
                [Handler.mkActionDirective "play_tts" {["text" := "Hello!"]}])).
    + vm_compute. reflexivity.
    + vm_compute. split; discriminate.
    + vm_compute. discriminate.
  - destruct (Handler.reapStaleSessions (31 * 60 * Second) started !! "s1")
      as [as'|] eqn:Hl; [|reflexivity].
    apply (proj1 (reapStaleSessions_keeps (31 * 60 * Second) started)) in Hl
      as [Hs Hage].
    vm_compute in Hs. injection Hs as <-. vm_compute in Hage. by destruct Hage.
Defined.

(** ** Runs of the circuit breaker *)

Section BreakerRunProofs.
Import Webhook Notions.

Lemma streak_snoc evs ev :
  streak (evs ++ [ev]) =
    match ev with
    | asked _ => streak evs
    | succeeded => 0
    | failed _ => streak evs + 1
    end.
Proof. unfold streak. by rewrite foldl_app. Qed.

Lemma streak_nonneg evs : 0 <= streak evs.
Proof.
  induction evs as [|ev evs IH] using rev_ind; [done|].
  rewrite streak_snoc. destruct ev; lia.
Qed.

Lemma breakerRun_snoc evs ev cb :
  breakerRun (evs ++ [ev]) cb = breakerStep (breakerRun evs cb) ev.
Proof. unfold breakerRun. by rewrite foldl_app. Qed.

(** As long as no streak reaches the threshold the breaker is closed and
    counts the streak. *)
Lemma breakerRun_closed cfg evs :
  1 <= FailureThreshold cfg <= maxInt64 ->
  (forall k, streak (take k evs) < FailureThreshold cfg) ->
  let cb := breakerRun evs (NewCircuitBreaker cfg) in
  state cb = StateClosed /\ failures cb = streak evs
  /\ config cb = config (NewCircuitBreaker cfg).
Proof.
  intros Hn. induction evs as [|ev evs IH] using rev_ind; intros Hpre; [done|].
  destruct IH as (Hst & Hf & Hc).
  { intros k. specialize (Hpre (k `min` length evs)%nat).
    rewrite take_app_le in Hpre by lia.
    destruct (Nat.le_gt_cases k (length evs)).
    - by rewrite Nat.min_l in Hpre.
    - rewrite Nat.min_r, firstn_all in Hpre by lia. by rewrite take_ge by lia. }
  specialize (Hpre (length (evs ++ [ev]))). rewrite firstn_all in Hpre.
  rewrite streak_snoc in Hpre |- *.
  pose proof (streak_nonneg evs) as H0.
  cbv zeta. rewrite breakerRun_snoc.
  set (cb := breakerRun evs (NewCircuitBreaker cfg)) in *.
  destruct ev as [now| |now]; cbn [breakerStep].
  - unfold AllowRequest. rewrite Hst. by cbn.
  - unfold RecordSuccess. rewrite Hst. by cbn.
  - unfold RecordFailure. rewrite Hst, Hf, Hc. cbn [String.eqb StateClosed StateHalfOpen
      Ascii.eqb Bool.eqb state failures config].
    rewrite NewCircuitBreaker_threshold.
    rewrite wrap64_small by (unfold minInt64, maxInt64 in *; lia).
    by destruct (Z.leb_spec (FailureThreshold cfg) (streak evs + 1)); [lia|].
Qed.

End BreakerRunProofs.

(** X8.  A breaker made by [NewCircuitBreaker] with the threshold [n],
    taken through requests, successes and failures in any order: as long
    as the failures since the last success have never numbered [n], the
    breaker is closed, its failure count is the number of failures since the
    last success, and it lets every request pass without changing.  The
    next failure opens it exactly when it is the [n]-th in a row; a success
    in between starts the count again. *)
Theorem breaker_opens_on_streak_only
    (cfg : Webhook.CircuitBreakerConfig) (evs : list Notions.breakerEvent) (n : Z) :
  Webhook.FailureThreshold cfg = n ->
  1 <= n <= maxInt64 ->
  (forall k, Notions.streak (take k evs) < n) ->
  let cb := Notions.breakerRun evs (Webhook.NewCircuitBreaker cfg) in
  Webhook.state cb = Webhook.StateClosed
  /\ Webhook.failures cb = Notions.streak evs
  /\ (forall now, Webhook.AllowRequest now cb = (true, cb))
  /\ (forall now,
        Webhook.state (Webhook.RecordFailure now cb)
        = if Notions.streak evs + 1 <? n then Webhook.StateClosed else Webhook.StateOpen)
  /\ Webhook.failures (Webhook.RecordSuccess cb) = 0.
Proof.
  intros <- Hn Hpre.
  destruct (breakerRun_closed cfg evs Hn Hpre) as (Hst & Hf & Hc). cbv zeta.
  set (cb := Notions.breakerRun evs (Webhook.NewCircuitBreaker cfg)) in *.
  pose proof (streak_nonneg evs) as H0.
  specialize (Hpre (length evs)). rewrite firstn_all in Hpre.
  split_and!; try done.
  - intros now. unfold Webhook.AllowRequest. by rewrite Hst.
  - intros now. unfold Webhook.RecordFailure. rewrite Hst, Hf, Hc.
    cbn [String.eqb Webhook.StateClosed Webhook.StateHalfOpen Ascii.eqb Bool.eqb
         Webhook.state].
    rewrite NewCircuitBreaker_threshold.
    rewrite wrap64_small by (unfold minInt64, maxInt64 in *; lia).
    destruct (Z.leb_spec (Webhook.FailureThreshold cfg) (Notions.streak evs + 1)),
             (Z.ltb_spec (Notions.streak evs + 1) (Webhook.FailureThreshold cfg));
      done || lia.
  - unfold Webhook.RecordSuccess. rewrite Hst. by cbn.
Qed.

(** With the threshold 3: two failures, a success and two more failures
    leave the breaker closed with the count 2; the next failure opens it. *)
Lemma breaker_opens_on_streak_only_witness :
  let cfg := Webhook.mkCircuitBreakerConfig 3 Second 1 in
  let cb := Notions.breakerRun
              [Notions.failed 1; Notions.failed 2; Notions.succeeded;
               Notions.asked 3; Notions.failed 4; Notions.failed 5]
              (Webhook.NewCircuitBreaker cfg) in
  Webhook.state cb = Webhook.StateClosed
  /\ Webhook.failures cb = 2
  /\ Webhook.state (Webhook.RecordFailure 6 cb) = Webhook.StateOpen.
Proof.
  intros cfg cb.
  destruct (breaker_opens_on_streak_only cfg
              [Notions.failed 1; Notions.failed 2; Notions.succeeded;
               Notions.asked 3; Notions.failed 4; Notions.failed 5] 3)
    as (Hst & Hf & _ & Hopen & _).
  - reflexivity.
  - vm_compute. split; discriminate.
  - intros k. do 7 (destruct k as [|k]; [vm_compute; reflexivity|]).
    vm_compute. reflexivity.
  - split; [exact Hst|]. split; [exact Hf|]. apply Hopen.
Defined.

(** ** The breakers of the deliverer *)

Section BreakersProofs.
Import Webhook Delivery Notions.

Variable firstBreaker : gmap string CircuitBreaker -> option string.

Lemma getOrCreateBreaker_found cfg id bs cb :
  bs !! id = Some cb -> getOrCreateBreaker firstBreaker cfg id bs = (cb, bs).
Proof. intros H. unfold getOrCreateBreaker. by rewrite H. Qed.

Lemma getOrCreateBreaker_new cfg id bs :
  bs !! id = None ->
  exists bs1,
    getOrCreateBreaker firstBreaker cfg id bs =
      (NewCircuitBreaker
         (mkCircuitBreakerConfig (CBFailThreshold cfg)
            (wrap64 (CBResetTimeoutSec cfg * Second)) 1),
       <[id := NewCircuitBreaker
                 (mkCircuitBreakerConfig (CBFailThreshold cfg)
                    (wrap64 (CBResetTimeoutSec cfg * Second)) 1)]> bs1)
    /\ bs1 !! id = None
    /\ (bs1 = bs /\ Z.of_nat (size bs) < maxBreakers
        \/ bs1 = bs /\ firstBreaker bs = None /\ maxBreakers <= Z.of_nat (size bs)
        \/ exists k, bs1 = delete k bs /\ firstBreaker bs = Some k
                     /\ maxBreakers <= Z.of_nat (size bs)).
Proof.
  intros H. unfold getOrCreateBreaker. rewrite H. cbv zeta.
  destruct (Z.leb_spec maxBreakers (Z.of_nat (size bs))) as [Hfull|Hroom].
  - destruct (firstBreaker bs) as [k|] eqn:Hk.
    + exists (delete k bs). split; [done|].
      split; [by rewrite lookup_delete_None; right|]. right. right. by exists k.
    + exists bs. split; [done|]. split; [done|]. right. by left.
  - exists bs. split; [done|]. split; [done|]. by left.
Qed.

End BreakersProofs.

(** X9.  [getOrCreateBreaker] returns the breaker the deliverer holds for
    the endpoint, as it is and without changing the breakers, when there is
    one.  Otherwise it returns a new breaker, closed, with no failure, with
    the threshold of the configuration and one half-open attempt, and stores
    it for the endpoint.  In both cases the breakers afterwards hold the
    breaker returned.  When the [range] over the breakers is lawful, breakers
    that numbered at most 10000 number at most 10000 afterwards; below
    10000 no breaker of another endpoint is touched, and at 10000 only the
    one the [range] meets first is dropped. *)
Theorem getOrCreateBreaker_bounded
    (firstBreaker : gmap string Webhook.CircuitBreaker -> option string)
    (cfg : Webhook.DelivererConfig) (id : string)
    (bs : gmap string Webhook.CircuitBreaker) :
  let r := Delivery.getOrCreateBreaker firstBreaker cfg id bs in
  r.2 !! id = Some r.1
  /\ (forall cb, bs !! id = Some cb -> r = (cb, bs))
  /\ (bs !! id = None ->
      Webhook.state r.1 = Webhook.StateClosed
      /\ Webhook.failures r.1 = 0
      /\ Webhook.FailureThreshold (Webhook.config r.1) = Webhook.CBFailThreshold cfg
      /\ Webhook.HalfOpenMaxAttempts (Webhook.config r.1) = 1)
  /\ (Notions.lawful firstBreaker ->
      Z.of_nat (size bs) <= Delivery.maxBreakers ->
      Z.of_nat (size r.2) <= Delivery.maxBreakers)
  /\ (forall k, k <> id ->
        Z.of_nat (size bs) < Delivery.maxBreakers \/ firstBreaker bs <> Some k ->
        r.2 !! k = bs !! k).
Proof.
  cbv zeta. destruct (bs !! id) as [cb|] eqn:Hid.
  - rewrite (getOrCreateBreaker_found firstBreaker cfg id bs cb Hid). cbn [fst snd].
    split_and!; try done.
    intros cb' [= <-]. done.
  - destruct (getOrCreateBreaker_new firstBreaker cfg id bs Hid)
      as (bs1 & -> & Hid1 & Hbs1). cbn [fst snd].
    split_and!; try done.
    + apply lookup_insert_eq.
    + intros Hlaw Hsize. rewrite map_size_insert, Hid1.
      specialize (Hlaw bs).
      destruct Hbs1 as [[-> Hroom]|[(-> & Hk & Hfull)|(k & -> & Hk & Hfull)]].
      * lia.
      * rewrite Hk in Hlaw. subst bs. rewrite map_size_empty in Hfull.
        unfold Delivery.maxBreakers in Hfull. lia.
      * rewrite Hk in Hlaw. destruct Hlaw as [cbk Hcbk].
        rewrite map_size_delete, Hcbk.
        assert (size bs <> 0%nat) by (unfold Delivery.maxBreakers in Hfull; lia). lia.
    + intros k Hne Hk. rewrite lookup_insert_ne by done.
      destruct Hbs1 as [[-> _]|[(-> & _)|(k' & -> & Hk' & Hfull)]]; [done..|].
      destruct Hk as [?|Hk]; [lia|].
      rewrite lookup_delete_ne; [done|]. congruence.
Qed.

(** A deliverer without breakers gets a closed breaker for the sample
    endpoint, and holds one breaker afterwards. *)
Lemma getOrCreateBreaker_bounded_witness :
  let r := Delivery.getOrCreateBreaker Samples.firstKey Samples.retryConfig "wh1" ∅ in
  Webhook.state r.1 = Webhook.StateClosed
  /\ Z.of_nat (size r.2) <= Delivery.maxBreakers.
Proof.
  intros r.
  destruct (getOrCreateBreaker_bounded Samples.firstKey Samples.retryConfig "wh1" ∅)
    as (_ & _ & Hnew & Hsize & _).
  split.
  - by apply Hnew.
  - apply Hsize; [|vm_compute; discriminate].
    intros m. unfold Samples.firstKey.
    destruct (map_to_list m) as [|[k cb] l] eqn:Hm; cbn.
    + by apply map_to_list_empty_iff.
    + exists cb. apply elem_of_map_to_list. rewrite Hm. by left.
Defined.

(** ** Deliveries *)

Section DeliverProofs.
Import Webhook Urlvalidation Delivery Notions.

Variable firstBreaker : gmap string CircuitBreaker -> option string.
Variable url_Parse : string -> Result URL.
Variable net_LookupHost : string -> Result (list string).
Variable net_ParseIP : string -> option IP.
Variable json_Marshal : Envelope -> Result string.
Variable Error : error -> string.
Variable Sign : string -> string -> string.
Variable http_NewRequest : string -> option error.

Lemma withBreakers_same d : withBreakers (breakers d) d = d.
Proof. by destruct d. Qed.

Lemma getOrCreateBreaker_lookup cfg id bs :
  (getOrCreateBreaker firstBreaker cfg id bs).2 !! id
  = Some (getOrCreateBreaker firstBreaker cfg id bs).1.
Proof.
  destruct (bs !! id) as [cb|] eqn:Hid.
  - by rewrite (getOrCreateBreaker_found firstBreaker cfg id bs cb Hid).
  - destruct (getOrCreateBreaker_new firstBreaker cfg id bs Hid) as (bs1 & -> & _).
    apply lookup_insert_eq.
Qed.

(** A URL that does not pass the validation: nothing happens. *)
Lemma deliver_rejected a d wh env attempt :
  is_Some (ValidateWebhookURL url_Parse net_LookupHost net_ParseIP (Webhook.URL wh)
     (D_validateOpts d)) -> deliverWithRetry firstBreaker url_Parse net_LookupHost net_ParseIP json_Marshal
     Error Sign http_NewRequest a d wh env attempt = mkOutcome d None None None.
Proof. intros [e He]. unfold deliverWithRetry. by rewrite He. Qed.

(** A breaker that does not let the request pass: no request, no record,
    and [handleFailure] is called with [circuit open]. *)
Lemma deliver_refused a d wh env attempt cb :
  ValidateWebhookURL url_Parse net_LookupHost net_ParseIP (Webhook.URL wh)
     (D_validateOpts d) = None ->
  breakers d !! WebhookEndpoint_ID wh = Some cb ->
  AllowRequest (atAllow a) cb = (false, cb) ->
  deliverWithRetry firstBreaker url_Parse net_LookupHost net_ParseIP json_Marshal
     Error Sign http_NewRequest a d wh env attempt =
    mkOutcome d None None
      (Some ("circuit open",
             handleFailure json_Marshal (D_config d) (D_pool d) wh env attempt
               "circuit open")).
Proof.
  intros Hv Hcb Hno. unfold deliverWithRetry. rewrite Hv. cbv zeta.
  rewrite (getOrCreateBreaker_found firstBreaker _ _ _ cb Hcb), Hno. cbn [negb].
  by rewrite insert_id, withBreakers_same.
Qed.

(** What a request that was sent tells. *)
Lemma deliver_sent a d wh env attempt req :
  sent (deliverWithRetry firstBreaker url_Parse net_LookupHost net_ParseIP json_Marshal
     Error Sign http_NewRequest a d wh env attempt) = Some req ->
  ValidateWebhookURL url_Parse net_LookupHost net_ParseIP (Webhook.URL wh)
     (D_validateOpts d) = None
  /\ (AllowRequest (atAllow a)
        (getOrCreateBreaker firstBreaker (D_config d) (WebhookEndpoint_ID wh)
           (breakers d)).1).1 = true
  /\ http_NewRequest (Webhook.URL wh) = None
  /\ Method req = "POST" /\ Request_URL req = Webhook.URL wh
  /\ json_Marshal env = Ok (Body req)
  /\ Header req !! SignatureHeader = Some (Sign (Secret wh) (Body req))
  /\ is_Some (recorded (deliverWithRetry firstBreaker url_Parse net_LookupHost net_ParseIP json_Marshal
     Error Sign http_NewRequest a d wh env attempt)).
Proof.
  unfold deliverWithRetry.
  destruct (ValidateWebhookURL url_Parse net_LookupHost net_ParseIP (Webhook.URL wh)
     (D_validateOpts d)) as [e|]; [done|]. cbv zeta.
  destruct (getOrCreateBreaker _ _ _ _) as [cb bs]. cbn [fst].
  destruct (AllowRequest (atAllow a) cb) as [[] cb1]; cbn [negb fst]; [|done].
  destruct (json_Marshal env) as [body|e]; [|done].
  destruct (http_NewRequest (Webhook.URL wh)) as [e|]; [done|].
  destruct (answer a) as [resp|e].
  - destruct (_ && _); cbn; intros [= <-]; cbn; split_and!; by eauto.
  - cbn. intros [= <-]. cbn. split_and!; by eauto.
Qed.

(** What a delivery that meets a closed breaker and a failing answer
    leaves: the request is sent and the failure is recorded in the breaker. *)
Lemma deliver_failing a d wh env attempt cb bs body :
  ValidateWebhookURL url_Parse net_LookupHost net_ParseIP (Webhook.URL wh)
     (D_validateOpts d) = None ->
  getOrCreateBreaker firstBreaker (D_config d) (WebhookEndpoint_ID wh) (breakers d)
  = (cb, bs) ->
  state cb = StateClosed ->
  json_Marshal env = Ok body ->
  http_NewRequest (Webhook.URL wh) = None ->
  failing a ->
  let o := deliverWithRetry firstBreaker url_Parse net_LookupHost net_ParseIP json_Marshal
     Error Sign http_NewRequest a d wh env attempt in
  is_Some (sent o)
  /\ after o = withBreakers (<[WebhookEndpoint_ID wh := RecordFailure (atRecord a) cb]> bs) d.
Proof.
  intros Hv Hg Hst Hm Hn Hf. cbv zeta. unfold deliverWithRetry.
  rewrite Hv. cbv zeta. rewrite Hg.
  assert (AllowRequest (atAllow a) cb = (true, cb)) as ->
    by (unfold AllowRequest; by rewrite Hst).
  cbn [negb]. rewrite Hm, Hn. unfold failing in Hf.
  destruct (answer a) as [resp|e]; [|by cbn].
  destruct (Z.leb_spec 200 (StatusCode resp)), (Z.ltb_spec (StatusCode resp) 300);
    cbn; try done. exfalso. apply Hf. lia.
Qed.

End DeliverProofs.

(** X10.  [deliverWithRetry] guards the request.  For a URL that does not
    pass [ValidateWebhookURL] nothing happens: no breaker is made, no
    request is sent, nothing is recorded and no failure is handled.  A
    request that is sent is a POST to the URL of the endpoint, sent after
    the URL has passed the validation and the breaker of the endpoint has
    let it pass; its body is the JSON of the envelope and its signature
    header is [Sign] of the secret and that body; and its attempt is
    recorded.  So under the validation without options, no answer the
    resolver gave for the host of a request sent is parsed by
    [net.ParseIP] as an address in a reserved range.  When the
    breaker the deliverer holds for the endpoint refuses the request, no
    request is sent, nothing is recorded, the deliverer stays as it is and
    [handleFailure] is called with [circuit open]. *)
Theorem deliverWithRetry_guarded
    (firstBreaker : gmap string Webhook.CircuitBreaker -> option string)
    (url_Parse : string -> Result Urlvalidation.URL)
    (net_LookupHost : string -> Result (list string))
    (net_ParseIP : string -> option Urlvalidation.IP)
    (json_Marshal : Webhook.Envelope -> Result string)
    (Error : error -> string) (Sign : string -> string -> string)
    (http_NewRequest : string -> option error)
    (a : Delivery.Attempt) (d : Delivery.Deliverer) (wh : Webhook.WebhookEndpoint)
    (env : Webhook.Envelope) (attempt : Z) :
  let valid :=
    Urlvalidation.ValidateWebhookURL url_Parse net_LookupHost net_ParseIP
      (Webhook.URL wh) (Delivery.D_validateOpts d) in
  let o :=
    Delivery.deliverWithRetry firstBreaker url_Parse net_LookupHost net_ParseIP
      json_Marshal Error Sign http_NewRequest a d wh env attempt in
  (is_Some valid -> o = Delivery.mkOutcome d None None None)
  /\ (forall req,
        Delivery.sent o = Some req ->
        valid = None
        /\ (Webhook.AllowRequest (Delivery.atAllow a)
              (Delivery.getOrCreateBreaker firstBreaker (Delivery.D_config d)
                 (Webhook.WebhookEndpoint_ID wh) (Delivery.breakers d)).1).1 = true
        /\ Delivery.Method req = "POST"
        /\ Delivery.Request_URL req = Webhook.URL wh
        /\ json_Marshal env = Ok (Delivery.Body req)
        /\ Delivery.Header req !! Delivery.SignatureHeader
           = Some (Sign (Webhook.Secret wh) (Delivery.Body req))
        /\ is_Some (Delivery.recorded o))
  /\ (forall req u ips ipStr ip,
        Delivery.sent o = Some req ->
        Delivery.D_validateOpts d = [] ->
        url_Parse (Webhook.URL wh) = Ok u ->
        net_LookupHost (Urlvalidation.Hostname u) = Ok ips ->
        ipStr ∈ ips ->
        net_ParseIP ipStr = Some ip ->
        Forall Notions.isByte ip ->
        ~ Notions.reserved ip)
  /\ (forall cb,
        valid = None ->
        Delivery.breakers d !! Webhook.WebhookEndpoint_ID wh = Some cb ->
        Webhook.AllowRequest (Delivery.atAllow a) cb = (false, cb) ->
        o = Delivery.mkOutcome d None None
              (Some ("circuit open",
                     Webhook.handleFailure json_Marshal (Delivery.D_config d)
                       (Delivery.D_pool d) wh env attempt "circuit open"))).
Proof.
  cbv zeta. split_and!.
  - apply deliver_rejected.
  - intros req Hs. apply deliver_sent in Hs as (? & ? & ? & ? & ? & ? & ? & ?).
    by split_and!.
  - intros req u ips ipStr ip Hs Hopts Hu Hl Hin Hp Hb Hres.
    apply deliver_sent in Hs as (Hv & _). rewrite Hopts in Hv.
    apply isPrivateIP_reserved in Hres; [|done].
    destruct (ValidateWebhookURL_private url_Parse net_LookupHost net_ParseIP
                (Webhook.URL wh) u ips ipStr ip Hu Hl Hin Hp Hres) as [e He].
    congruence.
  - intros cb. apply deliver_refused.
Qed.

(** The sample endpoint, under a resolver that gives its host a public
    address: the delivery answered with status 500 is sent, as a POST to the
    URL of the endpoint. *)
Lemma deliverWithRetry_guarded_witness :
  exists req,
    Delivery.sent
      (Delivery.deliverWithRetry Samples.firstKey Samples.parsePublic
         Samples.lookupPublic Samples.parseIP Samples.marshal Samples.errorText
         Samples.sign (fun _ => None) Samples.refusedAttempt Samples.deliverer
         Samples.endpoint Samples.envelope 1) = Some req
    /\ Delivery.Method req = "POST"
    /\ Delivery.Request_URL req = "https://example.com/hook".
Proof.
  eexists. split; [vm_compute; reflexivity|].
  destruct (deliverWithRetry_guarded Samples.firstKey Samples.parsePublic
              Samples.lookupPublic Samples.parseIP Samples.marshal Samples.errorText
              Samples.sign (fun _ => None) Samples.refusedAttempt Samples.deliverer
              Samples.endpoint Samples.envelope 1) as (_ & Hsent & _).
  edestruct Hsent as (_ & _ & Hm & Hu & _); [vm_compute; reflexivity|].
  split; [exact Hm | exact Hu].
Defined.

Section DeliverRunProofs.
Import Webhook Urlvalidation Delivery Notions.

Variable firstBreaker : gmap string CircuitBreaker -> option string.
Variable url_Parse : string -> Result URL.
Variable net_LookupHost : string -> Result (list string).
Variable net_ParseIP : string -> option IP.
Variable json_Marshal : Envelope -> Result string.
Variable Error : error -> string.
Variable Sign : string -> string -> string.
Variable http_NewRequest : string -> option error.

(** Failing deliveries to an endpoint whose breaker has seen [ts]
    failures in a row, fewer with the new ones than the threshold allows:
    every request is sent and the breaker has seen them all. *)
Lemma deliverRun_failing wh calls :
  forall d ts,
    let new :=
      NewCircuitBreaker
        (mkCircuitBreakerConfig (CBFailThreshold (D_config d))
           (wrap64 (CBResetTimeoutSec (D_config d) * Second)) 1) in
    let r :=
      deliverRun firstBreaker url_Parse net_LookupHost net_ParseIP json_Marshal
        Error Sign http_NewRequest calls d wh in
    (getOrCreateBreaker firstBreaker (D_config d) (WebhookEndpoint_ID wh)
       (breakers d)).1 = RecordFailures ts new ->
    Z.of_nat (length ts) + Z.of_nat (length calls) <= CBFailThreshold (D_config d) ->
    CBFailThreshold (D_config d) <= maxInt64 ->
    ValidateWebhookURL url_Parse net_LookupHost net_ParseIP (Webhook.URL wh)
      (D_validateOpts d) = None ->
    http_NewRequest (Webhook.URL wh) = None ->
    Forall (fun c => failing c.1.1 /\ isOk (json_Marshal c.1.2) = true) calls ->
    Forall (fun o => is_Some (sent o)) r.2
    /\ D_config r.1 = D_config d /\ D_pool r.1 = D_pool d
    /\ D_validateOpts r.1 = D_validateOpts d
    /\ (calls <> [] ->
        breakers r.1 !! WebhookEndpoint_ID wh
        = Some (RecordFailures (ts ++ map (fun c => atRecord c.1.1) calls) new)).
Proof.
  induction calls as [|c calls IH]; intros d ts new r Hcb Hlen Hmax Hv Hn Hall.
  - subst r. cbn. split_and!; done.
  - apply Forall_cons in Hall as [[Hf Hm] Hall].
    destruct (json_Marshal c.1.2) as [body|] eqn:Hbody; [|done].
    destruct (getOrCreateBreaker firstBreaker (D_config d) (WebhookEndpoint_ID wh)
                (breakers d)) as [cb bs] eqn:Hg.
    cbn [fst] in Hcb. cbn [length] in Hlen.
    destruct (RecordFailures_below
                (mkCircuitBreakerConfig (CBFailThreshold (D_config d))
                   (wrap64 (CBResetTimeoutSec (D_config d) * Second)) 1) ts)
      as (Hst & _); [cbn; lia | done |].
    fold new in Hst. rewrite <- Hcb in Hst.
    destruct (deliver_failing firstBreaker url_Parse net_LookupHost net_ParseIP
                json_Marshal Error Sign http_NewRequest c.1.1 d wh c.1.2 c.2 cb bs body
                Hv Hg Hst Hbody Hn Hf) as [Hsent Hafter].
    subst r. cbn [deliverRun fst snd].
    set (o := deliverWithRetry _ _ _ _ _ _ _ _ _ _ _ _ _) in *.
    assert (breakers (after o) !! WebhookEndpoint_ID wh
            = Some (RecordFailures (ts ++ [atRecord c.1.1]) new)) as Hnext.
    { rewrite Hafter. cbn. rewrite lookup_insert_eq, RecordFailures_snoc.
      by rewrite <- Hcb. }
    assert (D_config (after o) = D_config d /\ D_pool (after o) = D_pool d
            /\ D_validateOpts (after o) = D_validateOpts d) as (Hc0 & Hp0 & Ho0)
      by by rewrite Hafter.
    destruct (IH (after o) (ts ++ [atRecord c.1.1])) as (Hs & Hc & Hp & Ho & Hb).
    + rewrite (getOrCreateBreaker_found _ _ _ _ _ Hnext). by rewrite Hc0.
    + rewrite Hc0, length_app. cbn. lia.
    + by rewrite Hc0.
    + by rewrite Ho0.
    + done.
    + done.
    + rewrite Hc0 in Hc, Hb. rewrite Hp0 in Hp. rewrite Ho0 in Ho.
      split_and!; try done; [by constructor|].
      intros _. destruct calls as [|c' calls].
      * cbn. by rewrite Hnext.
      * rewrite Hb by done. by rewrite <- app_assoc.
Qed.

End DeliverRunProofs.

(** X11.  Failing deliveries open the circuit.  Take a deliverer with the
    breaker threshold [n] that holds no breaker for an endpoint whose URL
    passes the validation, and [n] deliveries to that endpoint, one after
    the other, each with an envelope that serializes and an answer that is
    an error or a status outside 200..299.  Every one of the [n] requests
    is sent.  Afterwards the deliverer holds for the endpoint an open
    breaker whose last failure is that of the last delivery; and as long
    as the time since that failure does not exceed the reset time-out, a
    further delivery sends no request, records nothing, leaves the
    deliverer as it is, and calls [handleFailure] with [circuit open]. *)
Theorem failing_deliveries_open_circuit
    (firstBreaker : gmap string Webhook.CircuitBreaker -> option string)
    (url_Parse : string -> Result Urlvalidation.URL)
    (net_LookupHost : string -> Result (list string))
    (net_ParseIP : string -> option Urlvalidation.IP)
    (json_Marshal : Webhook.Envelope -> Result string)
    (Error : error -> string) (Sign : string -> string -> string)
    (http_NewRequest : string -> option error)
    (d : Delivery.Deliverer) (wh : Webhook.WebhookEndpoint)
    (calls : list (Delivery.Attempt * Webhook.Envelope * Z)) (n : Z) :
  Webhook.CBFailThreshold (Delivery.D_config d) = n ->
  1 <= n <= maxInt64 ->
  Z.of_nat (length calls) = n ->
  Urlvalidation.ValidateWebhookURL url_Parse net_LookupHost net_ParseIP
    (Webhook.URL wh) (Delivery.D_validateOpts d) = None ->
  http_NewRequest (Webhook.URL wh) = None ->
  Delivery.breakers d !! Webhook.WebhookEndpoint_ID wh = None ->
  Forall (fun c => Notions.failing c.1.1 /\ isOk (json_Marshal c.1.2) = true) calls ->
  let r :=
    Notions.deliverRun firstBreaker url_Parse net_LookupHost net_ParseIP json_Marshal
      Error Sign http_NewRequest calls d wh in
  Forall (fun o => is_Some (Delivery.sent o)) r.2
  /\ exists cb,
       Delivery.breakers r.1 !! Webhook.WebhookEndpoint_ID wh = Some cb
       /\ Webhook.state cb = Webhook.StateOpen
       /\ (forall c, last calls = Some c ->
             Webhook.lastFailureTime cb = Delivery.atRecord c.1.1)
       /\ Webhook.ResetTimeout (Webhook.config cb)
          = wrap64 (Webhook.CBResetTimeoutSec (Delivery.D_config d) * Second)
       /\ forall a env attempt,
            Since (Delivery.atAllow a) (Webhook.lastFailureTime cb)
              <= Webhook.ResetTimeout (Webhook.config cb) ->
            Delivery.deliverWithRetry firstBreaker url_Parse net_LookupHost net_ParseIP
              json_Marshal Error Sign http_NewRequest a r.1 wh env attempt
            = Delivery.mkOutcome r.1 None None
                (Some ("circuit open",
                       Webhook.handleFailure json_Marshal (Delivery.D_config d)
                         (Delivery.D_pool d) wh env attempt "circuit open")).
Proof.
  intros Hthr Hn Hlen Hv Hreq Hnone Hall. cbv zeta.
  destruct (getOrCreateBreaker_new firstBreaker (Delivery.D_config d)
              (Webhook.WebhookEndpoint_ID wh) (Delivery.breakers d) Hnone)
    as (bs1 & Hg & _).
  destruct (deliverRun_failing firstBreaker url_Parse net_LookupHost net_ParseIP
              json_Marshal Error Sign http_NewRequest wh calls d [])
    as (Hsent & Hc & Hp & Ho & Hb); try done.
  { by rewrite Hg. }
  { cbn. lia. }
  { lia. }
  split; [done|].
  assert (calls <> []) as Hne by (intros ->; cbn in Hlen; lia).
  specialize (Hb Hne). cbn [app] in Hb.
  set (new := Webhook.NewCircuitBreaker _) in Hb.
  set (ts := map _ calls) in Hb.
  assert (Webhook.state (Webhook.RecordFailures ts new) = Webhook.StateOpen) as Hopen.
  { apply RecordFailures_opens; cbn; [lia|]. subst ts. rewrite length_map. lia. }
  eexists. split; [exact Hb|]. split; [exact Hopen|]. split; [|split].
  - intros c Hlast. destruct calls as [|c0 calls] using rev_ind; [done|].
    rewrite last_snoc in Hlast. injection Hlast as ->.
    subst ts. rewrite map_app. cbn [map]. rewrite RecordFailures_snoc.
    unfold Webhook.RecordFailure. by destruct (String.eqb _ _).
  - destruct calls as [|c0 calls _] using rev_ind; [done|].
    subst ts. rewrite map_app. cbn [map]. rewrite RecordFailures_snoc.
    rewrite length_app in Hlen. cbn [length] in Hlen.
    destruct (RecordFailures_below
                (Webhook.mkCircuitBreakerConfig
                   (Webhook.CBFailThreshold (Delivery.D_config d))
                   (wrap64 (Webhook.CBResetTimeoutSec (Delivery.D_config d) * Second)) 1)
                (map (fun c => Delivery.atRecord c.1.1) calls))
      as (_ & _ & Hcfg); [cbn; rewrite length_map; lia | cbn; lia |].
    fold new in Hcfg.
    unfold Webhook.RecordFailure. destruct (String.eqb _ _); cbn; by rewrite Hcfg.
  - intros a env attempt Hearly.
    rewrite <- Hc, <- Hp.
    eapply deliver_refused; [by rewrite Ho | exact Hb |].
    by apply AllowRequest_open_early.
Qed.

(** Five deliveries to the sample endpoint answered with status 500 are
    all sent; the sixth, which would be answered with status 200, is not. *)
Lemma failing_deliveries_open_circuit_witness :
  let calls := replicate 5 (Samples.refusedAttempt, Samples.envelope, 1) in
  let r :=
    Notions.deliverRun Samples.firstKey Samples.parsePublic Samples.lookupPublic
      Samples.parseIP Samples.marshal Samples.errorText Samples.sign (fun _ => None)
      calls Samples.deliverer Samples.endpoint in
  Forall (fun o => is_Some (Delivery.sent o)) r.2
  /\ Delivery.sent
       (Delivery.deliverWithRetry Samples.firstKey Samples.parsePublic
          Samples.lookupPublic Samples.parseIP Samples.marshal Samples.errorText
          Samples.sign (fun _ => None) Samples.acceptedAttempt r.1 Samples.endpoint
          Samples.envelope 2) = None.
Proof.
  intros calls r.
  destruct (failing_deliveries_open_circuit Samples.firstKey Samples.parsePublic
              Samples.lookupPublic Samples.parseIP Samples.marshal Samples.errorText
              Samples.sign (fun _ => None) Samples.deliverer Samples.endpoint calls 5)
    as (Hsent & cb & _ & _ & Hlast & Htimeout & Hblock).
  - reflexivity.
  - vm_compute. split; discriminate.
  - reflexivity.
  - vm_compute. reflexivity.
  - reflexivity.
  - reflexivity.
  - repeat (apply Forall_cons_2;
              [split; [unfold Notions.failing; cbn; lia | reflexivity]|]).
    constructor.
  - split; [exact Hsent|]. fold r in Hblock. rewrite Hblock; [reflexivity|].
    rewrite (Hlast (Samples.refusedAttempt, Samples.envelope, 1) eq_refl), Htimeout.
    vm_compute. discriminate.
Defined.

(** ** Forwarders *)

Section ForwarderProofs.
Import Sfu Notions.

(** A call that is granted lies at least the interval after the last PLI
    the debouncer had sent before the run. *)
Lemma askPLI_after_last ts :
  forall d j t,
    0 <= interval d <= maxInt64 ->
    askPLI ts d !! j = Some true -> ts !! j = Some t ->
    interval d <= t - lastPLI d.
Proof.
  induction ts as [|t0 ts IH]; intros d j t Hi Hg Ht; [done|].
  assert (minInt64 < interval d <= maxInt64) as Hi'
    by (unfold minInt64 in *; lia).
  pose proof (Sub_lt_iff t0 (lastPLI d) (interval d) Hi') as Hsub.
  destruct j as [|j]; cbn in Hg, Ht.
  - injection Ht as <-. injection Hg as Hg. unfold shouldSendPLI in Hg.
    destruct (Z.ltb_spec (Sub t0 (lastPLI d)) (interval d)); [done|]. lia.
  - unfold shouldSendPLI in Hg.
    destruct (Z.ltb_spec (Sub t0 (lastPLI d)) (interval d)) as [|Hge]; cbn in Hg.
    + by apply (IH d j t).
    + specialize (IH (mkPliDebouncer t0 (interval d)) j t Hi Hg Ht). cbn in IH. lia.
Qed.

End ForwarderProofs.

(** X12.  The debouncer spaces the PLIs.  On a debouncer whose interval
    is not negative, whatever the instants of a run of [shouldSendPLI]
    calls, any two calls that are granted lie at least the interval apart,
    the later one after the earlier one; and every call granted lies at
    least the interval after the last PLI sent before the run. *)
Theorem shouldSendPLI_spaced (ts : list Time) (d : Sfu.pliDebouncer) :
  0 <= Sfu.interval d <= maxInt64 ->
  (forall i j ti tj,
      (i < j)%nat ->
      Notions.askPLI ts d !! i = Some true -> ts !! i = Some ti ->
      Notions.askPLI ts d !! j = Some true -> ts !! j = Some tj ->
      Sfu.interval d <= tj - ti)
  /\ (forall j tj,
        Notions.askPLI ts d !! j = Some true -> ts !! j = Some tj ->
        Sfu.interval d <= tj - Sfu.lastPLI d).
Proof.
  intros Hi. split; [|intros j tj; by apply askPLI_after_last].
  revert d Hi. induction ts as [|t0 ts IH]; intros d Hi i j ti tj Hij Hgi Hti Hgj Htj;
    [done|].
  destruct j as [|j]; [lia|]. cbn in Hgj, Htj.
  destruct i as [|i]; cbn in Hgi, Hti.
  - injection Hti as ->. injection Hgi as Hgi.
    unfold Sfu.shouldSendPLI in *.
    destruct (Z.ltb_spec (Sub ti (Sfu.lastPLI d)) (Sfu.interval d)); [done|].
    cbn in Hgj.
    by apply (askPLI_after_last ts (Sfu.mkPliDebouncer ti (Sfu.interval d)) j tj).
  - assert (Sfu.interval (Sfu.shouldSendPLI t0 d).2 = Sfu.interval d) as Hint
      by (unfold Sfu.shouldSendPLI; by destruct (_ <? _)).
    rewrite <- Hint.
    apply (IH (Sfu.shouldSendPLI t0 d).2) with (i := i) (j := j); try done; [|lia].
    by rewrite Hint.
Qed.

(** The debouncer of the simulcast forwarder, asked every 200 ms from
    the start: it grants the calls at 0, 600 and 1200 ms. *)
Lemma shouldSendPLI_spaced_witness :
  let ts := map (fun k => k * 200 * Millisecond) [0; 1; 2; 3; 4; 5; 6] in
  Notions.askPLI ts (Sfu.newPLIDebouncer (500 * Millisecond))
  = [true; false; false; true; false; false; true]
  /\ 500 * Millisecond <= 1200 * Millisecond - 600 * Millisecond.
Proof.
  intros ts. split; [reflexivity|].
  apply (proj1 (shouldSendPLI_spaced ts (Sfu.newPLIDebouncer (500 * Millisecond))
                  ltac:(vm_compute; split; discriminate)) 3%nat 6%nat);
    [lia | reflexivity..].
Defined.

(** X13.  [RunSimpleForwarder] writes downstream every packet it reads
    in a turn in which the subscription is not paused and has a down track
    that is not muted, in order and unchanged, and nothing else; it stops
    at the first turn that finds the context done or fails to read.  On a
    track of any codec, VP9 too, [RunSVCForwarder] writes the same as long
    as the subscription limits neither the spatial nor the temporal
    layer. *)
Theorem RunSVCForwarder_fallback
    (rtp_Unmarshal : list Z -> option (list Z))
    (vp9_Unmarshal : list Z -> option (Z * Z))
    (rem : Sfu.TrackRemote) (turns : list Sfu.Turn) :
  Sfu.RunSimpleForwarder turns = Notions.passedOn turns
  /\ (Forall Notions.unlimited turns ->
      Sfu.RunSVCForwarder rtp_Unmarshal vp9_Unmarshal rem turns
      = Sfu.RunSimpleForwarder turns)
  /\ (forall pkt, pkt ∈ Sfu.RunSimpleForwarder turns ->
        exists t dt, t ∈ turns /\ Sfu.readResult t = Sfu.ReadPacket pkt
                     /\ Sfu.downTrack (Sfu.subNow t) = Some dt
                     /\ Sfu.paused (Sfu.subNow t) = false /\ Sfu.muted dt = false).
Proof.
  unfold Sfu.RunSVCForwarder, Sfu.RunSimpleForwarder. split_and!.
  - apply simpleLoop_passedOn.
  - induction 1 as [|t rest [HS HT] _ IH]; [done|]. cbn.
    destruct (Sfu.ctxDone t); [done|]. destruct (Sfu.readResult t) as [pkt|]; [|done].
    rewrite IH. f_equal. unfold Sfu.svcTurn, Sfu.simpleTurn, Sfu.svcPass.
    destruct (Z.leb_spec 0 (Sfu.maxSpatialLayer (Sfu.subNow t))); [lia|].
    destruct (Z.leb_spec 0 (Sfu.maxTemporalLayer (Sfu.subNow t))); [lia|].
    by rewrite andb_false_r.
  - induction turns as [|t rest IH]; cbn; [by intros pkt ?%elem_of_nil|].
    intros pkt. destruct (Sfu.ctxDone t); [by intros ?%elem_of_nil|].
    destruct (Sfu.readResult t) as [p|] eqn:Hr; [|by intros ?%elem_of_nil].
    intros [Hin|Hin]%elem_of_app.
    + unfold Sfu.simpleTurn, Sfu.Write in Hin.
      destruct (Sfu.downTrack (Sfu.subNow t)) as [dt|] eqn:Hdt;
        [|by apply elem_of_nil in Hin].
      destruct (Sfu.paused (Sfu.subNow t)) eqn:Hp; [by apply elem_of_nil in Hin|].
      destruct (Sfu.muted dt) eqn:Hm; [by apply elem_of_nil in Hin|].
      apply list_elem_of_singleton in Hin as ->.
      exists t, dt. split; [by left|]. by rewrite Hr.
    + destruct (IH pkt Hin) as (t' & dt & Ht' & ?). exists t', dt.
      split; [by right|done].
Qed.

(** On the sample VP9 track a subscription without limits gets the
    packet of layers (2,0), which the limits (1,1) keep back. *)
Lemma RunSVCForwarder_fallback_witness :
  let free :=
    Sfu.mkSubscription "video1" "B" (Some Samples.downTrackB) Sfu.QualityHigh
      (-1) (-1) false in
  Sfu.RunSVCForwarder Samples.rtpParse Samples.vp9Parse Samples.vp9Remote
    [Sfu.mkTurn false (Sfu.ReadPacket [128; 2; 0; 7]) free]
  = [[128; 2; 0; 7]].
Proof.
  intros free.
  rewrite (proj1 (proj2 (RunSVCForwarder_fallback Samples.rtpParse Samples.vp9Parse
                           Samples.vp9Remote
                           [Sfu.mkTurn false (Sfu.ReadPacket [128; 2; 0; 7]) free]))).
  - reflexivity.
  - apply Forall_cons_2; [split; cbn; lia|constructor].
Defined.

(** ** Subscriptions through the room *)

Section RoomSubscribeProofs.
Import Sfu Notions.

Lemma UpdateSubscription_found id q mt ms p pt sub :
  subscribers pt !! id = Some sub ->
  UpdateSubscription id q mt ms p pt =
    (None,
     mkPublisherTrack (Track_id pt) (publisher pt) (kind pt) (mimeType pt)
       (simulcast pt) (svc pt) (layers pt)
       (<[id := mkSubscription (Sub_trackID sub) (Sub_subscriber sub) (downTrack sub)
                  q mt ms p]> (subscribers pt))).
Proof. intros H. unfold UpdateSubscription. by rewrite H. Qed.

End RoomSubscribeProofs.

(** X14.  [Room.Subscribe] fails with [track not found] for a track the
    room does not hold and, the track being there, with [peer not found]
    for a peer the room does not hold; whenever it fails, these errors or
    those of [PublisherTrack.Subscribe], the room is unchanged.  When it
    succeeds, the track holds for the peer the subscription returned, with
    the quality asked for (high when 0 is asked), the two layer limits asked
    for, not paused, and with a down track that the peer now holds under
    the id of its source; the other tracks and the other peers are
    untouched, and so are the guards of the room. *)
Theorem Room_Subscribe_registers
    (tr : Sfu.Transport) (peerID trackID : string) (quality : Sfu.VideoQualityLevel)
    (maxTemporal maxSpatial : Z) (r : Sfu.Room) :
  let res := Sfu.Room_Subscribe tr peerID trackID quality maxTemporal maxSpatial r in
  (Sfu.publisherTracks r !! trackID = None ->
   res = (Err (Errorf "track %q not found" [ArgS trackID]), r))
  /\ (is_Some (Sfu.publisherTracks r !! trackID) -> Sfu.peers r !! peerID = None ->
      res = (Err (Errorf "peer %q not found" [ArgS peerID]), r))
  /\ (isErr res.1 = true -> res.2 = r)
  /\ (forall sub,
        res.1 = Ok sub ->
        exists pt' peer' dt,
          Sfu.publisherTracks res.2 !! trackID = Some pt'
          /\ Sfu.GetSubscription (Sfu.Sub_subscriber sub) pt' = Some sub
          /\ Sfu.peers res.2 !! peerID = Some peer'
          /\ Sfu.Sub_subscriber sub = Sfu.Peer_id peer'
          /\ Sfu.currentQuality sub = (if quality =? 0 then Sfu.QualityHigh else quality)
          /\ Sfu.maxTemporalLayer sub = maxTemporal
          /\ Sfu.maxSpatialLayer sub = maxSpatial
          /\ Sfu.paused sub = false
          /\ Sfu.downTrack sub = Some dt
          /\ Sfu.downTracks peer' !! Sfu.trackID dt = Some dt
          /\ (forall k, k <> trackID ->
                Sfu.publisherTracks res.2 !! k = Sfu.publisherTracks r !! k)
          /\ (forall k, k <> peerID -> Sfu.peers res.2 !! k = Sfu.peers r !! k)
          /\ Sfu.closed res.2 = Sfu.closed r
          /\ Sfu.maxPeers res.2 = Sfu.maxPeers r
          /\ Sfu.PeerCount res.2 = Sfu.PeerCount r).
Proof.
  cbv zeta. unfold Sfu.Room_Subscribe.
  destruct (Sfu.publisherTracks r !! trackID) as [pt|] eqn:Hpt.
  2:{ split_and!; done. }
  destruct (Sfu.peers r !! peerID) as [peer|] eqn:Hpeer.
  2:{ split_and!; done. }
  destruct (Sfu.Subscribe tr pt peer quality maxTemporal maxSpatial)
    as [[[sub pt'] peer']|e] eqn:Hs.
  2:{ split_and!; done. }
  apply Subscribe_ok_inv in Hs as (dt & -> & -> & ->).
  split_and!; try done.
  intros sub [= <-]. eexists _, _, dt. cbn.
  split; [apply lookup_insert_eq|].
  split; [unfold Sfu.GetSubscription; cbn; apply lookup_insert_eq|].
  split; [apply lookup_insert_eq|].
  split_and!; try done.
  - apply lookup_insert_eq.
  - intros k Hk. by apply lookup_insert_ne.
  - intros k Hk. by apply lookup_insert_ne.
  - unfold Sfu.PeerCount. cbn. rewrite map_size_insert, Hpeer. done.
Qed.

(** In the sample room, where A publishes an audio track, B joins with
    audio auto-subscription off and then subscribes to the track at medium
    quality: the track holds that subscription. *)
Lemma Room_Subscribe_registers_witness :
  let room := (Sfu.AddPeer Samples.transport Samples.quietPeer Samples.roomWithAudio).2 in
  let res := Sfu.Room_Subscribe Samples.transport "B" "audio1" Sfu.QualityMedium 0 1 room in
  exists sub pt',
    res.1 = Ok sub
    /\ Sfu.publisherTracks res.2 !! "audio1" = Some pt'
    /\ Sfu.GetSubscription "B" pt' = Some sub
    /\ Sfu.currentQuality sub = Sfu.QualityMedium.
Proof.
  intros room res.
  destruct res.1 as [sub|e] eqn:Hres; [|by vm_compute in Hres].
  destruct (proj2 (proj2 (proj2
              (Room_Subscribe_registers Samples.transport "B" "audio1"
                 Sfu.QualityMedium 0 1 room))) sub Hres)
    as (pt' & peer' & dt & Hpt & Hget & _ & Hid & Hq & _).
  exists sub, pt'. split; [done|]. split; [exact Hpt|]. split; [|exact Hq].
  assert (Sfu.Sub_subscriber sub = "B") as <-; [|exact Hget].
  vm_compute in Hres. by injection Hres as <-.
Defined.

(** X15.  [Room.UpdateSubscription] fails with [track not found] for a
    track the room does not hold and with [subscription not found] for a
    peer that holds no subscription to the track, leaving the tracks as they
    are.  When it succeeds the subscription of the peer has the quality,
    the layer limits and the pause flag given, and keeps its down track; no
    other subscription and no other track changes.  A forwarder that reads
    a subscription so paused writes nothing, whatever the packet, and one
    that reads a subscription so limited on a VP9 track lets a VP9 packet
    pass only within the limits given. *)
Theorem Room_UpdateSubscription_applies
    (rtp_Unmarshal : list Z -> option (list Z))
    (vp9_Unmarshal : list Z -> option (Z * Z))
    (peerID trackID : string) (quality : Sfu.VideoQualityLevel)
    (maxTemporal maxSpatial : Z) (paused : bool) (r : Sfu.Room) :
  let res :=
    Sfu.Room_UpdateSubscription peerID trackID quality maxTemporal maxSpatial paused r in
  (Sfu.publisherTracks r !! trackID = None ->
   res = (Some (Errorf "track %q not found" [ArgS trackID]), r))
  /\ (forall pt, Sfu.publisherTracks r !! trackID = Some pt ->
        Sfu.GetSubscription peerID pt = None ->
        res.1 = Some Sfu.ErrSubscriptionNotFound
        /\ Sfu.publisherTracks res.2 = Sfu.publisherTracks r)
  /\ (forall pt old,
        Sfu.publisherTracks r !! trackID = Some pt ->
        Sfu.GetSubscription peerID pt = Some old ->
        exists pt' sub,
          res.1 = None
          /\ Sfu.publisherTracks res.2 !! trackID = Some pt'
          /\ Sfu.GetSubscription peerID pt' = Some sub
          /\ Sfu.currentQuality sub = quality
          /\ Sfu.maxTemporalLayer sub = maxTemporal
          /\ Sfu.maxSpatialLayer sub = maxSpatial
          /\ Sfu.paused sub = paused
          /\ Sfu.downTrack sub = Sfu.downTrack old
          /\ (forall other, other <> peerID ->
                Sfu.GetSubscription other pt' = Sfu.GetSubscription other pt)
          /\ (forall k, k <> trackID ->
                Sfu.publisherTracks res.2 !! k = Sfu.publisherTracks r !! k)
          /\ (paused = true ->
              forall vp9 pkt,
                Sfu.simpleTurn sub pkt = []
                /\ Sfu.svcTurn rtp_Unmarshal vp9_Unmarshal vp9 sub pkt = [])
          /\ (0 <= maxSpatial -> 0 <= maxTemporal ->
              forall pkt payload sid tid w,
                w ∈ Sfu.svcTurn rtp_Unmarshal vp9_Unmarshal true sub pkt ->
                rtp_Unmarshal pkt = Some payload ->
                vp9_Unmarshal payload = Some (sid, tid) ->
                sid <= maxSpatial /\ tid <= maxTemporal)).
Proof.
  cbv zeta. unfold Sfu.Room_UpdateSubscription, Sfu.GetSubscription. split_and!.
  - by intros ->.
  - intros pt Hpt Hnone. rewrite Hpt. unfold Sfu.UpdateSubscription.
    rewrite Hnone. cbn. split; [done|]. by apply insert_id.
  - intros pt old -> Hold.
    rewrite (UpdateSubscription_found peerID quality maxTemporal maxSpatial paused
               pt old Hold).
    eexists _, _. cbn. split; [done|].
    split; [apply lookup_insert_eq|]. cbn.
    split; [apply lookup_insert_eq|]. cbn.
    split_and!; try done.
    + intros other Hne. by apply lookup_insert_ne.
    + intros k Hne. by apply lookup_insert_ne.
    + intros -> vp9 pkt. unfold Sfu.simpleTurn, Sfu.svcTurn. cbn.
      by destruct (Sfu.downTrack old).
    + intros HS HT pkt payload sid tid w Hw Hr Hv.
      apply svcTurn_written in Hw as [_ Hp]. cbn in Hp.
      by eapply svcPass_vp9_within.
Qed.

(** In the sample room, after B has joined and has been subscribed to the
    audio track of A, pausing the subscription of B succeeds, and the
    subscription then forwards nothing. *)
Lemma Room_UpdateSubscription_applies_witness :
  let room := (Sfu.AddPeer Samples.transport Samples.peerB Samples.roomWithAudio).2 in
  let res := Sfu.Room_UpdateSubscription "B" "audio1" Sfu.QualityHigh (-1) (-1) true room in
  exists pt' sub,
    res.1 = None
    /\ Sfu.publisherTracks res.2 !! "audio1" = Some pt'
    /\ Sfu.GetSubscription "B" pt' = Some sub
    /\ Sfu.simpleTurn sub [128; 0; 0; 7] = [].
Proof.
  intros room res.
  edestruct (proj2 (proj2
               (Room_UpdateSubscription_applies Samples.rtpParse Samples.vp9Parse
                  "B" "audio1" Sfu.QualityHigh (-1) (-1) true room)))
    as (pt' & sub & Hres & Hpt & Hget & _ & _ & _ & _ & _ & _ & _ & Hpaused & _).
  - vm_compute. reflexivity.
  - vm_compute. reflexivity.
  - exists pt', sub. split; [exact Hres|]. split; [exact Hpt|]. split; [exact Hget|].
    apply (Hpaused eq_refl false).
Defined.

(** ** The rooms the SFU can hold *)

Section ConsistentProofs.
Import Sfu Notions.

Lemma trackOk_mono (ps ps' : gset string) k pt :
  ps ⊆ ps' -> trackOk ps k pt -> trackOk ps' k pt.
Proof.
  intros Hsub (Hid & Hne & Hl & Hs). split_and!; try done.
  intros s sub Hsub'. destruct (Hs s sub Hsub') as (? & ? & ?).
  split_and!; try done. by apply Hsub.
Qed.

Lemma Subscribe_trackOk tr ps k pt p q mt ms sub pt' p' :
  trackOk ps k pt -> Peer_id p ∈ ps ->
  Subscribe tr pt p q mt ms = Ok (sub, pt', p') ->
  trackOk ps k pt' /\ Peer_id p' = Peer_id p
  /\ Sub_subscriber sub = Peer_id p /\ Sub_trackID sub = k.
Proof.
  intros (Hid & Hne & Hl & Hs) Hp (dt & -> & -> & ->)%Subscribe_ok_inv.
  split; [|done]. split_and!; try done. cbn.
  intros s sub [[<- <-]|[Hns Hsub]]%lookup_insert_Some; [done|].
  by apply Hs.
Qed.

Lemma autoSubscribe_trackOk tr (ps : gset string) id l :
  (forall kv, kv ∈ l -> trackOk ps kv.1 kv.2) ->
  id ∈ ps ->
  forall st,
    (forall k pt, st.1 !! k = Some pt -> trackOk ps k pt) ->
    Peer_id st.2 = id ->
    let st' := foldl (autoSubscribe tr) st l in
    (forall k pt, st'.1 !! k = Some pt -> trackOk ps k pt) /\ Peer_id st'.2 = id.
Proof.
  intros Hl Hid. induction l as [|kv l IH]; intros st Hst Hp; [done|].
  cbn. apply IH.
  - intros kv' Hkv'. apply Hl. by right.
  - unfold autoSubscribe. destruct (_ && _); [|done].
    destruct (Subscribe _ _ _ _ _ _) as [[[sub pt'] p']|e] eqn:Hs; [|done].
    cbn. intros k pt [[<- <-]|[_ Hk]]%lookup_insert_Some; [|by apply Hst].
    eapply Subscribe_trackOk in Hs as [Hok _]; [done| |by rewrite Hp].
    apply Hl. by left.
  - rewrite autoSubscribe_id. done.
Qed.

Lemma autoSubscribePeer_trackOk tr (ps : gset string) pid k l :
  (forall kv, kv ∈ l -> Peer_id kv.2 = kv.1 /\ kv.1 ∈ ps) ->
  forall st,
    trackOk ps k st.1 ->
    (forall i p, st.2 !! i = Some p -> Peer_id p = i) ->
    let st' := foldl (autoSubscribePeer tr pid) st l in
    trackOk ps k st'.1 /\ (forall i p, st'.2 !! i = Some p -> Peer_id p = i).
Proof.
  induction l as [|kv l IH]; intros Hl st Hok Hps; [done|].
  cbn. destruct (Hl kv) as [Hkv Hin]; [by left|].
  apply IH.
  - intros kv' Hkv'. apply Hl. by right.
  - unfold autoSubscribePeer. destruct (String.eqb _ _); [done|].
    destruct (negb _); [done|].
    destruct (Subscribe _ _ _ _ _ _) as [[[sub pt'] p']|e] eqn:Hs; [|done].
    cbn. eapply Subscribe_trackOk in Hs as [Hok' _]; [done|done|by rewrite Hkv].
  - unfold autoSubscribePeer. destruct (String.eqb _ _); [done|].
    destruct (negb _); [done|].
    destruct (Subscribe _ _ _ _ _ _) as [[[sub pt'] p']|e] eqn:Hs; [|done].
    cbn. intros i p [[<- <-]|[_ Hi]]%lookup_insert_Some; [|by apply Hps].
    eapply Subscribe_trackOk in Hs as (_ & -> & _); [done|done|by rewrite Hkv].
Qed.

Lemma NewRoom_consistent id maxPeers metadata opts :
  consistent (NewRoom id maxPeers metadata opts).
Proof. unfold NewRoom. split_and!; cbn; done. Qed.

Lemma AddPeer_consistent tr p r : consistent r -> consistent (AddPeer tr p r).2.
Proof.
  intros H. pose proof H as (Hps & Hts & Hc). unfold AddPeer.
  destruct (closed r) eqn:Hcl; [exact H|].
  destruct (_ <=? _); [exact H|].
  destruct (if e2eeRequired r then _ else _); [exact H|].
  cbv zeta.
  set (ps := dom (<[Peer_id p := p]> (peers r))).
  assert (forall k pt, publisherTracks r !! k = Some pt -> trackOk ps k pt) as Hts'.
  { intros k pt Hk. eapply trackOk_mono; [|by apply Hts].
    unfold ps. rewrite dom_insert_L. set_solver. }
  assert (Peer_id p ∈ ps) as Hin by (unfold ps; rewrite dom_insert_L; set_solver).
  pose proof (autoSubscribe_trackOk tr ps (Peer_id p) (map_to_list (publisherTracks r)))
    as Hfold.
  specialize (Hfold (fun kv Hkv => Hts' kv.1 kv.2
                       (proj1 (elem_of_map_to_list _ kv.1 kv.2)
                          (eq_ind _ (fun x => x ∈ _) Hkv _ (surjective_pairing kv))))
                Hin (publisherTracks r, p) Hts' eq_refl).
  cbv zeta in Hfold. destruct Hfold as [Hfts Hfid].
  assert (forall st : gmap string PublisherTrack * Peer,
            (forall k pt, st.1 !! k = Some pt -> trackOk ps k pt) ->
            Peer_id st.2 = Peer_id p ->
            consistent
              (mkRoom (Room_id r) (<[Peer_id p := st.2]> (<[Peer_id p := p]> (peers r)))
                 (maxPeers r) (maxPublishers r) (Room_metadata r) false (audioTaps r)
                 st.1
                 (if (size (<[Peer_id p := p]> (peers r)) =? 1)%nat
                  then S (detectorStarts r) else detectorStarts r)
                 (autoSubscribeAudio r) (e2eeRequired r))) as Hgen.
  { intros st Hst Hid. split_and!; cbn; [| |done].
    - intros k q. rewrite insert_insert_eq.
      intros [[<- <-]|[_ Hk]]%lookup_insert_Some; [done|by apply Hps].
    - intros k pt Hk. rewrite insert_insert_eq.
      replace (dom (<[Peer_id p := st.2]> (peers r))) with ps
        by (unfold ps; by rewrite !dom_insert_L).
      by apply Hst. }
  destruct (_ && _); by apply Hgen.
Qed.

Lemma RemovePeer_consistent peerID r : consistent r -> consistent (RemovePeer peerID r).
Proof.
  intros H. pose proof H as (Hps & Hts & Hc). unfold RemovePeer.
  destruct (peers r !! peerID) as [leaver|] eqn:Hp; [|exact H].
  split_and!; cbn.
  - intros k q [_ Hk]%lookup_delete_Some. by apply Hps.
  - intros k pt' [Hk _]%map_lookup_filter_Some.
    apply lookup_fmap_Some in Hk as (pt & <- & Hk).
    destruct (Hts k pt Hk) as (Hid & Hne & Hl & Hs).
    split_and!; try done. cbn.
    intros s sub [Hns Hsub]%lookup_delete_Some.
    destruct (Hs s sub Hsub) as (? & ? & ?). split_and!; try done.
    rewrite dom_delete_L. apply elem_of_difference. split; [done|].
    by intros ?%elem_of_singleton.
  - intros Hcl. rewrite (Hc Hcl) in Hp. done.
Qed.

Lemma Close_consistent r : consistent r -> consistent (Close r).
Proof.
  intros H. unfold Close. destruct (closed r); [exact H|].
  split_and!; cbn; done.
Qed.

Lemma RegisterPublisherTrack_consistent tr publisher rem r :
  consistent r -> consistent (RegisterPublisherTrack tr publisher rem r).2.
Proof.
  intros (Hps & Hts & Hc). unfold RegisterPublisherTrack. cbv zeta.
  destruct (match publisherTracks r !! Remote_ID rem with
            | Some _ => _ | None => _ end) as [existing|] eqn:Hex.
  - assert (publisherTracks r !! Remote_ID rem = Some existing) as Hk.
    { destruct (publisherTracks r !! Remote_ID rem) as [x|]; [|done].
      by destruct (negb _); [injection Hex as ->|]. }
    split_and!; cbn; [done| |done].
    intros k pt [[<- <-]|[_ Hk']]%lookup_insert_Some; [|by apply Hts].
    destruct (Hts _ _ Hk) as (Hid & Hne & Hl & Hs).
    split_and!; try done; cbn.
    + apply insert_non_empty.
    + intros rid l [[<- <-]|[_ Hr]]%lookup_insert_Some; [by exists rem|by eapply Hl].
  - set (pt := NewPublisherTrack publisher rem).
    assert (trackOk (dom (peers r)) (Remote_ID rem) pt) as Hpt.
    { unfold pt, NewPublisherTrack. split_and!; cbn; try done.
      - intros rid l [<- <-]%lookup_singleton_Some. by exists rem. }
    pose proof (autoSubscribePeer_trackOk tr (dom (peers r)) (Peer_id publisher)
                  (Remote_ID rem) (map_to_list (peers r))) as Hfold.
    assert (forall kv, kv ∈ map_to_list (peers r) ->
              Peer_id kv.2 = kv.1 /\ kv.1 ∈ dom (peers r)) as Hl.
    { intros [k p] Hkv%elem_of_map_to_list. split; [by apply Hps|].
      apply elem_of_dom. by exists p. }
    specialize (Hfold Hl (pt, peers r) Hpt Hps). cbv zeta in Hfold.
    destruct Hfold as [Hfpt Hfps].
    pose proof (autoSubscribePeer_dom tr (Peer_id publisher) (map_to_list (peers r))
                  pt (peers r)) as Hdom.
    assert (forall st : PublisherTrack * gmap string Peer,
              trackOk (dom (peers r)) (Remote_ID rem) st.1 ->
              (forall i p, st.2 !! i = Some p -> Peer_id p = i) ->
              dom st.2 = dom (peers r) ->
              consistent
                (mkRoom (Room_id r) st.2 (maxPeers r) (maxPublishers r) (Room_metadata r)
                   (closed r) (audioTaps r)
                   (<[Remote_ID rem := st.1]> (publisherTracks r))
                   (detectorStarts r) (autoSubscribeAudio r) (e2eeRequired r))) as Hgen.
    { intros st Hst Hsp Hd. split_and!; cbn; [done| |].
      - rewrite Hd.
        intros k pt' [[<- <-]|[_ Hk']]%lookup_insert_Some; [done|by apply Hts].
      - intros Hcl. apply dom_empty_iff_L. rewrite Hd, (Hc Hcl). apply dom_empty_L. }
    cbn. destruct (_ && _).
    + apply Hgen; [done|done|]. apply Hdom.
      intros [k v] Hkv%elem_of_map_to_list. by exists v.
    + by apply Hgen.
Qed.

Lemma reachable_consistent r : reachable r -> consistent r.
Proof.
  induction 1.
  - apply NewRoom_consistent.
  - by apply AddPeer_consistent.
  - by apply RemovePeer_consistent.
  - by apply RegisterPublisherTrack_consistent.
  - by apply Close_consistent.
Qed.

(** In a track with a layer whose layers all have a remote track,
    [Subscribe] over a ranging transport fails only with an error of the
    transport. *)
Lemma Subscribe_error tr ps k pt p q mt ms e :
  ranging tr -> trackOk ps k pt ->
  Subscribe tr pt p q mt ms = Err e ->
  fromTransport tr (Peer_id p) e.
Proof.
  intros Hr (Hid & Hne & Hl & Hs). unfold Subscribe. cbv zeta.
  destruct (Hr (layers pt) Hne) as (k0 & l0 & Hfirst & Hl0).
  destruct (Hl k0 l0 Hl0) as (src0 & Hsrc0 & _).
  rewrite Hfirst, Hsrc0.
  assert (forall src rid' (made : Result DownTrack),
            made = match NewTrackLocalStaticRTP tr src rid' with
                   | Some e0 => Err e0
                   | None => Ok (mkDownTrack (publisher pt) (Remote_ID src) rid' false)
                   end ->
            match made with
            | Err e0 => Err e0
            | Ok dt =>
              match AddDownTrack tr dt p with
              | Err e0 => Err e0
              | Ok subscriber' =>
                Ok (NewSubscription pt p dt q mt ms,
                    mkPublisherTrack (Track_id pt) (publisher pt) (kind pt) (mimeType pt)
                      (simulcast pt) (svc pt) (layers pt)
                      (<[Peer_id p := NewSubscription pt p dt q mt ms]> (subscribers pt)),
                    subscriber')
              end
            end = Err e ->
            fromTransport tr (Peer_id p) e) as Hgen.
  { intros src rid' made ->.
    destruct (NewTrackLocalStaticRTP tr src rid') as [e0|] eqn:Hn.
    - intros [= <-]. left. by exists src, rid'.
    - unfold AddDownTrack.
      destruct (pc_AddTrack tr (Peer_id p) _) as [e'|] eqn:Ha; [|done].
      intros [= <-]. right. by eexists _, e'. }
  destruct (simulcast pt) eqn:Hsim.
  - destruct (layers pt !! qualityToRID q) as [layer|].
    + destruct (remote layer) as [src|];
        intros He; (eapply Hgen; [|exact He]); reflexivity.
    + intros He. (eapply Hgen; [|exact He]); reflexivity.
  - intros He. (eapply Hgen; [|exact He]); reflexivity.
Qed.

(** The down track of a subscription made in such a track carries the id
    of the track and the id of its publisher, and the subscriber holds it
    under the id of the track. *)
Lemma Subscribe_downTrack tr ps k pt p q mt ms sub pt' p' :
  ranging tr -> trackOk ps k pt ->
  Subscribe tr pt p q mt ms = Ok (sub, pt', p') ->
  exists dt, downTrack sub = Some dt /\ trackID dt = k /\ sourceID dt = publisher pt
             /\ downTracks p' !! k = Some dt.
Proof.
  intros Hr (Hid & Hne & Hl & Hs). unfold Subscribe. cbv zeta.
  destruct (Hr (layers pt) Hne) as (k0 & l0 & Hfirst & Hl0).
  destruct (Hl k0 l0 Hl0) as (src0 & Hsrc0 & Hk0).
  rewrite Hfirst, Hsrc0.
  assert (forall src rid' (made : Result DownTrack),
            Remote_ID src = k ->
            made = match NewTrackLocalStaticRTP tr src rid' with
                   | Some e0 => Err e0
                   | None => Ok (mkDownTrack (publisher pt) (Remote_ID src) rid' false)
                   end ->
            match made with
            | Err e0 => Err e0
            | Ok dt =>
              match AddDownTrack tr dt p with
              | Err e0 => Err e0
              | Ok subscriber' =>
                Ok (NewSubscription pt p dt q mt ms,
                    mkPublisherTrack (Track_id pt) (publisher pt) (kind pt) (mimeType pt)
                      (simulcast pt) (svc pt) (layers pt)
                      (<[Peer_id p := NewSubscription pt p dt q mt ms]> (subscribers pt)),
                    subscriber')
              end
            end = Ok (sub, pt', p') ->
            exists dt, downTrack sub = Some dt /\ trackID dt = k
                       /\ sourceID dt = publisher pt
                       /\ downTracks p' !! k = Some dt) as Hgen.
  { intros src rid' made Hsrc ->.
    destruct (NewTrackLocalStaticRTP tr src rid') as [e0|]; [done|].
    unfold AddDownTrack.
    destruct (pc_AddTrack tr (Peer_id p) _) as [e'|]; [done|].
    intros [= <- <- <-]. eexists. cbn. split; [done|]. split; [done|].
    split; [done|]. rewrite Hsrc. apply lookup_insert_eq. }
  destruct (simulcast pt) eqn:Hsim.
  - destruct (layers pt !! qualityToRID q) as [layer|] eqn:Hlayer.
    + destruct (remote layer) as [src|] eqn:Hsrc.
      * destruct (Hl _ _ Hlayer) as (src' & Hsrc' & Hk').
        assert (src' = src) as -> by congruence.
        intros He. (eapply (Hgen src); [done| |exact He]); reflexivity.
      * intros He. (eapply (Hgen src0); [done| |exact He]); reflexivity.
    + intros He. (eapply (Hgen src0); [done| |exact He]); reflexivity.
  - intros He. (eapply (Hgen src0); [done| |exact He]); reflexivity.
Qed.

Lemma Room_Subscribe_consistent tr peerID tid q mt ms r :
  consistent r -> consistent (Room_Subscribe tr peerID tid q mt ms r).2.
Proof.
  intros H. pose proof H as (Hps & Hts & Hc). unfold Room_Subscribe.
  destruct (publisherTracks r !! tid) as [pt|] eqn:Hpt; [|exact H].
  destruct (peers r !! peerID) as [peer|] eqn:Hpeer; [|exact H].
  destruct (Subscribe tr pt peer q mt ms) as [[[sub pt'] peer']|e] eqn:Hs; [|exact H].
  assert (Peer_id peer ∈ dom (peers r)) as Hin.
  { rewrite (Hps _ _ Hpeer). apply elem_of_dom. by exists peer. }
  destruct (Subscribe_trackOk tr _ _ _ _ _ _ _ _ _ _ (Hts _ _ Hpt) Hin Hs)
    as (Hok & Hid & _).
  assert (dom (<[peerID := peer']> (peers r)) = dom (peers r)) as Hdom
    by (by apply dom_insert_lookup_L).
  split_and!; cbn.
  - intros k p [[<- <-]|[_ Hk]]%lookup_insert_Some; [|by apply Hps].
    rewrite Hid. by apply Hps.
  - rewrite Hdom.
    intros k pt0 [[<- <-]|[_ Hk]]%lookup_insert_Some; [done|by apply Hts].
  - intros Hcl. rewrite (Hc Hcl) in Hpeer. done.
Qed.

End ConsistentProofs.

(** X16.  In every room the SFU can build from [NewRoom] with [AddPeer],
    [RemovePeer], [RegisterPublisherTrack] and [Close], each peer is held
    under its own id and each track under its own id; each track has at
    least one layer, each layer with a remote track of the id of the track;
    each subscription of a track is held under the id of its subscriber,
    names the track, and belongs to a peer that is in the room; and a room
    that is closed holds no peer. *)
Theorem reachable_rooms_consistent (r : Sfu.Room) :
  Sfu.reachable r ->
  (forall k p, Sfu.GetPeer k r = Some p -> Sfu.Peer_id p = k)
  /\ (forall k pt, Sfu.publisherTracks r !! k = Some pt ->
        Sfu.Track_id pt = k
        /\ Sfu.layers pt <> ∅
        /\ (forall rid l, Sfu.layers pt !! rid = Some l ->
              exists src, Sfu.remote l = Some src /\ Sfu.Remote_ID src = k)
        /\ (forall s sub, Sfu.GetSubscription s pt = Some sub ->
              Sfu.Sub_subscriber sub = s /\ Sfu.Sub_trackID sub = k
              /\ is_Some (Sfu.GetPeer s r)))
  /\ (Sfu.IsClosed r = true -> Sfu.PeerCount r = 0).
Proof.
  intros (Hps & Hts & Hc)%reachable_consistent. split_and!.
  - exact Hps.
  - intros k pt Hk. destruct (Hts k pt Hk) as (Hid & Hne & Hl & Hs).
    split_and!; try done.
    intros s sub Hsub. destruct (Hs s sub Hsub) as (? & ? & Hin).
    split_and!; try done. by apply elem_of_dom.
  - intros Hcl. unfold Sfu.PeerCount. rewrite (Hc Hcl), map_size_empty. done.
Qed.

(** The sample room after A has joined and published its audio track and
    B has joined can be built, so each subscriber of the audio track is
    in the room. *)
Lemma reachable_rooms_consistent_witness :
  let room := (Sfu.AddPeer Samples.transport Samples.peerB Samples.roomWithAudio).2 in
  Sfu.reachable room
  /\ forall pt s sub,
       Sfu.publisherTracks room !! "audio1" = Some pt ->
       Sfu.GetSubscription s pt = Some sub ->
       is_Some (Sfu.GetPeer s room).
Proof.
  intros room.
  assert (Sfu.reachable room) as Hr
    by apply Sfu.reach_add, Sfu.reach_register, Sfu.reach_add, Sfu.reach_new.
  split; [exact Hr|]. intros pt s sub Hpt Hsub.
  destruct (proj1 (proj2 (reachable_rooms_consistent room Hr)) _ _ Hpt)
    as (_ & _ & _ & Hs).
  by destruct (Hs s sub Hsub) as (_ & _ & ?).
Defined.

(** X17.  In a room the SFU can build from [NewRoom] with [AddPeer],
    [RemovePeer], [RegisterPublisherTrack] and [Close], over a transport
    whose [range] meets an entry of a map that is not empty,
    [Room.Subscribe] of a peer of the room to a track of the room never
    fails for want of a layer: an error it
    returns comes from the transport, and the room is then unchanged.  The
    subscription it returns names the peer and the track, its down track
    carries the id of the track and the id of its publisher, the peer
    holds that down track under the id of the track, and the room is
    again one in which peers, tracks and subscriptions fit together. *)
Theorem Room_Subscribe_in_reachable_room
    (tr : Sfu.Transport) (peerID tid : string) (quality : Sfu.VideoQualityLevel)
    (maxTemporal maxSpatial : Z) (r : Sfu.Room) (pt : Sfu.PublisherTrack) :
  Sfu.reachable r -> Notions.ranging tr ->
  Sfu.publisherTracks r !! tid = Some pt ->
  is_Some (Sfu.GetPeer peerID r) ->
  let res := Sfu.Room_Subscribe tr peerID tid quality maxTemporal maxSpatial r in
  match res.1 with
  | Err e => Notions.fromTransport tr peerID e /\ res.2 = r
  | Ok sub =>
    Sfu.Sub_subscriber sub = peerID
    /\ Sfu.Sub_trackID sub = tid
    /\ (exists dt peer',
          Sfu.downTrack sub = Some dt
          /\ Sfu.trackID dt = tid
          /\ Sfu.sourceID dt = Sfu.publisher pt
          /\ Sfu.GetPeer peerID res.2 = Some peer'
          /\ Sfu.downTracks peer' !! tid = Some dt)
    /\ (exists pt', Sfu.publisherTracks res.2 !! tid = Some pt'
                    /\ Sfu.GetSubscription peerID pt' = Some sub)
    /\ Notions.consistent res.2
  end.
Proof.
  intros Hreach Hrange Hpt [peer Hpeer]. cbv zeta.
  pose proof (reachable_consistent r Hreach) as Hcons.
  pose proof (Room_Subscribe_consistent tr peerID tid quality maxTemporal maxSpatial
                r Hcons) as Hcons'.
  destruct Hcons as (Hps & Hts & Hc).
  unfold Sfu.GetPeer in *. unfold Sfu.Room_Subscribe in *. rewrite Hpt, Hpeer in *.
  pose proof (Hps _ _ Hpeer) as Hid.
  destruct (Sfu.Subscribe tr pt peer quality maxTemporal maxSpatial)
    as [[[sub pt'] peer']|e] eqn:Hs; cbn.
  - assert (Sfu.Peer_id peer ∈ dom (Sfu.peers r)) as Hin.
    { rewrite Hid. apply elem_of_dom. by exists peer. }
    destruct (Subscribe_trackOk tr _ _ _ _ _ _ _ _ _ _ (Hts _ _ Hpt) Hin Hs)
      as (_ & _ & Hsub & Htid).
    destruct (Subscribe_downTrack tr _ _ _ _ _ _ _ _ _ _ Hrange (Hts _ _ Hpt) Hs)
      as (dt & Hdt & Hdtid & Hsrc & Hdown).
    split; [congruence|]. split; [done|]. split.
    { exists dt, peer'. split_and!; try done. apply lookup_insert_eq. }
    split; [|exact Hcons'].
    exists pt'. split; [apply lookup_insert_eq|].
    apply Subscribe_ok_inv in Hs as (dt' & -> & -> & _).
    unfold Sfu.GetSubscription. cbn. rewrite Hid. apply lookup_insert_eq.
  - split; [|done]. rewrite <- Hid.
    by eapply Subscribe_error; [exact Hrange|apply (Hts _ _ Hpt)|exact Hs].
Qed.

(** In the sample room, where A has published its audio track and B has
    joined without audio auto-subscription, B subscribes to the track: the
    subscription names B and the track. *)
Lemma Room_Subscribe_in_reachable_room_witness :
  let room := (Sfu.AddPeer Samples.transport Samples.quietPeer Samples.roomWithAudio).2 in
  exists sub,
    (Sfu.Room_Subscribe Samples.transport "B" "audio1" Sfu.QualityHigh (-1) (-1) room).1
      = Ok sub
    /\ Sfu.Sub_subscriber sub = "B" /\ Sfu.Sub_trackID sub = "audio1".
Proof.
  intros room.
  assert (Sfu.reachable room) as Hr
    by apply Sfu.reach_add, Sfu.reach_register, Sfu.reach_add, Sfu.reach_new.
  assert (Notions.ranging Samples.transport) as Hrange.
  { intros ls Hne. cbn.
    destruct (map_to_list ls) as [|[k l] rest] eqn:Hl.
    - by apply map_to_list_empty_iff in Hl.
    - exists k, l. split; [done|]. apply elem_of_map_to_list. rewrite Hl. by left. }
  destruct (Sfu.publisherTracks room !! "audio1") as [pt|] eqn:Hpt;
    [|by vm_compute in Hpt].
  assert (is_Some (Sfu.GetPeer "B" room)) as Hpeer by (vm_compute; eauto).
  pose proof (Room_Subscribe_in_reachable_room Samples.transport "B" "audio1"
                Sfu.QualityHigh (-1) (-1) room pt Hr Hrange Hpt Hpeer) as H.
  cbv zeta in H.
  destruct (Sfu.Room_Subscribe Samples.transport "B" "audio1" Sfu.QualityHigh
              (-1) (-1) room).1 as [sub|e] eqn:Hres; [|by vm_compute in Hres].
  exists sub. by destruct H as (? & ? & _).
Defined.

(** X18.  [RemovePeer] of a peer that is not in the room changes
    nothing.  For a peer that is in the room: the peer is gone and the
    other peers stay as they are, so there is one peer less; the tracks the
    peer published are gone; every track that is left was in the room,
    is published by another peer, has its layers as before, has no
    subscription of the peer, and has the subscriptions of every other
    peer as before; and no track of another publisher is removed. *)
Theorem RemovePeer_cleans (peerID : string) (r : Sfu.Room) :
  let r' := Sfu.RemovePeer peerID r in
  (Sfu.GetPeer peerID r = None -> r' = r)
  /\ (is_Some (Sfu.GetPeer peerID r) ->
      Sfu.GetPeer peerID r' = None
      /\ (forall k, k <> peerID -> Sfu.GetPeer k r' = Sfu.GetPeer k r)
      /\ Sfu.PeerCount r' = Sfu.PeerCount r - 1
      /\ (forall k pt', Sfu.publisherTracks r' !! k = Some pt' ->
            Sfu.publisher pt' <> peerID
            /\ Sfu.GetSubscription peerID pt' = None
            /\ exists pt, Sfu.publisherTracks r !! k = Some pt
                          /\ Sfu.publisher pt' = Sfu.publisher pt
                          /\ Sfu.layers pt' = Sfu.layers pt
                          /\ forall other, other <> peerID ->
                               Sfu.GetSubscription other pt' = Sfu.GetSubscription other pt)
      /\ (forall k pt, Sfu.publisherTracks r !! k = Some pt ->
            Sfu.publisher pt <> peerID -> is_Some (Sfu.publisherTracks r' !! k))
      /\ Sfu.IsClosed r' = Sfu.IsClosed r
      /\ Sfu.maxPeers r' = Sfu.maxPeers r).
Proof.
  cbv zeta. unfold Sfu.GetPeer, Sfu.RemovePeer, Sfu.GetSubscription, Sfu.PeerCount.
  split; [by intros ->|]. intros [leaver Hp]. rewrite Hp. cbn. split_and!; try done.
  - apply lookup_delete_eq.
  - intros k Hk. by apply lookup_delete_ne.
  - rewrite map_size_delete, Hp.
    assert (size (Sfu.peers r) <> 0%nat) as Hsize.
    { intros Hz%map_size_empty_iff. by rewrite Hz in Hp. }
    lia.
  - intros k pt' [Hk Hpub]%map_lookup_filter_Some.
    apply lookup_fmap_Some in Hk as (pt & <- & Hk). cbn in *.
    split; [done|]. split; [apply lookup_delete_eq|].
    exists pt. split_and!; try done.
    intros other Hne. by apply lookup_delete_ne.
  - intros k pt Hk Hpub. exists (Sfu.Unsubscribe peerID pt).
    apply map_lookup_filter_Some. split; [|done].
    apply lookup_fmap_Some. by exists pt.
Qed.

(** In the sample room with A, its audio track and B in it, A leaves: A
    and its track are gone, B stays. *)
Lemma RemovePeer_cleans_witness :
  let room := (Sfu.AddPeer Samples.transport Samples.peerB Samples.roomWithAudio).2 in
  let room' := Sfu.RemovePeer "A" room in
  Sfu.GetPeer "A" room' = None
  /\ Sfu.GetPeer "B" room' = Sfu.GetPeer "B" room
  /\ Sfu.publisherTracks room' !! "audio1" = None.
Proof.
  intros room room'.
  assert (is_Some (Sfu.GetPeer "A" room)) as Hp by (vm_compute; eauto).
  destruct (proj2 (RemovePeer_cleans "A" room) Hp) as (Hgone & Hothers & _ & Hleft & _).
  split; [exact Hgone|]. split; [by apply Hothers|].
  destruct (Sfu.publisherTracks room' !! "audio1") as [pt'|] eqn:Hpt'; [|done].
  destruct (Hleft _ _ Hpt') as (Hpub & _ & pt & Hpt & Heq & _).
  exfalso. apply Hpub. rewrite Heq.
  vm_compute in Hpt. by injection Hpt as <-.
Defined.

(** ** The rooms of the SFU *)

Section ManagerProofs.
Import Sfu Notions.

Lemma Subscribe_encryption tr pt p q mt ms sub pt' p' :
  Subscribe tr pt p q mt ms = Ok (sub, pt', p') -> encryption p' = encryption p.
Proof. by intros (dt & _ & _ & ->)%Subscribe_ok_inv. Qed.

Lemma autoSubscribe_encryption tr l :
  forall st, encryption (foldl (autoSubscribe tr) st l).2 = encryption st.2.
Proof.
  induction l as [|kv l IH]; intros st; [done|]. cbn. rewrite IH.
  unfold autoSubscribe. destruct (_ && _); [|done].
  destruct (Subscribe _ _ _ _ _ _) as [[[sub pt'] p']|e] eqn:Hs; [|done].
  cbn. by eapply Subscribe_encryption.
Qed.

Lemma autoSubscribePeer_encrypted tr pid l :
  (forall kv, kv ∈ l -> encrypted kv.2) ->
  forall st,
    (forall k p, st.2 !! k = Some p -> encrypted p) ->
    forall k p, (foldl (autoSubscribePeer tr pid) st l).2 !! k = Some p -> encrypted p.
Proof.
  induction l as [|kv l IH]; intros Hl st Hst; [done|]. cbn. apply IH.
  - intros kv' Hkv'. apply Hl. by right.
  - unfold autoSubscribePeer. destruct (String.eqb _ _); [done|].
    destruct (negb _); [done|].
    destruct (Subscribe _ _ _ _ _ _) as [[[sub pt'] p']|e] eqn:Hs; [|done].
    cbn. intros k p [[<- <-]|[_ Hk]]%lookup_insert_Some; [|by eapply Hst].
    unfold encrypted. rewrite (Subscribe_encryption _ _ _ _ _ _ _ _ _ Hs).
    apply (Hl kv). by left.
Qed.

Lemma ValidateE2EERoom_encrypted enc :
  ValidateE2EERoom true enc = None ->
  exists info, enc = Some info /\ Algorithm info <> "".
Proof.
  unfold ValidateE2EERoom. destruct enc as [info|]; [|done]. cbn.
  destruct (String.eqb_spec (Algorithm info) ""); [done|]. by exists info.
Qed.

Lemma reachable_encrypted r :
  reachable r ->
  (e2eeRequired r = true -> forall k p, peers r !! k = Some p -> encrypted p).
Proof.
  induction 1 as [id mp md opts|tr p r Hr IH|peerID r Hr IH|tr pub rem r Hr IH|r Hr IH].
  - by intros _ k p.
  - unfold AddPeer. destruct (closed r); [exact IH|].
    destruct (_ <=? _); [exact IH|].
    destruct (if e2eeRequired r then _ else _) eqn:Hv; [exact IH|].
    cbn. intros He k q. rewrite He in Hv.
    apply ValidateE2EERoom_encrypted in Hv.
    rewrite insert_insert_eq.
    intros [[<- <-]|[_ Hk]]%lookup_insert_Some; [|by eapply IH].
    unfold encrypted. destruct (_ && _); [|done].
    by rewrite autoSubscribe_encryption.
  - unfold RemovePeer. destruct (peers r !! peerID); [|exact IH].
    cbn. intros He k q [_ Hk]%lookup_delete_Some. by eapply IH.
  - unfold RegisterPublisherTrack. cbv zeta.
    destruct (match publisherTracks r !! Remote_ID rem with
              | Some _ => _ | None => _ end); [exact IH|].
    cbn. intros He. destruct (_ && _); [|by apply IH].
    apply autoSubscribePeer_encrypted; [|by apply IH].
    intros [k p] Hkv%elem_of_map_to_list. by eapply IH.
  - unfold Close. destruct (closed r); [exact IH|]. cbn. by intros _ k q.
Qed.

End ManagerProofs.

(** X19.  [CreateRoomWithConfig] under an id the SFU already holds fails
    with [already exists] and leaves the SFU as it is; an empty id stands
    for the id the generator gives.  Otherwise it returns a room that
    [GetRoom] then finds under the id: the room carries the id, has no
    peer and no track and is open; its bound on the peers is the one
    asked for when positive, else the default of the SFU when positive,
    else 1000, and so at least 1; it requires E2EE exactly when the call
    or the SFU does, so no call switches the default off; the other rooms
    are untouched; and a second creation under the same id fails. *)
Theorem CreateRoomWithConfig_registers
    (xid_New id : string) (maxPeers : Z) (metadata : gmap string string)
    (rc : Sfu.RoomConfig) (s : Sfu.SFU) :
  let id' := if String.eqb id "" then xid_New else id in
  let res := Sfu.CreateRoomWithConfig xid_New id maxPeers metadata rc s in
  (is_Some (Sfu.GetRoom id' s) ->
   res = (Err (Errorf "room %q already exists" [ArgS id']), s))
  /\ (Sfu.GetRoom id' s = None ->
      exists room,
        res.1 = Ok room
        /\ Sfu.GetRoom id' res.2 = Some room
        /\ Sfu.Room_id room = id'
        /\ Sfu.PeerCount room = 0
        /\ Sfu.publisherTracks room = ∅
        /\ Sfu.IsClosed room = false
        /\ Sfu.maxPeers room =
             (if 0 <? maxPeers then maxPeers
              else if 0 <? Sfu.DefaultMaxPeers (Sfu.SFU_config s)
                   then Sfu.DefaultMaxPeers (Sfu.SFU_config s)
                   else 1000)
        /\ 1 <= Sfu.maxPeers room
        /\ Sfu.e2eeRequired room =
             Sfu.RC_E2EERequired rc || Sfu.E2EEDefaultRequired (Sfu.SFU_config s)
        /\ (forall k, k <> id' -> Sfu.GetRoom k res.2 = Sfu.GetRoom k s)
        /\ Sfu.SFU_config res.2 = Sfu.SFU_config s
        /\ forall maxPeers2 metadata2 rc2,
             isErr (Sfu.CreateRoomWithConfig xid_New id' maxPeers2 metadata2 rc2 res.2).1
               = true).
Proof.
  cbv zeta. unfold Sfu.GetRoom, Sfu.CreateRoomWithConfig.
  set (id' := if String.eqb id "" then xid_New else id).
  split.
  - intros [room Hroom]. by rewrite Hroom.
  - intros Hnone. rewrite Hnone. eexists. split; [done|]. cbn.
    split; [apply lookup_insert_eq|]. split; [done|].
    split; [unfold Sfu.PeerCount; cbn; by rewrite map_size_empty|].
    split; [done|]. split; [done|].
    assert ((if (if maxPeers <=? 0 then Sfu.DefaultMaxPeers (Sfu.SFU_config s)
                 else maxPeers) <=? 0
             then 1000
             else if maxPeers <=? 0 then Sfu.DefaultMaxPeers (Sfu.SFU_config s)
                  else maxPeers)
            = (if 0 <? maxPeers then maxPeers
               else if 0 <? Sfu.DefaultMaxPeers (Sfu.SFU_config s)
                    then Sfu.DefaultMaxPeers (Sfu.SFU_config s)
                    else 1000)) as Hmax.
    { destruct (Z.leb_spec maxPeers 0), (Z.ltb_spec 0 maxPeers); try lia.
      - destruct (Z.leb_spec (Sfu.DefaultMaxPeers (Sfu.SFU_config s)) 0),
                 (Z.ltb_spec 0 (Sfu.DefaultMaxPeers (Sfu.SFU_config s))); lia.
      - destruct (Z.leb_spec maxPeers 0); lia. }
    split; [exact Hmax|]. split.
    { rewrite Hmax. destruct (Z.ltb_spec 0 maxPeers); [lia|].
      destruct (Z.ltb_spec 0 (Sfu.DefaultMaxPeers (Sfu.SFU_config s))); lia. }
    split; [done|]. split; [intros k Hk; by apply lookup_insert_ne|].
    split; [done|]. intros maxPeers2 metadata2 rc2.
    assert ((if String.eqb id' "" then xid_New else id') = id') as ->.
    { destruct (String.eqb_spec id' "") as [He|]; [|done].
      unfold id' in *. destruct (String.eqb_spec id ""); [done|]. congruence. }
    by rewrite lookup_insert_eq.
Qed.

(** In the sample SFU, which requires E2EE by default, a room created for
    no stated number of peers and without E2EE asked for is found again,
    holds up to 50 peers and requires E2EE. *)
Lemma CreateRoomWithConfig_registers_witness :
  let res := Sfu.CreateRoomWithConfig "fresh" "lobby" 0 ∅
               (Sfu.mkRoomConfig 0 false None) Samples.emptySFU in
  exists room,
    res.1 = Ok room
    /\ Sfu.GetRoom "lobby" res.2 = Some room
    /\ Sfu.maxPeers room = 50
    /\ Sfu.e2eeRequired room = true.
Proof.
  intros res.
  destruct (proj2 (CreateRoomWithConfig_registers "fresh" "lobby" 0 ∅
                     (Sfu.mkRoomConfig 0 false None) Samples.emptySFU) eq_refl)
    as (room & Hres & Hget & _ & _ & _ & _ & Hmax & _ & He & _).
  exists room. split; [exact Hres|]. split; [exact Hget|]. split; [exact Hmax|exact He].
Defined.

(** X20.  [CloseRoom] of an id the SFU does not hold fails with [not
    found] and changes nothing.  Otherwise it takes the room out, so that
    [GetRoom] no longer finds it while the other rooms stay, and closes
    it: the room taken out is closed, holds no track if it was open and no
    peer if it is a room the SFU can build, every later [AddPeer] on it
    fails and leaves it as it is, and a room can be created under its id
    again. *)
Theorem CloseRoom_removes (xid_New id : string) (s : Sfu.SFU) :
  let res := Sfu.CloseRoom id s in
  (Sfu.GetRoom id s = None ->
   res = (Some (Errorf "room %q not found" [ArgS id]), s, None))
  /\ (forall room, Sfu.GetRoom id s = Some room ->
        res.1.1 = None
        /\ Sfu.GetRoom id res.1.2 = None
        /\ (forall k, k <> id -> Sfu.GetRoom k res.1.2 = Sfu.GetRoom k s)
        /\ exists gone,
             res.2 = Some gone
             /\ Sfu.IsClosed gone = true
             /\ (Sfu.IsClosed room = false -> Sfu.publisherTracks gone = ∅)
             /\ (Sfu.reachable room -> Sfu.PeerCount gone = 0)
             /\ (forall tr p, isErr (Sfu.AddPeer tr p gone).1 = true
                              /\ (Sfu.AddPeer tr p gone).2 = gone)
             /\ (id <> "" ->
                 forall maxPeers metadata rc,
                   isErr (Sfu.CreateRoomWithConfig xid_New id maxPeers metadata rc
                            res.1.2).1 = false)).
Proof.
  cbv zeta. unfold Sfu.GetRoom, Sfu.CloseRoom. split; [by intros ->|].
  intros room ->. cbn. split; [done|]. split; [apply lookup_delete_eq|].
  split; [intros k Hk; by apply lookup_delete_ne|].
  exists (Sfu.Close room). split; [done|].
  assert (Sfu.closed (Sfu.Close room) = true) as Hcl.
  { unfold Sfu.Close. by destruct (Sfu.closed room) eqn:Hc. }
  split; [exact Hcl|]. split_and!.
  - unfold Sfu.IsClosed, Sfu.Close. by intros ->.
  - intros Hr. apply reachable_consistent, Close_consistent in Hr as (_ & _ & Hc).
    unfold Sfu.PeerCount. by rewrite (Hc Hcl), map_size_empty.
  - intros tr p. unfold Sfu.AddPeer. by rewrite Hcl.
  - intros Hid maxPeers metadata rc. unfold Sfu.CreateRoomWithConfig. cbn.
    destruct (String.eqb_spec id ""); [done|]. by rewrite lookup_delete_eq.
Qed.

(** In the sample SFU with the room [lobby] created, closing [lobby]
    succeeds, and [lobby] is then no longer found. *)
Lemma CloseRoom_removes_witness :
  let s := (Sfu.CreateRoomWithConfig "fresh" "lobby" 0 ∅
              (Sfu.mkRoomConfig 0 false None) Samples.emptySFU).2 in
  (Sfu.CloseRoom "lobby" s).1.1 = None
  /\ Sfu.GetRoom "lobby" (Sfu.CloseRoom "lobby" s).1.2 = None.
Proof.
  intros s.
  destruct (Sfu.GetRoom "lobby" s) as [room|] eqn:Hroom; [|by vm_compute in Hroom].
  destruct (proj2 (CloseRoom_removes "fresh" "lobby" s) room Hroom) as (He & Hget & _).
  by split.
Defined.

(** X21.  In a room that requires E2EE, built from [NewRoom] with
    [AddPeer], [RemovePeer], [RegisterPublisherTrack] and [Close], every
    peer in the room has declared encryption with an algorithm that is not
    empty: no sequence of these calls brings a peer without encryption
    into such a room.  The calls keep the requirement of the room as it
    was made. *)
Theorem e2ee_room_holds_encrypted_peers (r : Sfu.Room) :
  Sfu.reachable r ->
  (Sfu.e2eeRequired r = true ->
   forall k p, Sfu.GetPeer k r = Some p ->
     exists enc, Sfu.encryption p = Some enc /\ Sfu.Algorithm enc <> "")
  /\ (forall tr p, Sfu.e2eeRequired (Sfu.AddPeer tr p r).2 = Sfu.e2eeRequired r)
  /\ (forall peerID, Sfu.e2eeRequired (Sfu.RemovePeer peerID r) = Sfu.e2eeRequired r)
  /\ (forall tr publisher rem,
        Sfu.e2eeRequired (Sfu.RegisterPublisherTrack tr publisher rem r).2
          = Sfu.e2eeRequired r)
  /\ Sfu.e2eeRequired (Sfu.Close r) = Sfu.e2eeRequired r.
Proof.
  intros Hr. split_and!.
  - intros He k p Hk. by apply (reachable_encrypted r Hr He k p).
  - intros tr p. unfold Sfu.AddPeer. destruct (Sfu.closed r); [done|].
    destruct (_ <=? _); [done|].
    by destruct (if Sfu.e2eeRequired r then _ else _).
  - intros peerID. unfold Sfu.RemovePeer. by destruct (Sfu.peers r !! peerID).
  - intros tr publisher rem. unfold Sfu.RegisterPublisherTrack. cbv zeta.
    by destruct (match Sfu.publisherTracks r !! Sfu.Remote_ID rem with
                 | Some _ => _ | None => _ end).
  - unfold Sfu.Close. by destruct (Sfu.closed r).
Qed.

(** The sample room that requires E2EE, after the peer E with encryption
    has joined: E has declared encryption. *)
Lemma e2ee_room_holds_encrypted_peers_witness :
  let room := (Sfu.AddPeer Samples.transport Samples.encryptedPeer Samples.secureRoom).2 in
  exists p enc,
    Sfu.GetPeer "E" room = Some p
    /\ Sfu.encryption p = Some enc /\ Sfu.Algorithm enc <> "".
Proof.
  intros room.
  assert (Sfu.reachable room) as Hr by apply Sfu.reach_add, Sfu.reach_new.
  destruct (Sfu.GetPeer "E" room) as [p|] eqn:Hp; [|by vm_compute in Hp].
  destruct (proj1 (e2ee_room_holds_encrypted_peers room Hr) eq_refl "E" p Hp)
    as (enc & Henc & Halg).
  by exists p, enc.
Defined.
